(** * Form-Corrector: motion-analysis pipeline

    A shallow embedding of the analysis core of the Form-Corrector
    application (pose geometry, repetition counting, per-repetition
    quality scoring, error aggregation, scoring and frame batching),
    together with the properties its specification states about it.

    JavaScript numbers are IEEE-754 doubles.  The geometry kernel is
    modelled over the real numbers extended with the two infinities and
    NaN; the signal-processing and scoring code is modelled over exact
    rationals, so that every definition can be evaluated.  Rounding
    error of the double operations is not modelled. *)

From Stdlib Require Import List Bool Arith ZArith QArith Qround Qabs Qminmax Lia Lqa Lra.
From Stdlib Require Import Reals Ratan.
From Stdlib Require Import String Ascii.
From Stdlib Require Import Sorting.Sorted Sorting.Permutation.
Import ListNotations.

Set Implicit Arguments.

(** ** JavaScript values and built-ins used by the analysis code *)

Module Js.

(** A computation that returns a value or raises an exception. *)
Inductive result (A : Type) : Type :=
| Ok (a : A)
| Throw (msg : string).

Arguments Ok {A} a.
Arguments Throw {A} msg.

Definition bind {A B : Type} (m : result A) (k : A -> result B) : result B :=
  match m with
  | Ok a => k a
  | Throw msg => Throw msg
  end.

Definition raises {A : Type} (m : result A) : Prop :=
  exists msg, m = Throw msg.

(** The property names every object inherits from [Object.prototype]. *)
Definition objectPrototypeKeys : list string :=
  [ "constructor"; "__defineGetter__"; "__defineSetter__"; "hasOwnProperty";
    "__lookupGetter__"; "__lookupSetter__"; "isPrototypeOf";
    "propertyIsEnumerable"; "toString"; "valueOf"; "__proto__";
    "toLocaleString" ]%string.

Definition isInheritedKey (key : string) : bool :=
  existsb (String.eqb key) objectPrototypeKeys.

(** The outcome of reading [obj[key]] on an object literal used as a
    table: an own entry, a property inherited from [Object.prototype]
    (a function or object, hence truthy), or [undefined]. *)
Inductive lookup (A : Type) : Type :=
| Own (a : A)
| Inherited
| Absent.

Arguments Own {A} a.
Arguments Inherited {A}.
Arguments Absent {A}.

Fixpoint ownProp {A : Type} (own : list (string * A)) (key : string)
  : option A :=
  match own with
  | [] => None
  | (k, v) :: rest => if String.eqb k key then Some v else ownProp rest key
  end.

Definition getProp {A : Type} (own : list (string * A)) (key : string)
  : lookup A :=
  match ownProp own key with
  | Some v => Own v
  | None => if isInheritedKey key then Inherited else Absent
  end.

(** [str.includes(sub)] *)
Fixpoint includes (str sub : string) : bool :=
  if String.prefix sub str then true
  else match str with
       | EmptyString => false
       | String _ rest => includes rest sub
       end.

Local Open Scope Q_scope.

Definition Qlt_bool (x y : Q) : bool := negb (Qle_bool y x).

(** Math.round: the nearest integer, a tie going up. *)
Definition round (x : Q) : Z := Qfloor (x + (1 # 2)).

(** Truncation toward zero (ToIntegerOrInfinity on a finite number). *)
Definition truncate (x : Q) : Z :=
  if Qle_bool 0 x then Qfloor x else Qceiling x.

(** A value that is a number, NaN or [undefined]. *)
Inductive value : Type :=
| Undefined
| Num (q : Q)
| NotANumber.

(** [v + 1] *)
Definition plusOne (v : value) : value :=
  match v with
  | Num q => Num (q + 1)
  | _ => NotANumber
  end.

(** ToIntegerOrInfinity *)
Definition toInteger (v : value) : Z :=
  match v with
  | Num q => truncate q
  | _ => 0%Z
  end.

Definition clampIndex (len rel : Z) : nat :=
  Z.to_nat (if (rel <? 0)%Z then Z.max (len + rel) 0 else Z.min rel len).

(** Array.prototype.slice(start, end) *)
Definition slice {A : Type} (l : list A) (start finish : value) : list A :=
  let len := Z.of_nat (List.length l) in
  let k := clampIndex len (toInteger start) in
  let final :=
    match finish with
    | Undefined => List.length l
    | _ => clampIndex len (toInteger finish)
    end in
  firstn (final - k) (skipn k l).

(** [array.map((element, index) => ...)] *)
Fixpoint mapiFrom {A B : Type} (f : nat -> A -> B) (i : nat) (l : list A)
  : list B :=
  match l with
  | [] => []
  | a :: rest => f i a :: mapiFrom f (S i) rest
  end.

Definition mapi {A B : Type} (f : nat -> A -> B) (l : list A) : list B :=
  mapiFrom f 0 l.

(** [array.sort(compare)] for a comparator that orders by a key: the
    sort is stable, so its result is the one of insertion from the right.
    [le a b] holds when [compare(a, b) <= 0]. *)
Section StableSort.
Variable A : Type.
Variable le : A -> A -> bool.

Fixpoint insertSorted (a : A) (l : list A) : list A :=
  match l with
  | [] => [a]
  | b :: rest => if le a b then a :: l else b :: insertSorted a rest
  end.

Definition stableSort (l : list A) : list A :=
  fold_right insertSorted [] l.
End StableSort.

End Js.

(** ** Geometry kernel (src/services/poseAnalysis.js) *)

Module Geometry.

Local Open Scope R_scope.

(** A JavaScript number: a finite real, one of the infinities, or NaN.
    A coordinate that is [undefined] or not a number behaves as NaN in
    the arithmetic below. *)
Inductive jsnum : Type :=
| Fin (r : R)
| PosInf
| NegInf
| NaN.

(** A landmark object, reduced to the two coordinates the kernel reads. *)
Record Landmark : Type := mkLandmark { lx : jsnum; ly : jsnum }.

(** An argument of the kernel: [None] is a falsy value (null, undefined). *)
Definition jsval := option Landmark.

Definition isFinite (n : jsnum) : bool :=
  match n with Fin _ => true | _ => false end.

(** isUsableLandmark(landmark) *)
Definition isUsableLandmark (landmark : jsval) : bool :=
  match landmark with
  | None => false
  | Some l => isFinite (lx l) && isFinite (ly l)
  end.

(** Subtraction of doubles, without rounding. *)
Definition jsub (a b : jsnum) : jsnum :=
  match a, b with
  | NaN, _ | _, NaN => NaN
  | Fin x, Fin y => Fin (x - y)
  | Fin _, PosInf => NegInf
  | Fin _, NegInf => PosInf
  | PosInf, PosInf => NaN
  | PosInf, _ => PosInf
  | NegInf, NegInf => NaN
  | NegInf, _ => NegInf
  end.

(** Math.atan2 on finite arguments, in (-PI, PI]. *)
Definition atan2R (y x : R) : R :=
  if Rlt_dec 0 x then atan (y / x)
  else if Rlt_dec x 0 then
         if Rle_dec 0 y then atan (y / x) + PI else atan (y / x) - PI
       else if Rlt_dec 0 y then PI / 2
            else if Rlt_dec y 0 then - (PI / 2) else 0.

(** Math.atan2 on every pair of numbers (ECMAScript, Math.atan2). *)
Definition atan2 (y x : jsnum) : jsnum :=
  match y, x with
  | NaN, _ | _, NaN => NaN
  | Fin ry, Fin rx => Fin (atan2R ry rx)
  | Fin ry, PosInf => Fin 0
  | Fin ry, NegInf => Fin (if Rle_dec 0 ry then PI else - PI)
  | PosInf, Fin _ => Fin (PI / 2)
  | PosInf, PosInf => Fin (PI / 4)
  | PosInf, NegInf => Fin (3 * PI / 4)
  | NegInf, Fin _ => Fin (- (PI / 2))
  | NegInf, PosInf => Fin (- (PI / 4))
  | NegInf, NegInf => Fin (- (3 * PI / 4))
  end.

(** [Math.abs(radians * 180.0 / Math.PI)] *)
Definition toDegreesAbs (radians : jsnum) : jsnum :=
  match radians with
  | Fin r => Fin (Rabs (r * 180 / PI))
  | NaN => NaN
  | _ => PosInf
  end.

(** [if (angle > 180.0) angle = 360 - angle; return angle;]
    A comparison with NaN is false. *)
Definition foldAngle (angle : jsnum) : jsnum :=
  match angle with
  | Fin v => if Rlt_dec 180 v then Fin (360 - v) else Fin v
  | PosInf => NegInf
  | other => other
  end.

Definition angleBody (a b c : Landmark) : jsnum :=
  let radians :=
    jsub (atan2 (jsub (ly c) (ly b)) (jsub (lx c) (lx b)))
         (atan2 (jsub (ly a) (ly b)) (jsub (lx a) (lx b))) in
  foldAngle (toDegreesAbs radians).

(** PoseAnalysisService.calculateAngle(a, b, c) *)
Definition calculateAngle (a b c : jsval) : jsnum :=
  match a, b, c with
  | Some a', Some b', Some c' => angleBody a' b' c'
  | _, _, _ => Fin 0
  end.

(** RepCountingService.calculateAngle(a, b, c)
    (src/services/repProgression.js): the same computation, with 180
    for a falsy argument. *)
Definition repCalculateAngle (a b c : jsval) : jsnum :=
  match a, b, c with
  | Some a', Some b', Some c' => angleBody a' b' c'
  | _, _, _ => Fin 180
  end.

End Geometry.

(** ** Data model shared by the analysis stages *)

Module Data.

Local Open Scope Q_scope.

(** Severity of a validation rule (src/config/exercises.js). *)
Inductive Severity : Type := critical | high | medium | low.

(** An issue raised by a validation rule on a frame, reduced to the
    fields the aggregation reads. *)
Record Issue : Type := mkIssue {
  id : string;
  severity : Severity
}.

(** A pose landmark; [visibility] may be absent. *)
Record Landmark : Type := mkLandmark {
  x : Q;
  y : Q;
  visibility : option Q
}.

(** A feature of the per-frame analysis: a number, [null], or not
    present on the object at all. *)
Inductive Feature : Type :=
| Missing
| Null
| Number (q : Q).

(** An element of [validFrameResults] in analyzeVideo:
    [{ time, frameIndex, errors, landmarks, dataUrl, ...analysis }].
    [landmarks] is [None] when the detector found no pose, and an entry
    of the landmark array may be missing. *)
Record AnalyzedFrame : Type := mkAnalyzedFrame {
  time : Q;
  frameIndex : nat;
  errors : list Issue;
  landmarks : option (list (option Landmark));
  kneeAngle : Feature;
  hipAngle : Feature;
  backAngle : Feature;
  elbowAngle : Feature;
  asymmetry : Feature
}.

End Data.

(** ** Repetition counter (RepCountingService, src/services/repProgression.js) *)

Module RepCounting.

Import Js Data.
Local Open Scope Q_scope.

Definition Frame : Type := AnalyzedFrame.

(** [{ index, time, value }], [value] being [null] or a number. *)
Record MetricPoint : Type := mkMetricPoint {
  index : nat;
  mtime : Q;
  value : option Q
}.

(** A peak or valley: [{ index, time, value }]. *)
Record Extremum : Type := mkExtremum {
  eindex : nat;
  etime : Q;
  evalue : Q
}.

(** A repetition range.  The middle point is stored under
    [bottomIndex]/[bottomTime] for direction 'down' and under
    [topIndex]/[topTime] otherwise. *)
Record RepRange : Type := mkRepRange {
  isDown : bool;
  startIndex : nat;
  turnIndex : nat;
  endIndex : nat;
  startTime : Q;
  turnTime : Q;
  endTime : Q;
  duration : Q;
  rangeOfMotion : Q
}.

(** The object returned by countReps; the early returns carry no
    [peakFrames] and [valleyFrames]. *)
Record CountResult : Type := mkCountResult {
  count : nat;
  repRanges : list RepRange;
  peakFrames : option (list Extremum);
  valleyFrames : option (list Extremum);
  metricData : list MetricPoint
}.

Definition zeroResult : CountResult :=
  mkCountResult 0 [] None None [].

(** An entry of [repThresholds].  A field is [None] when reading it
    gives [undefined], which is the case of every field of a value
    inherited from [Object.prototype]. *)
Record RepConfig : Type := mkRepConfig {
  metric : option string;
  fallbackMetric : option string;
  threshold : option Q;
  direction : option string
}.

Definition repThresholds : list (string * RepConfig) :=
  [ ("squat"%string,
     mkRepConfig (Some "hipHeight") (Some "kneeAngle") (Some 0.08) (Some "down"));
    ("deadlift"%string,
     mkRepConfig (Some "hipHeight") (Some "kneeAngle") (Some 0.10) (Some "down"));
    ("overhead_press"%string,
     mkRepConfig (Some "wristHeight") (Some "shoulderHeight") (Some 0.12) (Some "up"));
    ("bench_press"%string,
     mkRepConfig (Some "wristHeight") (Some "elbowHeight") (Some 0.10) (Some "down"));
    ("pull_up"%string,
     mkRepConfig (Some "shoulderHeight") (Some "chinHeight") (Some 0.15) (Some "up")) ]%string.

Definition inheritedConfig : RepConfig := mkRepConfig None None None None.

Section Counter.

(** The counter's own calculateAngle on three present landmarks, in
    degrees.  It is computed with Math.atan2 (see
    [Geometry.repCalculateAngle]); here only its value matters. *)
Variable calculateAngle : Landmark -> Landmark -> Landmark -> Q.

(** [landmarks[i]], [None] when missing or null. *)
Definition landmarkAt (ls : list (option Landmark)) (i : nat)
  : option Landmark :=
  match nth_error ls i with
  | Some (Some l) => Some l
  | _ => None
  end.

(** [landmarks[i]?.visibility > 0.3] *)
Definition visibleAt (ls : list (option Landmark)) (i : nat) : bool :=
  match landmarkAt ls i with
  | Some l =>
      match visibility l with
      | Some v => Qlt_bool 0.3 v
      | None => false
      end
  | None => false
  end.

Definition averageY (ls : list (option Landmark)) (i j : nat) : option Q :=
  if visibleAt ls i && visibleAt ls j then
    match landmarkAt ls i, landmarkAt ls j with
    | Some a, Some b => Some ((y a + y b) / 2)
    | _, _ => None
    end
  else None.

(** The [switch (metricType)] of extractMetric. *)
Definition metricValue (metricType : option string)
           (ls : list (option Landmark)) : option Q :=
  match metricType with
  | None => None
  | Some m =>
      if String.eqb m "hipHeight" then averageY ls 23 24
      else if String.eqb m "wristHeight" then averageY ls 15 16
      else if String.eqb m "shoulderHeight" then averageY ls 11 12
      else if String.eqb m "elbowHeight" then averageY ls 13 14
      else if String.eqb m "chinHeight" then
        (if visibleAt ls 0 then option_map y (landmarkAt ls 0) else None)
      else if String.eqb m "kneeAngle" then
        match landmarkAt ls 23, landmarkAt ls 25, landmarkAt ls 27 with
        | Some a, Some b, Some c => Some (calculateAngle a b c / 180)
        | _, _, _ => None
        end
      else None
  end.

(** extractMetric(frames, metricType) *)
Definition extractMetric (frames : list Frame) (metricType : option string)
  : list MetricPoint :=
  mapi (fun index frame =>
          match landmarks frame with
          | None => mkMetricPoint index (time frame) None
          | Some ls =>
              if (List.length ls <? 33)%nat
              then mkMetricPoint index (time frame) None
              else mkMetricPoint index (time frame) (metricValue metricType ls)
          end) frames.

(** The sum accumulated by the inner loop of smoothData. *)
Definition sumQ (l : list Q) : Q := fold_left Qplus l 0.

(** smoothData(data, windowSize): centred moving average whose window
    shrinks at the two ends. *)
Definition smoothData (data : list Q) (windowSize : nat) : list Q :=
  let halfWindow := (windowSize / 2)%nat in
  map (fun i =>
         let lo := (i - halfWindow)%nat in
         let hi := Nat.min (List.length data - 1) (i + halfWindow) in
         let window := firstn (hi + 1 - lo) (skipn lo data) in
         sumQ window / inject_Z (Z.of_nat (List.length window)))
      (seq 0 (List.length data)).

Definition valueOrZero (p : MetricPoint) : Q :=
  match value p with Some v => v | None => 0 end.

Definition hasValue (p : MetricPoint) : bool :=
  match value p with Some _ => true | None => false end.

(** [d.value !== null && d.value !== 0] *)
Definition nonZeroValue (p : MetricPoint) : bool :=
  match value p with Some v => negb (Qeq_bool v 0) | None => false end.

(** [x >= t] where [t] may be NaN ([None]): false on NaN. *)
Definition geThreshold (x : Q) (t : option Q) : bool :=
  match t with
  | Some t' => Qle_bool t' x
  | None => false
  end.

(** The loop of filterSignificantPoints over the sorted points. *)
Fixpoint keepSignificant (minAmplitude : option Q) (lastPoint : option Extremum)
         (points : list Extremum) : list Extremum :=
  match points with
  | [] => []
  | point :: rest =>
      match lastPoint with
      | None => point :: keepSignificant minAmplitude (Some point) rest
      | Some lp =>
          if geThreshold (Qabs (evalue point - evalue lp)) minAmplitude
          then point :: keepSignificant minAmplitude (Some point) rest
          else keepSignificant minAmplitude lastPoint rest
      end
  end.

Definition byIndex (a b : Extremum) : bool := (eindex a <=? eindex b)%nat.

(** [list.some(q => q.index === p.index)] *)
Definition hasIndex (l : list Extremum) (p : Extremum) : bool :=
  existsb (fun q => (eindex q =? eindex p)%nat) l.

(** filterSignificantPoints(peaks, valleys, minAmplitude) *)
Definition filterSignificantPoints (peaks valleys : list Extremum)
           (minAmplitude : option Q) : list Extremum * list Extremum :=
  let allPoints := stableSort byIndex (peaks ++ valleys) in
  let filtered := keepSignificant minAmplitude None allPoints in
  (filter (hasIndex peaks) filtered, filter (hasIndex valleys) filtered).

Definition isLocalMax (prev2 prev curr next next2 : Q) : bool :=
  Qlt_bool prev curr && Qlt_bool next curr
  && Qle_bool prev2 curr && Qle_bool next2 curr.

Definition isLocalMin (prev2 prev curr next next2 : Q) : bool :=
  Qlt_bool curr prev && Qlt_bool curr next
  && Qle_bool curr prev2 && Qle_bool curr next2.

(** The extrema loop of findPeaksAndValleys:
    [for (let i = 2; i < smoothed.length - 2; i++)]. *)
Definition rawExtrema (test : Q -> Q -> Q -> Q -> Q -> bool)
           (validData : list MetricPoint) (smoothed : list Q)
  : list Extremum :=
  flat_map (fun i =>
              let at_ k := nth k smoothed 0 in
              if test (at_ (i - 2)%nat) (at_ (i - 1)%nat) (at_ i)
                      (at_ (i + 1)%nat) (at_ (i + 2)%nat)
              then match nth_error validData i with
                   | Some d => [mkExtremum (index d) (mtime d) (at_ i)]
                   | None => []
                   end
              else [])
           (seq 2 (List.length smoothed - 4)).

(** findPeaksAndValleys(data, minAmplitude) *)
Definition findPeaksAndValleys (data : list MetricPoint)
           (minAmplitude : option Q) : list Extremum * list Extremum :=
  let validData := filter hasValue data in
  if (List.length validData <? 5)%nat then ([], [])
  else
    let smoothed := smoothData (map valueOrZero validData) 5 in
    let peaks := rawExtrema isLocalMax validData smoothed in
    let valleys := rawExtrema isLocalMin validData smoothed in
    filterSignificantPoints peaks valleys minAmplitude.

(** [(frameMap.get(i) || frames[0]).time] *)
Definition frameTime (frames : list Frame) (i : nat) : Q :=
  match nth_error frames i with
  | Some f => time f
  | None => match frames with f0 :: _ => time f0 | [] => 0 end
  end.

(** The two loops of identifyReps: every window of three consecutive
    points whose kinds are start, turn, start. *)
Fixpoint scanTriplets (down : bool) (isStart isTurn : Extremum -> bool)
         (frames : list Frame) (points : list Extremum) : list RepRange :=
  match points with
  | p1 :: ((p2 :: p3 :: _) as rest) =>
      (if isStart p1 && isTurn p2 && isStart p3 then
         [ mkRepRange down (eindex p1) (eindex p2) (eindex p3)
             (frameTime frames (eindex p1)) (frameTime frames (eindex p2))
             (frameTime frames (eindex p3))
             (frameTime frames (eindex p3) - frameTime frames (eindex p1))
             (if down then Qabs (evalue p1 - evalue p2)
              else Qabs (evalue p2 - evalue p1)) ]
       else [])
      ++ scanTriplets down isStart isTurn frames rest
  | _ => []
  end.

Definition isDownDirection (direction : option string) : bool :=
  match direction with
  | Some d => String.eqb d "down"
  | None => false
  end.

(** identifyReps(peaks, valleys, direction, frames) *)
Definition identifyReps (peaks valleys : list Extremum)
           (direction : option string) (frames : list Frame)
  : list RepRange :=
  let allPoints := stableSort byIndex (peaks ++ valleys) in
  if (List.length allPoints <? 3)%nat then []
  else if isDownDirection direction
       then scanTriplets true (hasIndex valleys) (hasIndex peaks) frames allPoints
       else scanTriplets false (hasIndex peaks) (hasIndex valleys) frames allPoints.

Definition maxQ (l : list Q) : option Q :=
  match l with
  | [] => None
  | a :: rest => Some (fold_left Qmax rest a)
  end.

Definition minQ (l : list Q) : option Q :=
  match l with
  | [] => None
  | a :: rest => Some (fold_left Qmin rest a)
  end.

(** [Math.max(config.threshold, range * 0.15)]: NaN ([None]) when the
    threshold is undefined; the range of no values is -Infinity. *)
Definition adaptiveThreshold (configThreshold : option Q) (values : list Q)
  : option Q :=
  match configThreshold with
  | None => None
  | Some t =>
      match maxQ values, minQ values with
      | Some hi, Some lo => Some (Qmax t ((hi - lo) * 0.15))
      | _, _ => Some t
      end
  end.

Definition hasFallback (c : RepConfig) : bool :=
  match fallbackMetric c with
  | Some m => negb (String.eqb m "")
  | None => false
  end.

(** The body of countReps once a configuration object was found. *)
Definition countWith (config : RepConfig) (frames : list Frame)
  : CountResult :=
  let primary := extractMetric frames (metric config) in
  let validDataPoints := filter nonZeroValue primary in
  let metricData :=
    if Qlt_bool (inject_Z (Z.of_nat (List.length validDataPoints)))
                (inject_Z (Z.of_nat (List.length frames)) * 0.5)
       && hasFallback config
    then extractMetric frames (fallbackMetric config)
    else primary in
  let values := map valueOrZero (filter nonZeroValue metricData) in
  let thr := adaptiveThreshold (threshold config) values in
  let (peaks, valleys) := findPeaksAndValleys metricData thr in
  let ranges := identifyReps peaks valleys (direction config) frames in
  mkCountResult (List.length ranges) ranges (Some peaks) (Some valleys)
                metricData.

(** countReps(frames, exerciseId) *)
Definition countReps (frames : list Frame) (exerciseId : string)
  : CountResult :=
  if (List.length frames <? 5)%nat then zeroResult
  else
    match getProp repThresholds exerciseId with
    | Absent => zeroResult
    | Own config => countWith config frames
    | Inherited => countWith inheritedConfig frames
    end.

End Counter.

End RepCounting.

(** ** Repetition phase and quality analyser
       (RepProgressionService, src/services/repProgression.js) *)

Module RepProgression.

Import Js Data.
Local Open Scope Q_scope.

(** An entry of [exercisePatterns], reduced to the fields that are read. *)
Record Pattern : Type := mkPattern {
  phases : list string;
  primaryMetric : string
}.

Definition exercisePatterns : list (string * Pattern) :=
  [ ("squat", mkPattern ["bottom"; "ascent"; "top"; "descent"] "kneeAngle");
    ("deadlift", mkPattern ["bottom"; "ascent"; "top"; "descent"] "backAngle");
    ("overhead_press",
     mkPattern ["bottom"; "drive"; "overhead"; "descent"] "elbowAngle");
    ("bench_press", mkPattern ["top"; "descent"; "bottom"; "ascent"] "elbowAngle");
    ("pull_up", mkPattern ["bottom"; "ascent"; "top"; "descent"] "elbowAngle")
  ]%string.

(** [{ index, time, value, frame }] *)
Record ProgressionPoint : Type := mkProgressionPoint {
  pindex : nat;
  ptime : Q;
  pvalue : option Q
}.

(** [frame[metric]] for the feature names of the per-frame analysis. *)
Definition feature (frame : AnalyzedFrame) (metric : string) : Feature :=
  if String.eqb metric "kneeAngle" then kneeAngle frame
  else if String.eqb metric "hipAngle" then hipAngle frame
  else if String.eqb metric "backAngle" then backAngle frame
  else if String.eqb metric "elbowAngle" then elbowAngle frame
  else if String.eqb metric "asymmetry" then asymmetry frame
  else Missing.

(** The value kept by extractMetricProgression: [null] stays [null],
    and a missing feature leaves the initial [null]. *)
Definition featureValue (f : Feature) : option Q :=
  match f with
  | Number q => Some q
  | _ => None
  end.

(** extractMetricProgression(frames, metric) *)
Definition extractMetricProgression (frames : list AnalyzedFrame)
           (metric : string) : list ProgressionPoint :=
  mapi (fun index frame =>
          mkProgressionPoint index (time frame)
                             (featureValue (feature frame metric)))
       frames.

(** The per-phase record of identifyPhases, reduced to [frameIndices]. *)
Definition PhaseTable : Type := list (string * list nat).

Fixpoint pushIndex (table : PhaseTable) (phase : string) (i : nat)
  : PhaseTable :=
  match table with
  | [] => []
  | (name, indices) :: rest =>
      if String.eqb name phase then (name, indices ++ [i]) :: rest
      else (name, indices) :: pushIndex rest phase i
  end.

(** The state of the loop of identifyPhases. *)
Record PhaseState : Type := mkPhaseState {
  currentPhaseIndex : nat;
  previousValue : Q;
  isDecreasing : bool;
  table : PhaseTable
}.

Definition phaseStep (pattern : Pattern) (st : PhaseState)
           (point : ProgressionPoint) : PhaseState :=
  match pvalue point with
  | None => st
  | Some current =>
      let isMovingDown := Qlt_bool current (previousValue st) in
      let flipped := negb (Bool.eqb isMovingDown (isDecreasing st)) in
      let idx :=
        if flipped
        then ((currentPhaseIndex st + 1) mod List.length (phases pattern))%nat
        else currentPhaseIndex st in
      let dec := if flipped then isMovingDown else isDecreasing st in
      let phase := nth idx (phases pattern) EmptyString in
      mkPhaseState idx current dec (pushIndex (table st) phase (pindex point))
  end.

(** identifyPhases(metricProgression, frames, pattern) *)
Definition identifyPhases (metricProgression : list ProgressionPoint)
           (pattern : Pattern) : PhaseTable :=
  let start :=
    match metricProgression with
    | p :: _ => match pvalue p with Some v => v | None => 0 end
    | [] => 0
    end in
  let init :=
    mkPhaseState 0 start true (map (fun name => (name, [])) (phases pattern)) in
  table (fold_left (phaseStep pattern) (tl metricProgression) init).

(** The number a feature stands for in a subtraction ([null] is 0). *)
Definition featureNumber (f : Feature) : Q :=
  match f with
  | Number q => q
  | _ => 0
  end.

Definition isMissing (f : Feature) : bool :=
  match f with Missing => true | _ => false end.

(** calculateVelocities(frames, metric) *)
Fixpoint calculateVelocities (frames : list AnalyzedFrame) (metric : string)
  : list Q :=
  match frames with
  | previous :: ((current :: _) as rest) =>
      (if negb (isMissing (feature current metric))
          && negb (isMissing (feature previous metric))
       then [featureNumber (feature current metric)
             - featureNumber (feature previous metric)]
       else [])
      ++ calculateVelocities rest metric
  | _ => []
  end.

(** [Math.max(...velocities.map(v => Math.abs(v)))]; [None] is the
    -Infinity of an empty list. *)
Definition maxVelocity (velocities : list Q) : option Q :=
  match map Qabs velocities with
  | [] => None
  | a :: rest => Some (fold_left Qmax rest a)
  end.

Record PhaseIssue : Type := mkPhaseIssue {
  phase : string;
  type : string;
  pseverity : Severity
}.

(** analyzePhaseQuality(phaseFrames, phaseName, exerciseId, pattern) *)
Definition analyzePhaseQuality (phaseFrames : list AnalyzedFrame)
           (phaseName : string) (pattern : Pattern) : list PhaseIssue :=
  let top := maxVelocity (calculateVelocities phaseFrames (primaryMetric pattern)) in
  (if includes phaseName "descent" || includes phaseName "descent" then
     match top with
     | Some m => if Qlt_bool 20 m
                 then [mkPhaseIssue phaseName "uncontrolledMovement" high]
                 else []
     | None => []
     end
   else [])
  ++
  (if includes phaseName "ascent" || includes phaseName "drive" then
     match top with
     | Some m => if Qlt_bool m 3
                 then [mkPhaseIssue phaseName "slowConcentric" low]
                 else []
     | None => [mkPhaseIssue phaseName "slowConcentric" low]
     end
   else []).

(** The first differences of a list. *)
Fixpoint differences (l : list Q) : list Q :=
  match l with
  | a :: ((b :: _) as rest) => (b - a) :: differences rest
  | _ => []
  end.

Definition sumQ (l : list Q) : Q := fold_left Qplus l 0.

(** [Math.round(Math.max(0, 100 - average * factor))] *)
Definition penalised (average factor : Q) : Z :=
  round (Qmax 0 (100 - average * factor)).

(** The values of [metricProgression.filter(p => p.value !== null)]. *)
Definition validValues (metricProgression : list ProgressionPoint) : list Q :=
  flat_map (fun p => match pvalue p with Some v => [v] | None => [] end)
           metricProgression.

(** calculateSmoothness(metricProgression) *)
Definition calculateSmoothness (metricProgression : list ProgressionPoint)
  : Z :=
  let validPoints := validValues metricProgression in
  if (List.length validPoints <? 3)%nat then 100%Z
  else
    let velocities := differences validPoints in
    let totalAcceleration := sumQ (map Qabs (differences velocities)) in
    let avgAcceleration :=
      totalAcceleration / inject_Z (Z.of_nat (List.length velocities)) in
    penalised avgAcceleration 5.

(** calculateSymmetry(frames) *)
Definition calculateSymmetry (frames : list AnalyzedFrame) : Z :=
  let present := filter (fun f => negb (isMissing (asymmetry f))) frames in
  match present with
  | [] => 100%Z
  | _ =>
      let totalAsymmetry :=
        sumQ (map (fun f => featureNumber (asymmetry f)) present) in
      penalised (totalAsymmetry / inject_Z (Z.of_nat (List.length present))) 10
  end.

Definition framesIn (keep : string -> bool) (phases : PhaseTable) : nat :=
  fold_left (fun sum entry => (sum + List.length (snd entry))%nat)
            (filter (fun entry => keep (fst entry)) phases) 0%nat.

(** analyzeTempoControl(phases) *)
Definition analyzeTempoControl (phases : PhaseTable) : Z :=
  let totalDescentFrames := framesIn (fun p => includes p "descent") phases in
  let totalAscentFrames :=
    framesIn (fun p => includes p "ascent" || includes p "drive") phases in
  if (totalDescentFrames =? 0)%nat || (totalAscentFrames =? 0)%nat then 50%Z
  else
    let ratio := inject_Z (Z.of_nat totalDescentFrames)
                 / inject_Z (Z.of_nat totalAscentFrames) in
    let idealRatio := 1.75 in
    let deviation := Qabs (ratio - idealRatio) / idealRatio in
    round (Qmax 0 (100 - deviation * 100)).

Record Quality : Type := mkQuality {
  smoothness : Z;
  symmetry : Z;
  controlledTempo : Z
}.

(** The object built by analyzeRepProgression. *)
Record RepAnalysis : Type := mkRepAnalysis {
  exerciseId : string;
  totalDuration : Q;
  frameCount : nat;
  phaseTable : PhaseTable;
  issues : list PhaseIssue;
  quality : Quality;
  metrics : list ProgressionPoint
}.

(** analyzeRepProgression(repFrames, exerciseId): [Ok None] is the
    [null] returned for an unknown exercise.  A value inherited from
    [Object.prototype] passes the [!pattern] test and has no [phases],
    so that [pattern.phases.forEach] raises a TypeError. *)
Definition analyzeRepProgression (repFrames : list AnalyzedFrame)
           (exerciseId : string) : result (option RepAnalysis) :=
  match getProp exercisePatterns exerciseId with
  | Absent => Ok None
  | Inherited => Throw "TypeError: pattern.phases is undefined"
  | Own pattern =>
      let metricProgression :=
        extractMetricProgression repFrames (primaryMetric pattern) in
      let phases := identifyPhases metricProgression pattern in
      let issues :=
        flat_map (fun entry =>
                    match snd entry with
                    | [] => []
                    | indices =>
                        analyzePhaseQuality
                          (flat_map (fun i => match nth_error repFrames i with
                                              | Some f => [f]
                                              | None => []
                                              end) indices)
                          (fst entry) pattern
                    end) phases in
      Ok (Some (mkRepAnalysis exerciseId
                  (match rev repFrames with
                   | lastFrame :: _ => time lastFrame
                   | [] => 0
                   end)
                  (List.length repFrames) phases issues
                  (mkQuality (calculateSmoothness metricProgression)
                             (calculateSymmetry repFrames)
                             (analyzeTempoControl phases))
                  metricProgression))
  end.

End RepProgression.

(** ** Rule catalog and validation engine
       (src/config/exercises.js, src/services/poseAnalysis.js) *)

Module Validation.

Import Js Data.

(** The rule table of the catalog: for every exercise id, the ids and
    severities of its [validationChecks], in catalog order. *)
Definition ruleTable : list (string * list (string * Severity)) :=
  [ ("squat",
     [ ("knee_valgus", high); ("shallow_depth", medium);
       ("excessive_lean", medium); ("heel_lift", high);
       ("knee_forward_travel", low); ("asymmetric_descent", medium);
       ("back_rounding_squat", critical); ("hips_too_far_back", medium) ]);
    ("deadlift",
     [ ("rounded_back", critical); ("mid_back_rounding", critical);
       ("hips_too_low", medium); ("hips_rising_first", high);
       ("hyperextension", medium); ("shoulders_behind_bar", medium) ]);
    ("overhead_press",
     [ ("back_arch", high); ("mid_back_rounding_press", medium);
       ("incomplete_lockout", medium); ("elbow_flare_press", medium);
       ("forward_press_path", medium); ("using_leg_drive", low) ]);
    ("bench_press",
     [ ("elbow_flare", high); ("bar_bounce", medium); ("uneven_press", medium);
       ("wrist_extension", medium); ("incomplete_lockout_bench", low) ]);
    ("pull_up",
     [ ("partial_rep", medium); ("shoulder_shrug", medium);
       ("excessive_kip", low); ("elbows_forward", medium);
       ("chin_not_over", medium) ]) ]%string.

Definition exerciseIds : list string := map fst ruleTable.

Definition catalogRuleIds : list string :=
  flat_map (fun entry => map fst (snd entry)) ruleTable.

Section Engine.

(** The named landmarks and the feature object handed to a rule, and
    the pose landmark array handed to a feature extractor. *)
Variables NamedLandmarks Features PoseLandmarks : Type.

(** The predicate of each rule, by rule id; a predicate may raise. *)
Variable predicate : string -> NamedLandmarks -> Features -> result bool.

Record ValidationCheck : Type := mkValidationCheck {
  checkId : string;
  checkSeverity : Severity;
  validate : NamedLandmarks -> Features -> result bool
}.

(** An exercise of the catalog; an object passed by a caller may lack
    [validationChecks]. *)
Record Exercise : Type := mkExercise {
  exerciseId : string;
  validationChecks : option (list ValidationCheck)
}.

Definition EXERCISES : list Exercise :=
  map (fun entry =>
         mkExercise (fst entry)
           (Some (map (fun rule =>
                         mkValidationCheck (fst rule) (snd rule)
                                           (predicate (fst rule)))
                      (snd entry))))
      ruleTable.

(** getExerciseById(exerciseId) *)
Definition getExerciseById (exerciseId' : string) : option Exercise :=
  if String.eqb exerciseId' "" then None
  else find (fun ex => String.eqb (exerciseId ex) exerciseId') EXERCISES.

(** The first argument of validateForm: an id, or an exercise object
    (possibly null). *)
Inductive ExerciseArg : Type :=
| ById (exerciseId' : string)
| ByObject (exercise : option Exercise).

(** validateForm(exerciseOrId, landmarks, angles): a rule whose
    predicate raises is logged and contributes no issue. *)
Definition validateForm (exerciseOrId : ExerciseArg)
           (landmarks : NamedLandmarks) (angles : Features) : list Issue :=
  let exercise :=
    match exerciseOrId with
    | ById i => getExerciseById i
    | ByObject e => e
    end in
  let checks :=
    match exercise with
    | Some ex => match validationChecks ex with Some cs => cs | None => [] end
    | None => []
    end in
  flat_map (fun check =>
              match validate check landmarks angles with
              | Ok true => [mkIssue (checkId check) (checkSeverity check)]
              | _ => []
              end) checks.

(** The feature extractors of [analysisMap]; each may raise (on a
    null landmark array) or return a feature object. *)
Variables analyzeSquat analyzeDeadlift analyzeOverheadPress
          analyzeBenchPress analyzePullUp : PoseLandmarks -> result Features.

Definition analysisMap : list (string * (PoseLandmarks -> result Features)) :=
  [ ("squat", analyzeSquat); ("deadlift", analyzeDeadlift);
    ("overhead_press", analyzeOverheadPress);
    ("bench_press", analyzeBenchPress); ("pull_up", analyzePullUp) ]%string.

(** What analyzeExercise returns: a feature object, the empty object
    [{}], or (for an inherited [toString]) a string. *)
Inductive AnalysisValue : Type :=
| FeatureSet (f : Features)
| EmptyObject
| Text (s : string).

(** [analyzeFn()] when [analyzeFn] is a property inherited from
    [Object.prototype], called without a receiver in strict code. *)
Definition callInherited (key : string) : result AnalysisValue :=
  if String.eqb key "constructor" || String.eqb key "isPrototypeOf"
  then Ok EmptyObject
  else if String.eqb key "toString" then Ok (Text "[object Undefined]")
  else Throw "TypeError".

(** analyzeExercise(exerciseId, landmarks) *)
Definition analyzeExercise (exerciseId' : string) (landmarks : PoseLandmarks)
  : result AnalysisValue :=
  match getProp analysisMap exerciseId' with
  | Own analyzeFn => bind (analyzeFn landmarks) (fun f => Ok (FeatureSet f))
  | Absent => Ok EmptyObject
  | Inherited => callInherited exerciseId'
  end.

End Engine.

End Validation.

(** ** Aggregation and scoring (analyzeVideo, pages/RecordPage) *)

Module Aggregation.

Import Js Data.
Local Open Scope Q_scope.

(** An entry of [errorCounts]: [{ ...error, count, frames }]. *)
Record ErrorCount : Type := mkErrorCount {
  issue : Issue;
  count : nat;
  frames : list Q
}.

(** The [errorCounts] object: its own properties in creation order. *)
Definition ErrorCounts : Type := list (string * ErrorCount).

Fixpoint increment (counts : ErrorCounts) (key : string) (t : Q)
  : ErrorCounts :=
  match counts with
  | [] => []
  | (k, c) :: rest =>
      if String.eqb k key
      then (k, mkErrorCount (issue c) (S (count c)) (frames c ++ [t])) :: rest
      else (k, c) :: increment rest key t
  end.

(** The body of [frame.errors.forEach]: an id that names a property
    inherited from [Object.prototype] is found truthy, is not
    initialised, and [errorCounts[id].frames.push] raises. *)
Definition recordError (t : Q) (acc : result ErrorCounts) (error : Issue)
  : result ErrorCounts :=
  bind acc (fun counts =>
    match getProp counts (id error) with
    | Own _ => Ok (increment counts (id error) t)
    | Inherited => Throw "TypeError: errorCounts[error.id].frames is undefined"
    | Absent => Ok (counts ++ [(id error, mkErrorCount error 1 [t])])
    end).

Definition countErrors (validFrameResults : list AnalyzedFrame)
  : result ErrorCounts :=
  fold_left (fun acc frame => fold_left (recordError (time frame)) (errors frame) acc)
            validFrameResults (Ok []).

Definition isDigit (c : ascii) : bool :=
  let n := nat_of_ascii c in (48 <=? n)%nat && (n <=? 57)%nat.

Fixpoint digitsValue (acc : N) (s : string) : option N :=
  match s with
  | EmptyString => Some acc
  | String c rest =>
      if isDigit c
      then digitsValue (acc * 10 + N.of_nat (nat_of_ascii c - 48)) rest
      else None
  end.

(** The array index a property key denotes, if any: a canonical
    decimal numeral below 2^32 - 1. *)
Definition arrayIndex (key : string) : option N :=
  match key with
  | EmptyString => None
  | String c rest =>
      if (nat_of_ascii c =? 48)%nat && negb (String.eqb rest "") then None
      else match digitsValue 0 key with
           | Some n => if (n <? 4294967295)%N then Some n else None
           | None => None
           end
  end.

Definition isArrayIndex (key : string) : bool :=
  match arrayIndex key with Some _ => true | None => false end.

Definition indexOrZero (key : string) : N :=
  match arrayIndex key with Some n => n | None => 0%N end.

(** Object.values(obj): array-index keys in ascending order, then the
    other keys in creation order. *)
Definition objectValues {A : Type} (own : list (string * A)) : list A :=
  map snd
      (stableSort (fun a b => (indexOrZero (fst a) <=? indexOrZero (fst b))%N)
                  (filter (fun entry => isArrayIndex (fst entry)) own)
       ++ filter (fun entry => negb (isArrayIndex (fst entry))) own).

(** A key that is neither an array index nor the name of a property
    inherited from [Object.prototype]; every rule id of the catalog is
    one. *)
Definition ordinaryKey (key : string) : bool :=
  negb (isInheritedKey key) && negb (isArrayIndex key).

(** [{ ...err, frequency, thresholdFrequency }] *)
Record SignificantError : Type := mkSignificantError {
  error : ErrorCount;
  frequency : Q;
  thresholdFrequency : Q
}.

Definition thresholdFor (s : Severity) : Q :=
  match s with
  | critical => 0.15
  | high => 0.20
  | medium => 0.25
  | low => 0.30
  end.

Definition severityOrder (s : Severity) : nat :=
  match s with
  | critical => 4
  | high => 3
  | medium => 2
  | low => 1
  end.

Definition severityOf (e : SignificantError) : Severity :=
  severity (issue (error e)).

(** [compare(a, b) <= 0] for the comparator
    [severityOrder[b.severity] - severityOrder[a.severity]]. *)
Definition bySeverity (a b : SignificantError) : bool :=
  (severityOrder (severityOf b) <=? severityOrder (severityOf a))%nat.

Definition withFrequency (frameCount : nat) (err : ErrorCount)
  : SignificantError :=
  mkSignificantError err
    (inject_Z (Z.of_nat (count err)) / inject_Z (Z.of_nat frameCount))
    (thresholdFor (severity (issue err))).

Definition isSignificant (err : SignificantError) : bool :=
  Qle_bool (thresholdFrequency err) (frequency err).

(** The ERROR AGGREGATION block of analyzeVideo. *)
Definition significantErrors (validFrameResults : list AnalyzedFrame)
  : result (list SignificantError) :=
  match validFrameResults with
  | [] => Ok []
  | _ =>
      bind (countErrors validFrameResults) (fun errorCounts =>
        Ok (stableSort bySeverity
              (filter isSignificant
                 (map (withFrequency (List.length validFrameResults))
                      (objectValues errorCounts)))))
  end.

(** The SCORING block of analyzeVideo. *)
Definition baseScore (validFrameResults : list AnalyzedFrame)
           (significant : list SignificantError) : Z :=
  match validFrameResults with
  | [] => 0%Z
  | _ => Z.max 0 (Z.min 100 (100 - Z.of_nat (List.length significant) * 15))
  end.

Definition score (baseScore' : Z) (completenessMultiplier : Q) : Z :=
  round (inject_Z baseScore' * completenessMultiplier).

(** The aggregation and scoring blocks in sequence: the significant
    errors, the base score and the final score of a run.
    [completenessMultiplier] is [adaptiveReport.confidence]. *)
Definition scoreVideo (validFrameResults : list AnalyzedFrame)
           (completenessMultiplier : Q)
  : result (list SignificantError * Z * Z) :=
  bind (significantErrors validFrameResults) (fun significant =>
    let base := baseScore validFrameResults significant in
    Ok (significant, base, score base completenessMultiplier)).

End Aggregation.

(** ** Parallel frame orchestrator (analyzeVideo, pages/RecordPage,
       and workers/frameAnalysisWorker) *)

Module Orchestrator.

Import Js.

(** [Math.ceil(a / b)] on two array lengths, for a positive divisor. *)
Definition ceilDiv (a b : nat) : nat :=
  Z.to_nat (Qceiling (inject_Z (Z.of_nat a) / inject_Z (Z.of_nat b))).

(** [Math.min(4, Math.ceil(totalFrames / 50))] *)
Definition workerCount (totalFrames : nat) : nat :=
  Nat.min 4 (ceilDiv totalFrames 50).

(** [Math.ceil(totalFrames / workerCount)]; without frames the
    quotient is 0/0 and the size is NaN ([None]). *)
Definition frameBatchSize (totalFrames : nat) : option nat :=
  match workerCount totalFrames with
  | O => None
  | S _ as workers => Some (ceilDiv totalFrames workers)
  end.

Section Batching.

(** An extracted video frame, and what the per-frame pipeline makes
    of it (landmarks, issues, features; a failed frame included). *)
Variables ExtractedFrame Analysis : Type.

(** The per-frame pipeline as it runs inside a worker and as it runs
    in the sequential fallback on the main thread. *)
Variables workerAnalyze fallbackAnalyze : ExtractedFrame -> Analysis.

(** [{ index, frame }] *)
Record Indexed : Type := mkIndexed {
  index : nat;
  frame : ExtractedFrame
}.

(** [{ originalIndex, ..., success }] *)
Record FrameResult : Type := mkFrameResult {
  originalIndex : nat;
  analysis : Analysis;
  success : bool
}.

Definition framesWithLandmarks (extractedFrames : list ExtractedFrame)
  : list Indexed :=
  mapi mkIndexed extractedFrames.

(** The loop
    [for (let i = 0; i < frames.length; i += frameBatchSize)
       batches.push(frames.slice(i, i + frameBatchSize))];
    [None] when the fuel does not suffice. *)
Fixpoint batchLoop (fuel i size : nat) (frames : list Indexed)
  : option (list (list Indexed)) :=
  if (List.length frames <=? i)%nat then Some []
  else match fuel with
       | O => None
       | S fuel' =>
           option_map (cons (firstn size (skipn i frames)))
                      (batchLoop fuel' (i + size) size frames)
       end.

Definition makeBatches (frames : list Indexed)
  : option (list (list Indexed)) :=
  match frameBatchSize (List.length frames) with
  | Some size => batchLoop (List.length frames) 0 size frames
  | None => match frames with
            | [] => Some []
            | _ => Some [[]]
            end
  end.

(** The results a worker posts for a batch: the i-th frame of batch
    [batchIndex] carries [batchIndex * frameBatchSize + i]. *)
Definition workerResults (size batchIndex : nat) (batch : list Indexed)
  : list FrameResult :=
  mapi (fun i f =>
          mkFrameResult (batchIndex * size + i) (workerAnalyze (frame f)) true)
       batch.

(** analyzeFramesFallback(frameBatch, startIndex): every frame
    carries the index it was given at extraction. *)
Definition analyzeFramesFallback (batch : list Indexed) : list FrameResult :=
  map (fun f => mkFrameResult (index f) (fallbackAnalyze (frame f)) true)
      batch.

(** Which batches' workers succeed. *)
Variable workerSucceeds : nat -> bool.

(** The promise of one batch: the results its worker posted, or, when
    the worker failed, those of the fallback run on the same batch. *)
Definition batchResults (size idx : nat) (batch : list Indexed)
  : list FrameResult :=
  if workerSucceeds idx
  then workerResults size idx batch
  else analyzeFramesFallback batch.

(** [(await Promise.all(batches.map(...))).flat()]: the results of
    the batches, in batch order. *)
Definition allResults (extractedFrames : list ExtractedFrame)
  : option (list FrameResult) :=
  let frames := framesWithLandmarks extractedFrames in
  let size := match frameBatchSize (List.length frames) with
              | Some s => s
              | None => O
              end in
  option_map (fun batches => List.concat (mapi (batchResults size) batches))
             (makeBatches frames).

End Batching.

End Orchestrator.

(** ** The per-repetition stage of analyzeVideo *)

Module Pipeline.

Import Js Data.
Local Open Scope Q_scope.

Definition natValue (n : nat) : value := Num (inject_Z (Z.of_nat n)).

(** [repRange[name]] on a range object built by identifyReps. *)
Definition rangeProp (r : RepCounting.RepRange) (name : string) : value :=
  let turn := (if RepCounting.isDown r then "bottom" else "top")%string in
  if String.eqb name "startIndex" then natValue (RepCounting.startIndex r)
  else if String.eqb name (turn ++ "Index") then natValue (RepCounting.turnIndex r)
  else if String.eqb name "endIndex" then natValue (RepCounting.endIndex r)
  else if String.eqb name "startTime" then Num (RepCounting.startTime r)
  else if String.eqb name (turn ++ "Time") then Num (RepCounting.turnTime r)
  else if String.eqb name "endTime" then Num (RepCounting.endTime r)
  else if String.eqb name "duration" then Num (RepCounting.duration r)
  else if String.eqb name "rangeOfMotion" then Num (RepCounting.rangeOfMotion r)
  else Undefined.

(** [validFrameResults.slice(repRange.startFrame, repRange.endFrame + 1)] *)
Definition repFrames (validFrameResults : list AnalyzedFrame)
           (repRange : RepCounting.RepRange) : list AnalyzedFrame :=
  slice validFrameResults (rangeProp repRange "startFrame")
        (plusOne (rangeProp repRange "endFrame")).

(** The frames of a repetition as the specification describes them:
    from the start extremum through the end extremum, inclusive. *)
Definition framesOfRange (validFrameResults : list AnalyzedFrame)
           (repRange : RepCounting.RepRange) : list AnalyzedFrame :=
  firstn (RepCounting.endIndex repRange + 1 - RepCounting.startIndex repRange)
         (skipn (RepCounting.startIndex repRange) validFrameResults).

Fixpoint collect {A : Type} (l : list (result (option A))) : result (list A) :=
  match l with
  | [] => Ok []
  | m :: rest =>
      bind m (fun a =>
        bind (collect rest) (fun tail =>
          Ok (match a with Some v => v :: tail | None => tail end)))
  end.

(** The REP PROGRESSION ANALYSIS block:
    [repRanges.map(r => analyzeRepProgression(slice, id)).filter(Boolean)]. *)
Definition repProgressionAnalyses (validFrameResults : list AnalyzedFrame)
           (repRanges : list RepCounting.RepRange) (exerciseId : string)
  : result (list RepProgression.RepAnalysis) :=
  collect (map (fun repRange =>
                  RepProgression.analyzeRepProgression
                    (repFrames validFrameResults repRange) exerciseId)
               repRanges).

End Pipeline.

(** ** Synthetic input: a sampled sinusoidal squat recording *)

Module Synthetic.

Import Data.
Local Open Scope Q_scope.

(** sin(k * 30 degrees) for k = 0..11, to three decimals. *)
Definition sineTable : list Q :=
  [0; 0.5; 0.866; 1; 0.866; 0.5; 0; -0.5; -0.866; -1; -0.866; -0.5].

Definition sine (k : nat) : Q := nth (k mod 12) sineTable 0.

(** The hip height (normalised image y) at frame [i]:
    [base + amplitude * sin(2 PI (i + phase) / 12)], twelve frames to a
    cycle. *)
Definition hipHeightAt (base amplitude : Q) (phase i : nat) : Q :=
  base + amplitude * sine (i + phase).

(** A pose of 33 fully visible landmarks with both hips at height [hip]. *)
Definition pose (hip : Q) : list (option Landmark) :=
  map (fun k => Some (mkLandmark 0.5
                        (if (k =? 23)%nat || (k =? 24)%nat then hip else 0.5)
                        (Some 1)))
      (seq 0 33).

(** Frame [i] of the recording, one twelfth of a second per frame; the
    knee angle closes as the hips go down. *)
Definition frameAt (base amplitude : Q) (phase i : nat) : AnalyzedFrame :=
  mkAnalyzedFrame (inject_Z (Z.of_nat i) / 12) i []
                  (Some (pose (hipHeightAt base amplitude phase i)))
                  (Number (120 - 60 * sine (i + phase)))
                  Missing Missing Missing (Number 0).

Definition recording (base amplitude : Q) (phase n : nat)
  : list AnalyzedFrame :=
  map (frameAt base amplitude phase) (seq 0 n).

(** Three full cycles, frames 0 through 36, of a squat whose hips
    oscillate between 0.40 (standing) and 0.65 (bottom), starting from
    standing. *)
Definition threeSquats : list AnalyzedFrame := recording 0.525 0.125 9 37.

(** The issues raised on frame [i] of a recording of twenty flagged
    frames: each rule fires on an initial stretch of the frames. *)
Definition issuesAt (i : nat) : list Issue :=
  flat_map (fun rule : string * Severity * nat =>
              let '(ruleId, sev, n) := rule in
              if (i <? n)%nat then [mkIssue ruleId sev] else [])
           [ ("shallow_depth", medium, 5); ("knee_valgus", high, 3);
             ("knee_forward_travel", low, 6); ("heel_lift", high, 4);
             ("asymmetric_descent", medium, 10);
             ("back_rounding_squat", critical, 3);
             ("excessive_lean", medium, 4) ]%nat%string.

Definition flaggedRecording : list AnalyzedFrame :=
  map (fun i => mkAnalyzedFrame (inject_Z (Z.of_nat i) / 12) i (issuesAt i)
                                None Missing Missing Missing Missing Missing)
      (seq 0 20).

(** A stand-in for the counter's angle function where its value is
    irrelevant. *)
Definition flatAngle (a b c : Landmark) : Q := 180.

End Synthetic.

(** ** Formulas as the specification words them *)

Module Spec.

Import Data.
Local Open Scope Q_scope.

(** clamp(x, lo, hi) *)
Definition clamp (x lo hi : Z) : Z :=
  if (x <? lo)%Z then lo else if (hi <? x)%Z then hi else x.

Definition clampQ (x lo hi : Q) : Q :=
  if Js.Qlt_bool x lo then lo else if Js.Qlt_bool hi x then hi else x.

(** The second differences (jerk) of a series. *)
Definition jerk (values : list Q) : list Q :=
  RepProgression.differences (RepProgression.differences values).

Definition mean (l : list Q) : Q :=
  RepProgression.sumQ l / inject_Z (Z.of_nat (List.length l)).

(** smoothness = 100 - 5 * meanAbsoluteJerk, clamped to [0, 100] *)
Definition smoothness (values : list Q) : Q :=
  clampQ (100 - 5 * mean (map Qabs (jerk values))) 0 100.

(** The issues of the analysed frames, each with the time of its frame,
    frame by frame. *)
Definition issueList (frames : list AnalyzedFrame) : list (Q * Issue) :=
  flat_map (fun f => map (pair (time f)) (errors f)) frames.

Definition ofRule (ruleId : string) (p : Q * Issue) : bool :=
  String.eqb (id (snd p)) ruleId.

(** Merging by rule id: one issue per rule id, in the order in which
    the rule ids first occur. *)
Fixpoint mergedRules (l : list (Q * Issue)) : list Issue :=
  match l with
  | [] => []
  | p :: rest =>
      snd p :: filter (fun e => negb (String.eqb (id e) (id (snd p))))
                      (mergedRules rest)
  end.

(** frequency = occurrences / analyzedFrameCount *)
Definition frequencyOf (ruleId : string) (frames : list AnalyzedFrame) : Q :=
  inject_Z (Z.of_nat (List.length (filter (ofRule ruleId) (issueList frames))))
  / inject_Z (Z.of_nat (List.length frames)).

(** critical 0.15, high 0.20, medium 0.25, low 0.30 *)
Definition threshold (s : Severity) : Q :=
  match s with
  | critical => 0.15
  | high => 0.20
  | medium => 0.25
  | low => 0.30
  end.

(** frequency >= threshold(severity) *)
Definition retained (frames : list AnalyzedFrame) (e : Issue) : bool :=
  Qle_bool (threshold (severity e)) (frequencyOf (id e) frames).

Definition hasSeverity (s : Severity) (e : Issue) : bool :=
  match s, severity e with
  | critical, critical | high, high | medium, medium | low, low => true
  | _, _ => false
  end.

(** critical > high > medium > low *)
Definition rank (s : Severity) : nat :=
  match s with
  | critical => 3
  | high => 2
  | medium => 1
  | low => 0
  end.

(** Severity descending, ties in the order of the input. *)
Definition bySeverityDescending (l : list Issue) : list Issue :=
  flat_map (fun s => filter (hasSeverity s) l) [critical; high; medium; low].

(** The table of merged issues: for every merged rule its number of
    occurrences and the times of the frames it occurred in. *)
Definition entryOf (l : list (Q * Issue)) (e : Issue)
  : string * Aggregation.ErrorCount :=
  (id e,
   Aggregation.mkErrorCount e (List.length (filter (ofRule (id e)) l))
                            (map fst (filter (ofRule (id e)) l))).

Definition countsOf (l : list (Q * Issue)) : Aggregation.ErrorCounts :=
  map (entryOf l) (mergedRules l).

(** The aggregation record of a retained rule. *)
Definition report (frames : list AnalyzedFrame) (e : Issue)
  : Aggregation.SignificantError :=
  let occurrences := filter (ofRule (id e)) (issueList frames) in
  Aggregation.mkSignificantError
    (Aggregation.mkErrorCount e (List.length occurrences) (map fst occurrences))
    (frequencyOf (id e) frames)
    (threshold (severity e)).

End Spec.

(** ** Shape of the extrema that the significance filter keeps *)

Module Shape.
Import Js Data RepCounting.
Local Open Scope Q_scope.

(** Every two successive points differ by at least [gap]. *)
Fixpoint gapsAtLeast (gap : Q) (points : list Extremum) : bool :=
  match points with
  | p :: ((q :: _) as rest) =>
      Qle_bool gap (Qabs (evalue q - evalue p)) && gapsAtLeast gap rest
  | _ => true
  end.

End Shape.

(** ** Repetition statistics
       (RepCountingService.analyzeRepQuality, src/services/repProgression.js) *)

Module RepQuality.

Import Js Data RepCounting.
Local Open Scope Q_scope.

(** calculateVariance(values); the quotient 0 / 0 of an empty array is
    NaN ([None]). *)
Definition calculateVariance (values : list Q) : option Q :=
  match values with
  | [] => None
  | _ =>
      let n := inject_Z (Z.of_nat (List.length values)) in
      let mean := fold_left Qplus values 0 / n in
      let squareDiffs := map (fun v => (v - mean) ^ 2) values in
      Some (fold_left Qplus squareDiffs 0 / n)
  end.

(** The score of one repetition's duration: ideal between 2 and 4
    seconds. *)
Definition tempoOf (d : Q) : Q :=
  if Qle_bool 2 d && Qle_bool d 4 then 100
  else if Qle_bool 1 d && Qle_bool d 6 then 70
  else 40.

(** [{ repNumber, duration, rangeOfMotion }] *)
Record RepDetail : Type := mkRepDetail {
  repNumber : nat;
  detailDuration : Q;
  detailRangeOfMotion : Q
}.

(** The object returned by analyzeRepQuality; [consistency] is [None]
    when it is NaN, and the result for no repetition has no [details]. *)
Record RepQuality : Type := mkRepQuality {
  avgDuration : Q;
  avgROM : Q;
  consistency : option Q;
  tempoScore : Q;
  details : option (list RepDetail)
}.

(** analyzeRepQuality(repRanges) *)
Definition analyzeRepQuality (repRanges : list RepRange) : RepQuality :=
  match repRanges with
  | [] => mkRepQuality 0 0 (Some 0) 0 None
  | _ =>
      let durations := map duration repRanges in
      let roms := map rangeOfMotion repRanges in
      let n := inject_Z (Z.of_nat (List.length durations)) in
      let consistency :=
        match calculateVariance durations, calculateVariance roms with
        | Some durationVariance, Some romVariance =>
            Some (100 - Qmin 100 ((durationVariance + romVariance) * 200))
        | _, _ => None
        end in
      mkRepQuality
        (fold_left Qplus durations 0 / n)
        (fold_left Qplus roms 0 / inject_Z (Z.of_nat (List.length roms)))
        consistency
        (fold_left Qplus (map tempoOf durations) 0 / n)
        (Some (mapi (fun i rep =>
                       mkRepDetail (i + 1) (duration rep) (rangeOfMotion rep))
                    repRanges))
  end.

End RepQuality.

(** ** Consistency across repetitions
       (RepProgressionService.compareRepProgression) *)

Module RepComparison.

Import Js Data RepProgression.
Local Open Scope Q_scope.

(** [{ totalReps, averageQuality, fatigueDetected, formBreakdown,
       recommendations }] *)
Record Consistency : Type := mkConsistency {
  totalReps : nat;
  averageQuality : Z;
  fatigueDetected : bool;
  formBreakdown : list string;
  recommendations : list string
}.

(** [list.reduce((sum, r) => sum + r.quality.f, 0) / list.length] *)
Definition averageOf (f : Quality -> Z) (l : list RepAnalysis) : Q :=
  fold_left (fun sum r => sum + inject_Z (f (quality r))) l 0
  / inject_Z (Z.of_nat (List.length l)).

(** The fatigue test on three repetitions or more: the smoothness of the
    last third against 85% of the smoothness of the first third. *)
Definition fatigued (repAnalyses : list RepAnalysis) : bool :=
  let n := List.length repAnalyses in
  if (3 <=? n)%nat then
    let lastThird := skipn (n * 2 / 3) repAnalyses in
    let firstThird := firstn (n / 3) repAnalyses in
    Qlt_bool (averageOf smoothness lastThird)
             (averageOf smoothness firstThird * 0.85)
  else false.

(** compareRepProgression(repAnalyses); [None] is [null]. *)
Definition compareRepProgression (repAnalyses : list RepAnalysis)
  : option Consistency :=
  if (List.length repAnalyses <? 2)%nat then None
  else
    let avgSmoothness := averageOf smoothness repAnalyses in
    let avgSymmetry := averageOf symmetry repAnalyses in
    let avgTempo := averageOf controlledTempo repAnalyses in
    let fatigue := fatigued repAnalyses in
    Some (mkConsistency
            (List.length repAnalyses)
            (round ((avgSmoothness + avgSymmetry + avgTempo) / 3))
            fatigue
            []
            (if fatigue
             then ["Form degradation detected - you may be fatiguing. Consider rest or reducing volume."%string]
             else [])).

(** The consistency report of analyzeVideo:
    [analyses.length > 1 ? compareRepProgression(analyses) : null]. *)
Definition repConsistency (repProgressionAnalyses : list RepAnalysis)
  : option Consistency :=
  if (1 <? List.length repProgressionAnalyses)%nat
  then compareRepProgression repProgressionAnalyses
  else None.

End RepComparison.

(** ** Adaptive analysis (AdaptiveAnalysisService): which landmarks are
       visible, which analysis mode they allow, and the confidence that
       scales the score *)

Module Adaptive.

Import Js Data.
Local Open Scope Q_scope.

(** An analysis mode of [landmarkRequirements]:
    [{ required, description, checks }]. *)
Record Requirement : Type := mkRequirement {
  required : list nat;
  checks : list string
}.

Definition landmarkRequirements : list (string * list (string * Requirement)) :=
  [ ("squat",
     [ ("full",
        mkRequirement [11; 12; 23; 24; 25; 26; 27; 28]
          ["depth"; "knee_valgus"; "forward_lean"; "heel_lift"; "asymmetry"]);
       ("partial_front",
        mkRequirement [23; 24; 25; 26; 27; 28]
          ["depth"; "knee_valgus"; "heel_lift"]);
       ("side_left", mkRequirement [11; 23; 25; 27] ["depth"; "forward_lean"]);
       ("side_right", mkRequirement [12; 24; 26; 28] ["depth"; "forward_lean"]) ]);
    ("deadlift",
     [ ("full",
        mkRequirement [11; 12; 23; 24; 25; 26]
          ["back_angle"; "hip_position"; "knee_position"]);
       ("side_left", mkRequirement [11; 23; 25] ["back_angle"; "hip_position"]);
       ("side_right", mkRequirement [12; 24; 26] ["back_angle"; "hip_position"]) ]);
    ("overhead_press",
     [ ("full",
        mkRequirement [11; 12; 13; 14; 15; 16; 23; 24]
          ["lockout"; "back_arch"; "bar_path"; "asymmetry"]);
       ("front_upper",
        mkRequirement [11; 12; 13; 14; 15; 16] ["lockout"; "asymmetry"]);
       ("side", mkRequirement [11; 13; 15; 23] ["back_arch"; "bar_path"]) ])
  ]%string%nat.

(** An entry of [landmarkVisibility]: [{ visibleCount, totalCount }]. *)
Record Visibility : Type := mkVisibility {
  visibleCount : nat;
  totalCount : nat
}.

(** Whether a landmark counts as visible: its visibility reaches the
    threshold, or it has no visibility property at all. *)
Definition countsVisible (visibilityThreshold : Q) (landmark : option Landmark)
  : bool :=
  match landmark with
  | Some l =>
      match visibility l with
      | Some v => Qle_bool visibilityThreshold v
      | None => true
      end
  | None => false
  end.

(** [landmarkArray.forEach((landmark, index) => ...)]: the entry of
    every index of the array is created when missing and counted. *)
Fixpoint recordLandmarks (visibilityThreshold : Q) (stats : list Visibility)
         (landmarkArray : list (option Landmark)) : list Visibility :=
  match landmarkArray with
  | [] => stats
  | landmark :: others =>
      let seen := if countsVisible visibilityThreshold landmark
                  then 1%nat else 0%nat in
      match stats with
      | [] =>
          mkVisibility seen 1
          :: recordLandmarks visibilityThreshold [] others
      | s :: rest =>
          mkVisibility (visibleCount s + seen) (totalCount s + 1)
          :: recordLandmarks visibilityThreshold rest others
      end
  end.

(** The table [landmarkVisibility] after all frames; entry [i] is the
    one of landmark index [i].  A frame without landmarks is skipped. *)
Definition landmarkVisibility (frames : list AnalyzedFrame)
           (visibilityThreshold : Q) : list Visibility :=
  fold_left (fun stats frame =>
               match landmarks frame with
               | Some landmarkArray =>
                   recordLandmarks visibilityThreshold stats landmarkArray
               | None => stats
               end)
            frames [].

(** [stats.visibleCount / stats.totalCount >= consistencyThreshold] *)
Definition consistentlyVisible (consistencyThreshold : Q) (stats : Visibility)
  : bool :=
  (0 <? totalCount stats)%nat
  && Qle_bool consistencyThreshold
              (inject_Z (Z.of_nat (visibleCount stats))
               / inject_Z (Z.of_nat (totalCount stats))).

(** [{ available, visibilityStats, totalFrames }] *)
Record LandmarkAnalysis : Type := mkLandmarkAnalysis {
  available : list nat;
  visibilityStats : list Visibility;
  totalFrames : nat
}.

(** detectAvailableLandmarks(frames, visibilityThreshold,
    consistencyThreshold); the keys of the table are read in ascending
    order. *)
Definition detectAvailableLandmarks (frames : list AnalyzedFrame)
           (visibilityThreshold consistencyThreshold : Q) : LandmarkAnalysis :=
  let stats := landmarkVisibility frames visibilityThreshold in
  mkLandmarkAnalysis
    (flat_map (fun entry : nat * Visibility =>
                 if consistentlyVisible consistencyThreshold (snd entry)
                 then [fst entry] else [])
              (combine (seq 0 (List.length stats)) stats))
    stats
    (List.length frames).

(** The object returned by determineAnalysisMode; [allChecks] is absent
    from the two fallback objects. *)
Record AnalysisMode : Type := mkAnalysisMode {
  mode : string;
  confidence : Q;
  missingLandmarks : list nat;
  availableChecks : list string;
  allChecks : option (list string)
}.

(** [availableLandmarks.includes(lm)] *)
Definition includesIndex (l : list nat) (n : nat) : bool :=
  existsb (Nat.eqb n) l.

(** The share of a mode's required landmarks that are available. *)
Definition modeScore (availableLandmarks : list nat) (config : Requirement)
  : Q :=
  inject_Z (Z.of_nat (List.length (filter (includesIndex availableLandmarks)
                                          (required config))))
  / inject_Z (Z.of_nat (List.length (required config))).

(** The body of [Object.entries(requirements).forEach]: a mode replaces
    the best one so far when its score is strictly higher. *)
Definition considerMode (requirements : list (string * Requirement))
           (availableLandmarks : list nat)
           (best : option AnalysisMode * Q) (entry : string * Requirement)
  : option AnalysisMode * Q :=
  let config := snd entry in
  let score := modeScore availableLandmarks config in
  if Qlt_bool (snd best) score
  then (Some (mkAnalysisMode
                (fst entry) score
                (filter (fun lm => negb (includesIndex availableLandmarks lm))
                        (required config))
                (checks config)
                (Some (match ownProp requirements "full" with
                       | Some full => checks full
                       | None => checks config
                       end))),
        score)
  else best.

(** determineAnalysisMode(exerciseId, availableLandmarks).  A value
    inherited from [Object.prototype] has no modes and no [full], so
    that [requirements.full.required] raises a TypeError. *)
Definition determineAnalysisMode (exerciseId : string)
           (availableLandmarks : list nat) : result AnalysisMode :=
  match getProp landmarkRequirements exerciseId with
  | Absent => Ok (mkAnalysisMode "unknown" 0 [] [] None)
  | Inherited => Throw "TypeError: requirements.full is undefined"
  | Own requirements =>
      match fst (fold_left (considerMode requirements availableLandmarks)
                           requirements (None, 0)) with
      | Some bestMode => Ok bestMode
      | None =>
          match ownProp requirements "full" with
          | Some full =>
              Ok (mkAnalysisMode "insufficient" 0 (required full) [] None)
          | None => Throw "TypeError: requirements.full is undefined"
          end
      end
  end.

(** The report of generateAdaptiveReport, reduced to the analysis mode,
    the landmarks and the checks; the camera guidance and the
    recommendations, which are computed without raising once the analysis
    mode is known, are left out. *)
Record AdaptiveReport : Type := mkAdaptiveReport {
  analysisMode : string;
  reportConfidence : Q;
  completenessScore : Q;
  availableLandmarks : list nat;
  missing : list nat;
  availableChecksOf : list string;
  unavailableChecks : list string
}.

(** generateAdaptiveReport(exerciseId, frames, analysisResults) *)
Definition generateAdaptiveReport (exerciseId : string)
           (frames : list AnalyzedFrame) : result AdaptiveReport :=
  match frames with
  | [] => Ok (mkAdaptiveReport "insufficient" 0 0 [] [] [] [])
  | _ =>
      let landmarkAnalysis := detectAvailableLandmarks frames 0.5 0.7 in
      bind (determineAnalysisMode exerciseId (available landmarkAnalysis))
           (fun analysisMode =>
              Ok (mkAdaptiveReport
                    (mode analysisMode)
                    (confidence analysisMode)
                    (confidence analysisMode * 100)
                    (available landmarkAnalysis)
                    (missingLandmarks analysisMode)
                    (availableChecks analysisMode)
                    (match allChecks analysisMode with
                     | Some all =>
                         filter (fun c =>
                                   negb (existsb (String.eqb c)
                                                 (availableChecks analysisMode)))
                                all
                     | None => []
                     end)))
  end.

(** The adaptive report and the scoring of analyzeVideo in sequence:
    the confidence of the report is the completeness multiplier of the
    score. *)
Definition scoreWithConfidence (exerciseId : string)
           (validFrameResults : list AnalyzedFrame)
  : result (AdaptiveReport * (list Aggregation.SignificantError * Z * Z)) :=
  bind (generateAdaptiveReport exerciseId validFrameResults)
       (fun adaptiveReport =>
          bind (Aggregation.scoreVideo validFrameResults
                                       (reportConfidence adaptiveReport))
               (fun scored => Ok (adaptiveReport, scored))).

(** The best mode so far carries its score as confidence, a share in
    (0, 1]; without a mode the best score is 0. *)
Definition bestSoFar (best : option AnalysisMode * Q) : Prop :=
  match fst best with
  | None => snd best = 0
  | Some m => confidence m = snd best /\ 0 < snd best /\ snd best <= 1
  end.

(** The largest share of required landmarks that are available, over
    the modes of an exercise. *)
Definition bestShare (requirements : list (string * Requirement))
           (availableLandmarks : list nat) : Q :=
  fold_left Qmax
            (map (fun entry => modeScore availableLandmarks (snd entry))
                 requirements)
            0.

(** The number of frames whose landmark array holds index [i]. *)
Definition framesWith (i : nat) (frames : list AnalyzedFrame) : nat :=
  List.length
    (filter (fun f => match landmarks f with
                      | Some landmarkArray => (i <? List.length landmarkArray)%nat
                      | None => false
                      end) frames).

(** The number of frames in which landmark [i] counts as visible. *)
Definition framesShowing (visibilityThreshold : Q) (i : nat)
           (frames : list AnalyzedFrame) : nat :=
  List.length
    (filter (fun f => match landmarks f with
                      | Some landmarkArray =>
                          countsVisible visibilityThreshold
                                        (nth i landmarkArray None)
                      | None => false
                      end) frames).

End Adaptive.

(** ** Per-frame analysis: feature extractors, validation rules and the
       frame pipeline (src/services/poseAnalysis.js,
       src/config/exercises.js, workers/frameAnalysisWorker)

    A landmark of a detected pose has finite coordinates; a landmark
    that is missing or unusable is absent ([None]).  The depth [z] and
    the [visibility] of a landmark may be undefined. *)

Module Pose.

Import Js.
Local Open Scope Q_scope.

Record Landmark : Type := mkLandmark {
  x : Q;
  y : Q;
  z : option Q;
  visibility : option Q
}.

(** The array [poseLandmarks] of a detected pose. *)
Definition PoseLandmarks : Type := list (option Landmark).

(** [landmarks[i]] *)
Definition landmarkAt (landmarks : PoseLandmarks) (i : nat) : option Landmark :=
  match nth_error landmarks i with
  | Some (Some l) => Some l
  | _ => None
  end.

(** isUsableLandmark(landmark): the landmark is present, its
    coordinates being finite. *)
Definition isUsableLandmark (landmark : option Landmark) : bool :=
  match landmark with
  | Some _ => true
  | None => false
  end.

(** [landmark.z || 0] *)
Definition depth (l : Landmark) : Q :=
  match z l with
  | Some v => v
  | None => 0
  end.

(** [typeof lm?.visibility === 'number' ? lm.visibility : 1] *)
Definition visibilityOrOne (l : Landmark) : Q :=
  match visibility l with
  | Some v => v
  | None => 1
  end.

(** The virtual mid-back landmark: [{ x, y, z, visibility }]. *)
Record MidBack : Type := mkMidBack {
  midX : Q;
  midY : Q;
  midZ : Q;
  midVisibility : Q
}.

(** calculateMidBack(landmarks) *)
Definition calculateMidBack (landmarks : PoseLandmarks) : option MidBack :=
  match landmarkAt landmarks 11, landmarkAt landmarks 12,
        landmarkAt landmarks 23, landmarkAt landmarks 24 with
  | Some leftShoulder, Some rightShoulder, Some leftHip, Some rightHip =>
      let midShoulderX := (x leftShoulder + x rightShoulder) / 2 in
      let midShoulderY := (y leftShoulder + y rightShoulder) / 2 in
      let midShoulderZ := (depth leftShoulder + depth rightShoulder) / 2 in
      let midHipX := (x leftHip + x rightHip) / 2 in
      let midHipY := (y leftHip + y rightHip) / 2 in
      let midHipZ := (depth leftHip + depth rightHip) / 2 in
      Some (mkMidBack
              (midHipX + (midShoulderX - midHipX) * 0.4)
              (midHipY + (midShoulderY - midHipY) * 0.4)
              (midHipZ + (midShoulderZ - midHipZ) * 0.4)
              (Qmin (Qmin (Qmin (visibilityOrOne leftShoulder)
                                (visibilityOrOne rightShoulder))
                          (visibilityOrOne leftHip))
                    (visibilityOrOne rightHip)))
  | _, _, _, _ => None
  end.

(** [{ midBack, zDeviation, xDeviation, isRounded }] *)
Record BackRounding : Type := mkBackRounding {
  roundingMidBack : MidBack;
  zDeviation : Q;
  xDeviation : Q;
  isRounded : bool
}.

(** calculateBackRounding(landmarks) *)
Definition calculateBackRounding (landmarks : PoseLandmarks)
  : option BackRounding :=
  match landmarkAt landmarks 11, landmarkAt landmarks 12,
        landmarkAt landmarks 23, landmarkAt landmarks 24 with
  | Some leftShoulder, Some rightShoulder, Some leftHip, Some rightHip =>
      match calculateMidBack landmarks with
      | None => None
      | Some midBack =>
          let midShoulderX := (x leftShoulder + x rightShoulder) / 2 in
          let midHipX := (x leftHip + x rightHip) / 2 in
          let expectedMidBackX := midHipX + (midShoulderX - midHipX) * 0.4 in
          let zDeviation' :=
            midZ midBack - (depth leftShoulder + depth leftHip) / 2 in
          let xDeviation' := midX midBack - expectedMidBackX in
          Some (mkBackRounding
                  midBack zDeviation' xDeviation'
                  (Qlt_bool 0.14 zDeviation'
                   || Qlt_bool 0.16 (Qabs xDeviation')))
      end
  | _, _, _, _ => None
  end.

(** [{ shoulderHipKneeAngle, hipKneeHorizontalOffset, hipsTooFarBack }] *)
Record HipPosition : Type := mkHipPosition {
  shoulderHipKneeAngle : Q;
  hipKneeHorizontalOffset : Q;
  hipsTooFarBack : bool
}.

(** The feature object of a frame.  A numeric feature is [Missing] when
    the extractor of the exercise does not produce it, [Null] when it
    could not be computed; an object-valued feature is [None] in both
    cases. *)
Record Features : Type := mkFeatures {
  kneeAngle : Data.Feature;
  leftKneeAngle : Data.Feature;
  rightKneeAngle : Data.Feature;
  hipAngle : Data.Feature;
  asymmetry : Data.Feature;
  backAngle : Data.Feature;
  elbowAngle : Data.Feature;
  leftElbowAngle : Data.Feature;
  rightElbowAngle : Data.Feature;
  bodyAngle : Data.Feature;
  backRounding : option BackRounding;
  midBack : option MidBack;
  hipPosition : option HipPosition
}.

(** The empty object [{}]. *)
Definition noFeatures : Features :=
  mkFeatures Data.Missing Data.Missing Data.Missing Data.Missing Data.Missing
             Data.Missing Data.Missing Data.Missing Data.Missing Data.Missing
             None None None.

(** Whether a numeric feature is truthy: a number other than 0. *)
Definition truthy (f : Data.Feature) : bool :=
  match f with
  | Data.Number q => negb (Qeq_bool q 0)
  | _ => false
  end.

(** [feature < c] and [feature > c]: [null] compares as 0, and a
    comparison with [undefined] is false. *)
Definition below (f : Data.Feature) (c : Q) : bool :=
  match f with
  | Data.Number q => Qlt_bool q c
  | Data.Null => Qlt_bool 0 c
  | Data.Missing => false
  end.

Definition above (f : Data.Feature) (c : Q) : bool :=
  match f with
  | Data.Number q => Qlt_bool c q
  | Data.Null => Qlt_bool c 0
  | Data.Missing => false
  end.

Section Extractors.

(** The angle at the middle one of three landmarks, in degrees, as the
    kernel computes it with Math.atan2 (see [Geometry.calculateAngle]). *)
Variable angle : Landmark -> Landmark -> Landmark -> Q.

(** calculateAngle(a, b, c) *)
Definition calculateAngle (a b c : option Landmark) : Q :=
  match a, b, c with
  | Some a', Some b', Some c' => angle a' b' c'
  | _, _, _ => 0
  end.

(** The angle of three landmarks when all three are usable, [null]
    otherwise. *)
Definition angleWhenUsable (a b c : option Landmark) : Data.Feature :=
  if isUsableLandmark a && isUsableLandmark b && isUsableLandmark c
  then Data.Number (calculateAngle a b c)
  else Data.Null.

(** The mean of the left and the right angle when both are truthy. *)
Definition bothSides (leftAngle rightAngle : Data.Feature) : Data.Feature :=
  match leftAngle, rightAngle with
  | Data.Number l, Data.Number r =>
      if truthy leftAngle && truthy rightAngle then Data.Number ((l + r) / 2)
      else Data.Null
  | _, _ => Data.Null
  end.

(** The absolute difference of the left and the right angle when both
    are truthy. *)
Definition sidesApart (leftAngle rightAngle : Data.Feature) : Data.Feature :=
  match leftAngle, rightAngle with
  | Data.Number l, Data.Number r =>
      if truthy leftAngle && truthy rightAngle then Data.Number (Qabs (l - r))
      else Data.Null
  | _, _ => Data.Null
  end.

(** calculateHipPosition(landmarks) *)
Definition calculateHipPosition (landmarks : PoseLandmarks)
  : option HipPosition :=
  match landmarkAt landmarks 11, landmarkAt landmarks 23,
        landmarkAt landmarks 25 with
  | Some leftShoulder, Some leftHip, Some leftKnee =>
      let shoulderHipKneeAngle' :=
        calculateAngle (Some leftShoulder) (Some leftHip) (Some leftKnee) in
      let hipKneeHorizontalOffset' := x leftHip - x leftKnee in
      Some (mkHipPosition
              shoulderHipKneeAngle' hipKneeHorizontalOffset'
              (Qlt_bool shoulderHipKneeAngle' 75
               || Qlt_bool 0.12 hipKneeHorizontalOffset'))
  | _, _, _ => None
  end.

(** The mid-back features, computed when both shoulders and both hips
    are usable. *)
Definition roundingWhenUsable (landmarks : PoseLandmarks)
  : option BackRounding * option MidBack :=
  if isUsableLandmark (landmarkAt landmarks 11)
     && isUsableLandmark (landmarkAt landmarks 12)
     && isUsableLandmark (landmarkAt landmarks 23)
     && isUsableLandmark (landmarkAt landmarks 24)
  then (calculateBackRounding landmarks, calculateMidBack landmarks)
  else (None, None).

(** analyzeSquat(landmarks) *)
Definition analyzeSquat (landmarks : PoseLandmarks) : Features :=
  let leftHip := landmarkAt landmarks 23 in
  let rightHip := landmarkAt landmarks 24 in
  let leftKnee := landmarkAt landmarks 25 in
  let rightKnee := landmarkAt landmarks 26 in
  let leftAnkle := landmarkAt landmarks 27 in
  let rightAnkle := landmarkAt landmarks 28 in
  let leftShoulder := landmarkAt landmarks 11 in
  let leftKneeAngle' := angleWhenUsable leftHip leftKnee leftAnkle in
  let rightKneeAngle' := angleWhenUsable rightHip rightKnee rightAnkle in
  mkFeatures
    (bothSides leftKneeAngle' rightKneeAngle')
    leftKneeAngle' rightKneeAngle'
    (angleWhenUsable leftShoulder leftHip leftKnee)
    (sidesApart leftKneeAngle' rightKneeAngle')
    Data.Missing Data.Missing Data.Missing Data.Missing Data.Missing
    (fst (roundingWhenUsable landmarks))
    (snd (roundingWhenUsable landmarks))
    (if isUsableLandmark leftHip && isUsableLandmark rightHip
     then calculateHipPosition landmarks else None).

(** analyzeDeadlift(landmarks) *)
Definition analyzeDeadlift (landmarks : PoseLandmarks) : Features :=
  mkFeatures
    Data.Missing Data.Missing Data.Missing Data.Missing Data.Missing
    (angleWhenUsable (landmarkAt landmarks 11) (landmarkAt landmarks 23)
                     (landmarkAt landmarks 25))
    Data.Missing Data.Missing Data.Missing Data.Missing
    (fst (roundingWhenUsable landmarks))
    (snd (roundingWhenUsable landmarks))
    None.

(** The angle between the trunk and the vertical through the left hip:
    [calculateAngle(leftShoulder, leftHip,
                    { x: leftHip.x, y: leftHip.y + 1 })]. *)
Definition bodyAngleOf (leftShoulder leftHip : option Landmark)
  : Data.Feature :=
  match leftShoulder, leftHip with
  | Some _, Some hip =>
      Data.Number (calculateAngle leftShoulder leftHip
                                  (Some (mkLandmark (x hip) (y hip + 1)
                                                    None None)))
  | _, _ => Data.Null
  end.

(** analyzeOverheadPress(landmarks) *)
Definition analyzeOverheadPress (landmarks : PoseLandmarks) : Features :=
  let leftShoulder := landmarkAt landmarks 11 in
  let leftElbow := landmarkAt landmarks 13 in
  let leftWrist := landmarkAt landmarks 15 in
  let rightShoulder := landmarkAt landmarks 12 in
  let rightElbow := landmarkAt landmarks 14 in
  let rightWrist := landmarkAt landmarks 16 in
  let leftHip := landmarkAt landmarks 23 in
  let leftElbowAngle' := angleWhenUsable leftShoulder leftElbow leftWrist in
  let rightElbowAngle' := angleWhenUsable rightShoulder rightElbow rightWrist in
  mkFeatures
    Data.Missing Data.Missing Data.Missing Data.Missing Data.Missing
    Data.Missing
    (bothSides leftElbowAngle' rightElbowAngle')
    leftElbowAngle' rightElbowAngle'
    (bodyAngleOf leftShoulder leftHip)
    (fst (roundingWhenUsable landmarks))
    (snd (roundingWhenUsable landmarks))
    None.

(** analyzeBenchPress(landmarks) *)
Definition analyzeBenchPress (landmarks : PoseLandmarks) : Features :=
  let leftElbowAngle' :=
    angleWhenUsable (landmarkAt landmarks 11) (landmarkAt landmarks 13)
                    (landmarkAt landmarks 15) in
  let rightElbowAngle' :=
    angleWhenUsable (landmarkAt landmarks 12) (landmarkAt landmarks 14)
                    (landmarkAt landmarks 16) in
  mkFeatures
    Data.Missing Data.Missing Data.Missing Data.Missing Data.Missing
    Data.Missing
    (bothSides leftElbowAngle' rightElbowAngle')
    leftElbowAngle' rightElbowAngle'
    Data.Missing None None None.

(** analyzePullUp(landmarks) *)
Definition analyzePullUp (landmarks : PoseLandmarks) : Features :=
  mkFeatures
    Data.Missing Data.Missing Data.Missing Data.Missing Data.Missing
    Data.Missing
    (angleWhenUsable (landmarkAt landmarks 11) (landmarkAt landmarks 13)
                     (landmarkAt landmarks 15))
    Data.Missing Data.Missing
    (bodyAngleOf (landmarkAt landmarks 11) (landmarkAt landmarks 23))
    None None None.

End Extractors.

(** The object [landmarksWithNames] that the frame pipeline hands to
    the validation rules. *)
Record NamedLandmarks : Type := mkNamedLandmarks {
  leftShoulder : option Landmark;
  rightShoulder : option Landmark;
  leftHip : option Landmark;
  rightHip : option Landmark;
  leftKnee : option Landmark;
  rightKnee : option Landmark;
  leftAnkle : option Landmark;
  rightAnkle : option Landmark;
  leftElbow : option Landmark;
  rightElbow : option Landmark;
  leftWrist : option Landmark;
  rightWrist : option Landmark
}.

Definition landmarksWithNames (poseLandmarks : PoseLandmarks) : NamedLandmarks :=
  mkNamedLandmarks
    (landmarkAt poseLandmarks 11) (landmarkAt poseLandmarks 12)
    (landmarkAt poseLandmarks 23) (landmarkAt poseLandmarks 24)
    (landmarkAt poseLandmarks 25) (landmarkAt poseLandmarks 26)
    (landmarkAt poseLandmarks 27) (landmarkAt poseLandmarks 28)
    (landmarkAt poseLandmarks 13) (landmarkAt poseLandmarks 14)
    (landmarkAt poseLandmarks 15) (landmarkAt poseLandmarks 16).

(** Reading a coordinate of a named landmark raises a TypeError when
    the landmark is undefined. *)
Definition read (landmark : option Landmark) : result Landmark :=
  match landmark with
  | Some l => Ok l
  | None => Throw "TypeError: landmark is undefined"
  end.

Notation "'let*' l ':=' m 'in' k" :=
  (bind m (fun l => k))
    (at level 10, l name, m at level 100, k at level 200).

(** [(a.c + b.c) / 2] for a coordinate [c] of two named landmarks. *)
Definition midpoint (coordinate : Landmark -> Q) (a b : option Landmark)
  : result Q :=
  let* a' := read a in
  let* b' := read b in
  Ok ((coordinate a' + coordinate b') / 2).

(** [Math.abs(a.c - b.c)] *)
Definition spread (coordinate : Landmark -> Q) (a b : option Landmark)
  : result Q :=
  let* a' := read a in
  let* b' := read b in
  Ok (Qabs (coordinate a' - coordinate b')).

(** The rule on the mid-back shared by three exercises:
    [if (!angles.backRounding) return false;
     return angles.backRounding.isRounded;] *)
Definition backIsRounded (angles : Features) : bool :=
  match backRounding angles with
  | Some r => isRounded r
  | None => false
  end.

(** The [validate] function of every rule of the catalog, by rule id;
    the result is the truth value of what the function returns. *)
Definition predicate (ruleId : string) (landmarks : NamedLandmarks)
           (angles : Features) : result bool :=
  (* squat *)
  if String.eqb ruleId "knee_valgus" then
    let* kneeWidth := spread x (leftKnee landmarks) (rightKnee landmarks) in
    let* ankleWidth := spread x (leftAnkle landmarks) (rightAnkle landmarks) in
    Ok (Qlt_bool kneeWidth (ankleWidth * 0.85))
  else if String.eqb ruleId "shallow_depth" then
    Ok (above (kneeAngle angles) 100)
  else if String.eqb ruleId "excessive_lean" then
    Ok (below (hipAngle angles) 70)
  else if String.eqb ruleId "heel_lift" then
    let* ankleY := midpoint y (leftAnkle landmarks) (rightAnkle landmarks) in
    let* kneeY := midpoint y (leftKnee landmarks) (rightKnee landmarks) in
    Ok (Qlt_bool ankleY (kneeY - 0.15))
  else if String.eqb ruleId "knee_forward_travel" then
    let* kneeX := midpoint x (leftKnee landmarks) (rightKnee landmarks) in
    let* ankleX := midpoint x (leftAnkle landmarks) (rightAnkle landmarks) in
    Ok (Qlt_bool 0.15 (Qabs (kneeX - ankleX)))
  else if String.eqb ruleId "asymmetric_descent" then
    let* difference := spread y (leftKnee landmarks) (rightKnee landmarks) in
    Ok (Qlt_bool 0.08 difference)
  else if String.eqb ruleId "back_rounding_squat" then
    Ok (backIsRounded angles)
  else if String.eqb ruleId "hips_too_far_back" then
    Ok (match hipPosition angles with
        | Some p => hipsTooFarBack p
        | None => false
        end)
  (* deadlift *)
  else if String.eqb ruleId "rounded_back" then
    Ok (below (backAngle angles) 150)
  else if String.eqb ruleId "mid_back_rounding" then
    Ok (backIsRounded angles)
  else if String.eqb ruleId "hips_too_low" then
    let* shoulderHipDist :=
      spread y (leftShoulder landmarks) (leftHip landmarks) in
    let* hipKneeDist := spread y (leftHip landmarks) (leftKnee landmarks) in
    Ok (Qlt_bool shoulderHipDist (hipKneeDist * 0.7))
  else if String.eqb ruleId "hips_rising_first" then
    if below (backAngle angles) 140 then
      let* hip := read (leftHip landmarks) in
      let* shoulder := read (leftShoulder landmarks) in
      Ok (Qlt_bool (y hip) (y shoulder))
    else Ok false
  else if String.eqb ruleId "hyperextension" then
    Ok (above (backAngle angles) 185)
  else if String.eqb ruleId "shoulders_behind_bar" then
    let* shoulderX :=
      midpoint x (leftShoulder landmarks) (rightShoulder landmarks) in
    let* hipX := midpoint x (leftHip landmarks) (rightHip landmarks) in
    Ok (Qlt_bool (hipX + 0.1) shoulderX)
  (* overhead press *)
  else if String.eqb ruleId "back_arch" then
    Ok (below (bodyAngle angles) 165)
  else if String.eqb ruleId "mid_back_rounding_press" then
    Ok (backIsRounded angles)
  else if String.eqb ruleId "incomplete_lockout" then
    Ok (below (elbowAngle angles) 165)
  else if String.eqb ruleId "elbow_flare_press" then
    let* elbowWidth := spread x (leftElbow landmarks) (rightElbow landmarks) in
    let* shoulderWidth :=
      spread x (leftShoulder landmarks) (rightShoulder landmarks) in
    Ok (Qlt_bool (shoulderWidth * 1.3) elbowWidth)
  else if String.eqb ruleId "forward_press_path" then
    let* wristX := midpoint x (leftWrist landmarks) (rightWrist landmarks) in
    let* shoulderX :=
      midpoint x (leftShoulder landmarks) (rightShoulder landmarks) in
    Ok (Qlt_bool (shoulderX + 0.12) wristX)
  else if String.eqb ruleId "using_leg_drive" then
    let* hipY := midpoint y (leftHip landmarks) (rightHip landmarks) in
    Ok (match leftKnee landmarks, rightKnee landmarks with
        | Some knee, Some otherKnee =>
            let kneeY := (y knee + y otherKnee) / 2 in
            negb (Qeq_bool kneeY 0) && Qlt_bool 0.2 (Qabs (kneeY - hipY))
        | _, _ => false
        end)
  (* bench press *)
  else if String.eqb ruleId "elbow_flare" then
    let* elbowWidth := spread x (leftElbow landmarks) (rightElbow landmarks) in
    let* shoulderWidth :=
      spread x (leftShoulder landmarks) (rightShoulder landmarks) in
    Ok (Qlt_bool (shoulderWidth * 1.4) elbowWidth)
  else if String.eqb ruleId "bar_bounce" then
    Ok (below (elbowAngle angles) 60)
  else if String.eqb ruleId "uneven_press" then
    let* difference := spread y (leftElbow landmarks) (rightElbow landmarks) in
    Ok (Qlt_bool 0.08 difference)
  else if String.eqb ruleId "wrist_extension" then
    let* wristX := midpoint x (leftWrist landmarks) (rightWrist landmarks) in
    let* elbowX := midpoint x (leftElbow landmarks) (rightElbow landmarks) in
    Ok (Qlt_bool 0.1 (Qabs (wristX - elbowX)))
  else if String.eqb ruleId "incomplete_lockout_bench" then
    Ok (below (elbowAngle angles) 160 && above (elbowAngle angles) 120)
  (* pull-up *)
  else if String.eqb ruleId "partial_rep" then
    Ok (above (elbowAngle angles) 140 && below (elbowAngle angles) 170)
  else if String.eqb ruleId "shoulder_shrug" then
    let* shoulderY :=
      midpoint y (leftShoulder landmarks) (rightShoulder landmarks) in
    let* hipY := midpoint y (leftHip landmarks) (rightHip landmarks) in
    Ok (Qlt_bool 0.4 (hipY - shoulderY))
  else if String.eqb ruleId "excessive_kip" then
    let* hipX := midpoint x (leftHip landmarks) (rightHip landmarks) in
    let* shoulderX :=
      midpoint x (leftShoulder landmarks) (rightShoulder landmarks) in
    Ok (Qlt_bool 0.15 (Qabs (hipX - shoulderX)))
  else if String.eqb ruleId "elbows_forward" then
    let* elbowX := midpoint x (leftElbow landmarks) (rightElbow landmarks) in
    let* shoulderX :=
      midpoint x (leftShoulder landmarks) (rightShoulder landmarks) in
    Ok (Qlt_bool (shoulderX + 0.1) elbowX)
  else if String.eqb ruleId "chin_not_over" then
    Ok (above (elbowAngle angles) 90 && below (elbowAngle angles) 120)
  else Ok false.

Section FramePipeline.

Variable angle : Landmark -> Landmark -> Landmark -> Q.

(** analyzeExercise(exerciseId, landmarks) on the extractors above. *)
Definition analyzeExercise (exerciseId : string) (landmarks : PoseLandmarks)
  : result (Validation.AnalysisValue Features) :=
  Validation.analyzeExercise
    (fun l => Ok (analyzeSquat angle l))
    (fun l => Ok (analyzeDeadlift angle l))
    (fun l => Ok (analyzeOverheadPress angle l))
    (fun l => Ok (analyzeBenchPress angle l))
    (fun l => Ok (analyzePullUp angle l))
    exerciseId landmarks.

(** What the frame pipeline keeps of a frame:
    [{ landmarks, errors, analysis }]. *)
Record FrameAnalysis : Type := mkFrameAnalysis {
  poseLandmarks : option PoseLandmarks;
  frameErrors : list Data.Issue;
  analysis : Features
}.

(** The features read from what analyzeExercise returned. *)
Definition featuresOf (value : Validation.AnalysisValue Features) : Features :=
  match value with
  | Validation.FeatureSet f => f
  | _ => noFeatures
  end.

(** The body of the loop of the frame worker on the pose that the
    detector returned for a frame: features, named landmarks,
    validation.  An exception leaves the frame without landmarks, errors
    and features.  (analyzeFramesFallback runs the same steps, handing
    validateForm the catalog entry of the exercise instead of its id.) *)
Definition analyzePose (exerciseId : string) (detected : option PoseLandmarks)
  : FrameAnalysis :=
  match detected with
  | None => mkFrameAnalysis None [] noFeatures
  | Some landmarks =>
      match analyzeExercise exerciseId landmarks with
      | Throw _ => mkFrameAnalysis None [] noFeatures
      | Ok value =>
          mkFrameAnalysis
            (Some landmarks)
            (Validation.validateForm predicate (Validation.ById _ _ exerciseId)
                                     (landmarksWithNames landmarks)
                                     (featuresOf value))
            (featuresOf value)
      end
  end.

(** The landmark as the later stages read it. *)
Definition plain (l : Landmark) : Data.Landmark :=
  Data.mkLandmark (x l) (y l) (visibility l).

(** The element of [frameResults] that analyzeVideo builds from a
    result: [{ time, frameIndex, errors, landmarks, dataUrl,
               ...analysis }]. *)
Definition frameResult (time : Q) (originalIndex : nat) (a : FrameAnalysis)
  : Data.AnalyzedFrame :=
  Data.mkAnalyzedFrame
    time originalIndex (frameErrors a)
    (option_map (map (option_map plain)) (poseLandmarks a))
    (kneeAngle (analysis a)) (hipAngle (analysis a)) (backAngle (analysis a))
    (elbowAngle (analysis a)) (asymmetry (analysis a)).

End FramePipeline.

(** The exercise a rule id of the catalog belongs to. *)
Definition ownerOf (ruleId : string) : option string :=
  option_map fst
    (find (fun entry : string * list (string * Data.Severity) =>
             existsb (fun rule => String.eqb (fst rule) ruleId) (snd entry))
          Validation.ruleTable).

(** A stand-in for the angle function where its value is irrelevant. *)
Definition straight (a b c : Landmark) : Q := 180.

(** A pose of 33 visible landmarks, one below the other, whose right
    side is half a unit deeper than its left side. *)
Definition leaning : PoseLandmarks :=
  map (fun k => Some (mkLandmark 0.5 (inject_Z (Z.of_nat k) / 33)
                                 (Some (if Nat.even k then 0.5 else 0))
                                 (Some 1)))
      (seq 0 33).

(** The pose [leaning] without its left knee. *)
Definition kneeHidden : PoseLandmarks :=
  map (fun k => if (k =? 25)%nat then None else nth k leaning None) (seq 0 33).

End Pose.

(** ** Sample frames of an issue (analyzeVideo, pages/RecordPage)

    For every issue analyzeVideo keeps the frames that raised it, groups
    them into runs of nearly consecutive frames, and samples up to three
    frames of the longest run. *)

Module Samples.

Import Js.
Local Open Scope Q_scope.

Section Sampling.

(** An element of [issueFrames[issueId]]:
    [{ frameIndex, dataUrl, landmarks, error }]. *)
Variable IssueFrame : Type.
Variable frameIndex : IssueFrame -> nat.

(** [if (currentSequence.length > 0) sequences.push(currentSequence)] *)
Definition pushSequence (sequences : list (list IssueFrame))
           (currentSequence : list IssueFrame) : list (list IssueFrame) :=
  match currentSequence with
  | [] => sequences
  | _ => sequences ++ [currentSequence]
  end.

(** [currFrame.frameIndex - prevFrame.frameIndex <= 2] *)
Definition continues (prevFrame currFrame : IssueFrame) : bool :=
  (Z.of_nat (frameIndex currFrame) - Z.of_nat (frameIndex prevFrame) <=? 2)%Z.

(** The loop over [frames[1..]] and the push that follows it;
    [prevFrame] is [frames[i - 1]]. *)
Fixpoint groupFrames (sequences : list (list IssueFrame))
         (currentSequence : list IssueFrame) (prevFrame : IssueFrame)
         (rest : list IssueFrame) : list (list IssueFrame) :=
  match rest with
  | [] => pushSequence sequences currentSequence
  | currFrame :: rest' =>
      if continues prevFrame currFrame
      then groupFrames sequences (currentSequence ++ [currFrame])
                       currFrame rest'
      else groupFrames (pushSequence sequences currentSequence) [currFrame]
                       currFrame rest'
  end.

(** The runs of a non-empty array of frames. *)
Definition sequencesOf (first : IssueFrame) (rest : list IssueFrame)
  : list (list IssueFrame) :=
  groupFrames [] [first] first rest.

(** [sequences.length > 0
       ? sequences.reduce((a, b) => a.length >= b.length ? a : b)
       : frames] *)
Definition selectSequence (sequences : list (list IssueFrame))
           (frames : list IssueFrame) : list IssueFrame :=
  match sequences with
  | [] => frames
  | s :: others =>
      fold_left (fun a b => if (List.length b <=? List.length a)%nat
                            then a else b)
                others s
  end.

(** [Math.floor((i / (sampleCount - 1 || 1)) * (selectedSequence.length - 1))] *)
Definition sampleIndex (sampleCount len i : nat) : Z :=
  let denominator :=
    if (Z.of_nat sampleCount - 1 =? 0)%Z then 1%Z
    else (Z.of_nat sampleCount - 1)%Z in
  Qfloor (inject_Z (Z.of_nat i) / inject_Z denominator
          * inject_Z (Z.of_nat len - 1)).

(** [selectedSequence[index]] *)
Definition elementAt (l : list IssueFrame) (index : Z) : option IssueFrame :=
  if (index <? 0)%Z then None else nth_error l (Z.to_nat index).

(** The array [sampledFrames]; an element is [undefined] ([None]) when
    the index is out of range. *)
Definition sampledFrames (selectedSequence : list IssueFrame)
  : list (option IssueFrame) :=
  let sampleCount := Nat.min 3 (List.length selectedSequence) in
  map (fun i => elementAt selectedSequence
                          (sampleIndex sampleCount
                                       (List.length selectedSequence) i))
      (seq 0 sampleCount).

(** [sampledFrames.map(f => ({ dataUrl: f.dataUrl, ... }))]: reading a
    property of [undefined] raises a TypeError. *)
Fixpoint readSamples (sampled : list (option IssueFrame))
  : result (list IssueFrame) :=
  match sampled with
  | [] => Ok []
  | Some f :: rest => bind (readSamples rest) (fun tail => Ok (f :: tail))
  | None :: _ => Throw "TypeError: f is undefined"
  end.

(** The value stored in [issueSamples[issueId]] for the frames of an
    issue; no property is stored ([None]) for an empty array. *)
Definition issueSample (frames : list IssueFrame)
  : option (result (list IssueFrame)) :=
  match frames with
  | [] => None
  | first :: rest =>
      Some (readSamples
              (sampledFrames (selectSequence (sequencesOf first rest) frames)))
  end.

(** Successive frames of a run are at most two frame indices apart. *)
Fixpoint chained (run : list IssueFrame) : bool :=
  match run with
  | a :: ((b :: _) as rest) => continues a b && chained rest
  | _ => true
  end.

(** The last frame of a run. *)
Fixpoint lastOf (run : list IssueFrame) : option IssueFrame :=
  match run with
  | [] => None
  | [a] => Some a
  | _ :: rest => lastOf rest
  end.

(** Every run is non-empty, and the first frame of a run is more than
    two frame indices after the last frame of the run before it. *)
Fixpoint separated (runs : list (list IssueFrame)) : Prop :=
  match runs with
  | [] => True
  | r1 :: rest =>
      r1 <> []
      /\ match lastOf r1, rest with
         | Some a, (b :: _) :: _ => continues a b = false
         | _, _ => True
         end
      /\ separated rest
  end.

(** The runs of the frames [prevFrame :: rest], by recursion on the
    frames that follow. *)
Fixpoint runsOf (prevFrame : IssueFrame) (rest : list IssueFrame)
  : list (list IssueFrame) :=
  match rest with
  | [] => [[prevFrame]]
  | currFrame :: rest' =>
      match runsOf currFrame rest' with
      | run :: runs =>
          if continues prevFrame currFrame
          then (prevFrame :: run) :: runs
          else [prevFrame] :: run :: runs
      | [] => [[prevFrame]]
      end
  end.

(** The positions sampled in a run of [n] frames. *)
Definition samplePositions (n : nat) : list nat :=
  match n with
  | 0 => []
  | 1 => [0]
  | 2 => [0; 1]
  | _ => [0; (n - 1) / 2; n - 1]
  end%nat.

End Sampling.

End Samples.

(** ** Exercise statistics (StorageService.updateExerciseStats,
       src/services/storage.js)

    The statistics of all exercises are kept in localStorage as one JSON
    object, read and written whole by every update. *)

Module Storage.

Import Js.
Local Open Scope Q_scope.

(** What updateExerciseStats reads of a workout besides its errors. *)
Record Workout : Type := mkWorkout {
  score : Z;
  weight : Q;
  reps : nat
}.

(** The statistics of one exercise; the tally [commonErrors], which no
    other field depends on, is left out. *)
Record ExerciseStats : Type := mkExerciseStats {
  totalSessions : nat;
  averageScore : Q;
  bestScore : Z;
  lastWeight : Q;
  lastReps : nat;
  scoreHistory : list Z
}.

(** The object under STORAGE_KEYS.EXERCISE_STATS: its own properties. *)
Definition AllStats : Type := list (string * ExerciseStats).

(** [allStats[exerciseId] = stats] for a key that is not [__proto__]. *)
Fixpoint setProp (allStats : AllStats) (key : string) (stats : ExerciseStats)
  : AllStats :=
  match allStats with
  | [] => [(key, stats)]
  | (k, v) :: rest =>
      if String.eqb k key then (k, stats) :: rest
      else (k, v) :: setProp rest key stats
  end.

(** The statistics of an exercise without sessions. *)
Definition noSessions : ExerciseStats := mkExerciseStats 0 0 0 0 0 [].

(** updateExerciseStats(exerciseId, workout) on the stored object
    [allStats]: the object stored afterwards and the statistics
    returned.  A value inherited from [Object.prototype] has no
    [scoreHistory], so that [stats.scoreHistory.push] raises. *)
Definition updateExerciseStats (allStats : AllStats) (exerciseId : string)
           (workout : Workout) : result (AllStats * ExerciseStats) :=
  let update (stats : ExerciseStats) :=
    let history := scoreHistory stats ++ [score workout] in
    let updated :=
      mkExerciseStats
        (totalSessions stats + 1)
        (fold_left (fun a b => a + inject_Z b) history 0
         / inject_Z (Z.of_nat (List.length history)))
        (Z.max (bestScore stats) (score workout))
        (if Qeq_bool (weight workout) 0 then lastWeight stats
         else weight workout)
        (if (reps workout =? 0)%nat then lastReps stats else reps workout)
        history in
    Ok (setProp allStats exerciseId updated, updated) in
  match getProp allStats exerciseId with
  | Own stats => update stats
  | Absent => update noSessions
  | Inherited => Throw "TypeError: stats.scoreHistory is undefined"
  end.

(** The stored object after the workouts of a log have been recorded in
    order, starting from the stored object [allStats]. *)
Fixpoint recordWorkouts (allStats : AllStats) (log : list (string * Workout))
  : result AllStats :=
  match log with
  | [] => Ok allStats
  | (exerciseId, workout) :: rest =>
      bind (updateExerciseStats allStats exerciseId workout)
           (fun updated => recordWorkouts (fst updated) rest)
  end.

(** The workouts of an exercise in a log, in order. *)
Definition workoutsOf (exerciseId : string) (log : list (string * Workout))
  : list Workout :=
  map snd (filter (fun entry => String.eqb (fst entry) exerciseId) log).

(** The statistics that summarise a non-empty list of workouts. *)
Definition summarises (stats : ExerciseStats) (workouts : list Workout)
  : Prop :=
  let scores := map score workouts in
  scoreHistory stats = scores
  /\ totalSessions stats = List.length workouts
  /\ averageScore stats
     == fold_left Qplus (map inject_Z scores) 0
        / inject_Z (Z.of_nat (List.length workouts))
  /\ bestScore stats = fold_left Z.max scores 0%Z
  /\ lastWeight stats
     = last (filter (fun w => negb (Qeq_bool w 0)) (map weight workouts)) 0
  /\ lastReps stats
     = last (filter (fun n => negb (n =? 0)%nat) (map reps workouts)) 0%nat.

(** The statistics stored for an exercise, or those of no session. *)
Definition statsOf (allStats : AllStats) (exerciseId : string)
  : ExerciseStats :=
  match ownProp allStats exerciseId with
  | Some stats => stats
  | None => noSessions
  end.

(** The stored object summarises a log. *)
Definition upToDate (allStats : AllStats) (log : list (string * Workout))
  : Prop :=
  forall exerciseId,
    summarises (statsOf allStats exerciseId) (workoutsOf exerciseId log)
    /\ (ownProp allStats exerciseId = None
        <-> workoutsOf exerciseId log = []).

End Storage.

(** ** Invariants of the repetition counter and the phase analyser *)

Module Invariant.

Import Js Data.
Local Open Scope Q_scope.

(** Extrema in strictly increasing order of their frame index. *)
Definition ascending : list RepCounting.Extremum -> Prop :=
  StronglySorted (fun a b => (RepCounting.eindex a < RepCounting.eindex b)%nat).

(** The points that survive the significance filter, before they are
    separated into peaks and valleys again. *)
Definition keptPoints (peaks valleys : list RepCounting.Extremum)
           (minAmplitude : option Q) : list RepCounting.Extremum :=
  RepCounting.keepSignificant minAmplitude None
    (stableSort RepCounting.byIndex (peaks ++ valleys)).

(** A point of the metric progression that carries a value. *)
Definition carriesValue (p : RepProgression.ProgressionPoint) : bool :=
  match RepProgression.pvalue p with Some _ => true | None => false end.

(** A feature that is not a negative number. *)
Definition nonNegative (f : Feature) : Prop :=
  match f with
  | Number q => 0 <= q
  | _ => True
  end.

(** The three quality scores of an analysis lie between 0 and 100. *)
Definition scoresInRange (r : RepProgression.RepAnalysis) : Prop :=
  (0 <= RepProgression.smoothness (RepProgression.quality r) <= 100)%Z
  /\ (0 <= RepProgression.symmetry (RepProgression.quality r) <= 100)%Z
  /\ (0 <= RepProgression.controlledTempo (RepProgression.quality r)
      <= 100)%Z.

End Invariant.

(** * Properties *)

Unset Implicit Arguments.

(** ** Geometry kernel *)

Section GeometryFacts.

Import Geometry.
Local Open Scope R_scope.



Lemma atan2R_bounds (y x : R) : - PI <= atan2R y x <= PI.
Proof.
  unfold atan2R.
  pose proof PI_RGT_0 as Hpi.
  pose proof (atan_bound (y / x)) as [Hlo Hhi].
  destruct (Rlt_dec 0 x) as [Hx | Hx]; [lra |].
  destruct (Rlt_dec x 0) as [Hx' | Hx'].
  - destruct (Rle_dec 0 y) as [Hy | Hy].
    + assert (Hq : y / x <= 0).
      { pose proof (Rinv_lt_0_compat x Hx') as Hi. unfold Rdiv. nra. }
      assert (atan (y / x) <= 0).
      { destruct Hq as [Hq | Hq].
        - left. rewrite <- atan_0. now apply atan_increasing.
        - rewrite Hq, atan_0. lra. }
      lra.
    + assert (Hq : 0 < y / x).
      { pose proof (Rinv_lt_0_compat x Hx') as Hi. unfold Rdiv. nra. }
      assert (0 < atan (y / x)).
      { rewrite <- atan_0. now apply atan_increasing. }
      lra.
  - destruct (Rlt_dec 0 y); [lra |].
    destruct (Rlt_dec y 0); lra.
Qed.

Lemma foldAngle_range (r : R) :
  - (2 * PI) <= r <= 2 * PI ->
  exists v, foldAngle (toDegreesAbs (Fin r)) = Fin v /\ 0 <= v <= 180.
Proof.
  intros [Hlo Hhi]. simpl.
  pose proof PI_RGT_0 as Hpi.
  assert (Habs : Rabs (r * 180 / PI) <= 360).
  { unfold Rdiv. rewrite Rabs_mult, Rabs_mult.
    rewrite (Rabs_right 180) by lra.
    rewrite (Rabs_right (/ PI)) by (left; now apply Rinv_0_lt_compat).
    assert (Hr : Rabs r <= 2 * PI) by (apply Rabs_le; lra).
    apply Rmult_le_reg_r with (r := PI); [exact Hpi |].
    rewrite Rmult_assoc, Rinv_l by lra.
    nra. }
  pose proof (Rabs_pos (r * 180 / PI)) as Hpos.
  destruct (Rlt_dec 180 (Rabs (r * 180 / PI))) as [Hgt | Hle].
  - eexists; split; [reflexivity | lra].
  - eexists; split; [reflexivity | lra].
Qed.

Lemma toDegreesAbs_opp (r : R) :
  toDegreesAbs (Fin (- r)) = toDegreesAbs (Fin r).
Proof.
  simpl. f_equal.
  replace (- r * 180 / PI) with (- (r * 180 / PI)) by (unfold Rdiv; ring).
  apply Rabs_Ropp.
Qed.

Lemma usable_finite (p : jsval) :
  isUsableLandmark p = true ->
  exists px py, p = Some (mkLandmark (Fin px) (Fin py)).
Proof.
  destruct p as [[[px | | |] [py | | |]] |]; simpl; try discriminate.
  intros _. now exists px, py.
Qed.

(** C7.  On three landmarks with finite coordinates calculateAngle
    returns a finite angle between 0 and 180 degrees, and the angle does
    not change when the first and third landmark are exchanged. *)
Theorem calculateAngle_range_and_symmetry (a b c : jsval) :
  isUsableLandmark a = true ->
  isUsableLandmark b = true ->
  isUsableLandmark c = true ->
  (exists v, calculateAngle a b c = Fin v /\ 0 <= v <= 180)
  /\ calculateAngle a b c = calculateAngle c b a.
Proof.
  intros Ha Hb Hc.
  destruct (usable_finite a Ha) as (ax & ay & ->).
  destruct (usable_finite b Hb) as (bx & by_ & ->).
  destruct (usable_finite c Hc) as (cx & cy & ->).
  unfold calculateAngle, angleBody. cbn [lx ly jsub atan2].
  set (tc := atan2R (cy - by_) (cx - bx)).
  set (ta := atan2R (ay - by_) (ax - bx)).
  split.
  - apply foldAngle_range.
    pose proof (atan2R_bounds (cy - by_) (cx - bx)) as Hc'.
    pose proof (atan2R_bounds (ay - by_) (ax - bx)) as Ha'.
    fold tc in Hc'. fold ta in Ha'. lra.
  - replace (ta - tc) with (- (tc - ta)) by ring.
    now rewrite toDegreesAbs_opp.
Qed.

Lemma calculateAngle_range_and_symmetry_witness :
  let a := Some (mkLandmark (Fin 1) (Fin 0)) in
  let b := Some (mkLandmark (Fin 0) (Fin 0)) in
  let c := Some (mkLandmark (Fin 0) (Fin 1)) in
  (exists v, calculateAngle a b c = Fin v /\ 0 <= v <= 180)
  /\ calculateAngle a b c = calculateAngle c b a.
Proof.
  apply calculateAngle_range_and_symmetry; reflexivity.
Defined.

(** C8, as stated, fails: a landmark object whose x is NaN is not
    usable, yet calculateAngle goes on to compute with it and returns
    NaN, not the sentinel 0. *)
Lemma calculateAngle_unusable_not_sentinel :
  let a := Some (mkLandmark NaN (Fin 0)) in
  let b := Some (mkLandmark (Fin 0) (Fin 0)) in
  let c := Some (mkLandmark (Fin 0) (Fin 1)) in
  isUsableLandmark a = false
  /\ calculateAngle a b c = NaN
  /\ calculateAngle a b c <> Fin 0.
Proof.
  cbn. repeat split. discriminate.
Qed.

(** A NaN coordinate makes the angle NaN: the subtraction, Math.atan2
    and the conversion to degrees all pass NaN on, and the comparison
    with 180 is false. *)
Lemma jsub_NaN_l (b : jsnum) : jsub NaN b = NaN.
Proof. now destruct b. Qed.

Lemma jsub_NaN_r (a : jsnum) : jsub a NaN = NaN.
Proof. now destruct a. Qed.

Lemma atan2_NaN_l (x : jsnum) : atan2 NaN x = NaN.
Proof. now destruct x. Qed.

Lemma atan2_NaN_r (y : jsnum) : atan2 y NaN = NaN.
Proof. now destruct y. Qed.

Lemma angleBody_NaN (a b c : Landmark) :
  In NaN [lx a; ly a; lx b; ly b; lx c; ly c] -> angleBody a b c = NaN.
Proof.
  intros H. unfold angleBody. cbn [In] in H.
  destruct H as [H | [H | [H | [H | [H | [H | []]]]]]]; rewrite H;
    repeat first [ rewrite jsub_NaN_l | rewrite jsub_NaN_r
                 | rewrite atan2_NaN_l | rewrite atan2_NaN_r ];
    reflexivity.
Qed.

(** C8, amended.  When one of the three arguments is null (falsy),
    calculateAngle returns the sentinel 0 without raising; the
    repetition counter's own calculateAngle returns 180 there.
    Usability is not tested: on three non-null landmarks one of whose
    coordinates is NaN calculateAngle returns NaN, not the sentinel. *)
Theorem calculateAngle_null_sentinel (a b c : jsval) :
  (a = None \/ b = None \/ c = None ->
   calculateAngle a b c = Fin 0 /\ repCalculateAngle a b c = Fin 180)
  /\ (forall a' b' c' : Landmark,
        a = Some a' -> b = Some b' -> c = Some c' ->
        In NaN [lx a'; ly a'; lx b'; ly b'; lx c'; ly c'] ->
        calculateAngle a b c = NaN).
Proof.
  split.
  - intros H.
    destruct a, b, c; split; try reflexivity;
      destruct H as [H | [H | H]]; discriminate H.
  - intros a' b' c' -> -> -> H. cbn [calculateAngle].
    now apply angleBody_NaN.
Qed.

Lemma calculateAngle_null_sentinel_witness :
  let a := Some (mkLandmark NaN (Fin 0)) in
  let b := Some (mkLandmark (Fin 0) (Fin 0)) in
  let c := Some (mkLandmark (Fin 0) (Fin 1)) in
  (calculateAngle None b c = Fin 0 /\ repCalculateAngle None b c = Fin 180)
  /\ calculateAngle a b c = NaN.
Proof.
  cbv zeta. split.
  - apply (proj1 (calculateAngle_null_sentinel
                    None (Some (mkLandmark (Fin 0) (Fin 0)))
                    (Some (mkLandmark (Fin 0) (Fin 1))))).
    left. reflexivity.
  - apply (proj2 (calculateAngle_null_sentinel
                    (Some (mkLandmark NaN (Fin 0)))
                    (Some (mkLandmark (Fin 0) (Fin 0)))
                    (Some (mkLandmark (Fin 0) (Fin 1))))
                 (mkLandmark NaN (Fin 0)) (mkLandmark (Fin 0) (Fin 0))
                 (mkLandmark (Fin 0) (Fin 1)));
      try reflexivity.
    cbn. left. reflexivity.
Defined.

End GeometryFacts.

(** ** Repetition counter *)

Section RepCountingFacts.

Import Js Data RepCounting.
Local Open Scope Q_scope.

Variable calculateAngle : Landmark -> Landmark -> Landmark -> Q.

(** C10.  On fewer than five frames countReps returns the zero result
    (count 0, no ranges, no metric data) for every exercise id. *)
Theorem countReps_few_frames (frames : list Frame) (exerciseId : string) :
  (List.length frames < 5)%nat ->
  let r := countReps calculateAngle frames exerciseId in
  count r = 0%nat /\ repRanges r = [] /\ metricData r = [].
Proof.
  intros Hlen. unfold countReps.
  apply Nat.ltb_lt in Hlen. rewrite Hlen. cbn. auto.
Qed.

End RepCountingFacts.

Lemma countReps_few_frames_witness :
  let r := RepCounting.countReps Synthetic.flatAngle
             (Synthetic.recording 0.525 0.125 9 4) "squat" in
  RepCounting.count r = 0%nat /\ RepCounting.repRanges r = []
  /\ RepCounting.metricData r = [].
Proof.
  apply (countReps_few_frames Synthetic.flatAngle
           (Synthetic.recording 0.525 0.125 9 4) "squat").
  cbn. lia.
Defined.

(** ** Unknown exercise ids *)

Section UnknownExercise.

Import Js Data.
Local Arguments String.eqb : simpl never.

Variables NamedLandmarks Features PoseLandmarks : Type.
Variable predicate : string -> NamedLandmarks -> Features -> result bool.
Variables analyzeSquat analyzeDeadlift analyzeOverheadPress
          analyzeBenchPress analyzePullUp : PoseLandmarks -> result Features.
Variable calculateAngle : Landmark -> Landmark -> Landmark -> Q.

Lemma not_in_catalog (exerciseId : string) :
  ~ In exerciseId Validation.exerciseIds ->
  String.eqb "squat" exerciseId = false
  /\ String.eqb "deadlift" exerciseId = false
  /\ String.eqb "overhead_press" exerciseId = false
  /\ String.eqb "bench_press" exerciseId = false
  /\ String.eqb "pull_up" exerciseId = false.
Proof.
  intros Hnot. cbn in Hnot.
  repeat split; apply String.eqb_neq; intros <-; apply Hnot; tauto.
Qed.

(** C2, amended.  For an exercise id that is not in the catalog,
    validateForm returns no issue; and unless the id names a property
    inherited from Object.prototype, countReps returns the zero result,
    analyzeExercise the empty object and analyzeRepProgression null.
    None of them raises an error. *)
Theorem unknown_exercise_yields_empty_results
        (exerciseId : string) (landmarks : NamedLandmarks) (angles : Features)
        (frames : list AnalyzedFrame) (pose : PoseLandmarks) :
  ~ In exerciseId Validation.exerciseIds ->
  Validation.validateForm predicate (Validation.ById _ _ exerciseId)
                          landmarks angles = []
  /\ (isInheritedKey exerciseId = false ->
      RepCounting.countReps calculateAngle frames exerciseId
      = RepCounting.zeroResult
      /\ Validation.analyzeExercise analyzeSquat analyzeDeadlift
           analyzeOverheadPress analyzeBenchPress analyzePullUp
           exerciseId pose = Ok (Validation.EmptyObject _)
      /\ RepProgression.analyzeRepProgression frames exerciseId = Ok None).
Proof.
  intros Hnot.
  destruct (not_in_catalog exerciseId Hnot) as (H1 & H2 & H3 & H4 & H5).
  split.
  - unfold Validation.validateForm, Validation.getExerciseById.
    destruct (String.eqb exerciseId "") eqn:He; [reflexivity |].
    cbn. rewrite H1, H2, H3, H4, H5. reflexivity.
  - intros Hown. repeat split.
    + unfold RepCounting.countReps.
      case (Nat.ltb _ _); [reflexivity |].
      unfold getProp. cbn [ownProp RepCounting.repThresholds].
      rewrite H1, H2, H3, H4, H5, Hown. reflexivity.
    + unfold Validation.analyzeExercise, getProp.
      cbn [ownProp Validation.analysisMap].
      rewrite H1, H2, H3, H4, H5, Hown. reflexivity.
    + unfold RepProgression.analyzeRepProgression, getProp.
      cbn [ownProp RepProgression.exercisePatterns].
      rewrite H1, H2, H3, H4, H5, Hown. reflexivity.
Qed.

End UnknownExercise.

(** C2, as stated, fails: for the id "lunge", which the catalog does not
    contain, none of the four operations raises an error; each returns
    its empty result. *)
Lemma unknown_exercise_not_raised :
  let exerciseId := "lunge"%string in
  ~ In exerciseId Validation.exerciseIds
  /\ Validation.validateForm (fun _ (_ _ : unit) => Js.Ok true)
       (Validation.ById _ _ exerciseId) tt tt = []
  /\ RepCounting.countReps Synthetic.flatAngle Synthetic.threeSquats exerciseId
     = RepCounting.zeroResult
  /\ ~ Js.raises (Validation.analyzeExercise
                    (fun _ : unit => Js.Ok tt) (fun _ => Js.Ok tt)
                    (fun _ => Js.Ok tt) (fun _ => Js.Ok tt) (fun _ => Js.Ok tt)
                    exerciseId tt)
  /\ ~ Js.raises (RepProgression.analyzeRepProgression Synthetic.threeSquats
                    exerciseId).
Proof.
  cbv zeta. split; [| split; [| split; [| split]]].
  - cbn. intros H. repeat (destruct H as [H | H]; [discriminate H |]). exact H.
  - reflexivity.
  - reflexivity.
  - intros [msg H]. discriminate H.
  - intros [msg H]. discriminate H.
Qed.

Lemma unknown_exercise_yields_empty_results_witness :
  let exerciseId := "lunge"%string in
  Validation.validateForm (fun _ (_ _ : unit) => Js.Ok true)
    (Validation.ById _ _ exerciseId) tt tt = []
  /\ (Js.isInheritedKey exerciseId = false ->
      RepCounting.countReps Synthetic.flatAngle Synthetic.threeSquats exerciseId
      = RepCounting.zeroResult
      /\ Validation.analyzeExercise
           (fun _ : unit => Js.Ok tt) (fun _ => Js.Ok tt)
           (fun _ => Js.Ok tt) (fun _ => Js.Ok tt) (fun _ => Js.Ok tt)
           exerciseId tt = Js.Ok (Validation.EmptyObject _)
      /\ RepProgression.analyzeRepProgression Synthetic.threeSquats exerciseId
         = Js.Ok None).
Proof.
  apply (unknown_exercise_yields_empty_results unit unit unit
           (fun _ (_ _ : unit) => Js.Ok true)
           (fun _ : unit => Js.Ok tt) (fun _ => Js.Ok tt)
           (fun _ => Js.Ok tt) (fun _ => Js.Ok tt) (fun _ => Js.Ok tt)
           Synthetic.flatAngle "lunge"%string tt tt Synthetic.threeSquats tt).
  cbn. intros H. repeat (destruct H as [H | H]; [discriminate H |]). exact H.
Defined.

(** ** Per-repetition stage *)

Section RepFramesFacts.

Import Js Data.

Lemma rangeProp_startFrame (r : RepCounting.RepRange) :
  Pipeline.rangeProp r "startFrame" = Undefined.
Proof. unfold Pipeline.rangeProp. destruct (RepCounting.isDown r); reflexivity. Qed.

Lemma rangeProp_endFrame (r : RepCounting.RepRange) :
  Pipeline.rangeProp r "endFrame" = Undefined.
Proof. unfold Pipeline.rangeProp. destruct (RepCounting.isDown r); reflexivity. Qed.

(** A range object has no [startFrame] and no [endFrame]: the slice is
    taken from [undefined] to NaN and is empty, whatever the range. *)
Lemma repFrames_empty (frames : list AnalyzedFrame) (r : RepCounting.RepRange) :
  Pipeline.repFrames frames r = [].
Proof.
  unfold Pipeline.repFrames.
  rewrite rangeProp_startFrame, rangeProp_endFrame.
  unfold slice. cbn [plusOne toInteger].
  now rewrite Nat.sub_diag.
Qed.

(** C1 (the code departs from the claim).  On the synthetic recording of
    three squats countReps finds the repetition from frame 12 to frame
    24, but analyzeVideo hands analyzeRepProgression an empty frame list
    instead of these 13 frames: the reported analysis has frameCount 0
    and smoothness 100, where the frames of the range give frameCount 13
    and smoothness 57. *)
Theorem rep_progression_gets_no_frames :
  let frames := Synthetic.threeSquats in
  let ranges :=
    RepCounting.repRanges
      (RepCounting.countReps Synthetic.flatAngle frames "squat") in
  map (fun r => (RepCounting.startIndex r, RepCounting.endIndex r)) ranges
  = [(12, 24)]%nat
  /\ map (Pipeline.repFrames frames) ranges = [[]]
  /\ map (fun r => List.length (Pipeline.framesOfRange frames r)) ranges
     = [13%nat]
  /\ (exists a,
        Pipeline.repProgressionAnalyses frames ranges "squat" = Ok [a]
        /\ RepProgression.frameCount a = 0%nat
        /\ RepProgression.smoothness (RepProgression.quality a) = 100%Z)
  /\ (exists b,
        map (fun r => RepProgression.analyzeRepProgression
                        (Pipeline.framesOfRange frames r) "squat") ranges
        = [Ok (Some b)]
        /\ RepProgression.frameCount b = 13%nat
        /\ RepProgression.smoothness (RepProgression.quality b) = 57%Z).
Proof.
  cbv zeta.
  split; [vm_compute; reflexivity |].
  split; [vm_compute; reflexivity |].
  split; [vm_compute; reflexivity |].
  split.
  - eexists. split; [vm_compute; reflexivity |]. split; reflexivity.
  - eexists. split; [vm_compute; reflexivity |]. split; reflexivity.
Qed.

End RepFramesFacts.

(** ** Scoring *)

Section ScoringFacts.

Import Js Data Aggregation.
Local Open Scope Q_scope.

Lemma round_nearest (x : Q) :
  x - (1 # 2) < inject_Z (round x) /\ inject_Z (round x) <= x + (1 # 2).
Proof.
  unfold round. split.
  - pose proof (Qlt_floor (x + (1 # 2))) as H.
    rewrite inject_Z_plus in H. change (inject_Z 1) with 1 in H.
    generalize dependent (inject_Z (Qfloor (x + (1 # 2)))). intros f H. Lqa.lra.
  - apply Qfloor_le.
Qed.

Lemma round_bounds (x : Q) (lo hi : Z) :
  inject_Z lo <= x -> x <= inject_Z hi -> (lo <= round x <= hi)%Z.
Proof.
  intros Hlo Hhi. unfold round. split.
  - rewrite <- (Qfloor_Z lo). apply Qfloor_resp_le. Lqa.lra.
  - apply Z.lt_succ_r. rewrite Zlt_Qlt.
    apply Qle_lt_trans with (x + (1 # 2)); [apply Qfloor_le |].
    unfold Z.succ. rewrite inject_Z_plus. change (inject_Z 1) with 1.
    generalize dependent (inject_Z hi). intros h Hh. Lqa.lra.
Qed.

Lemma baseScore_clamp (frames : list AnalyzedFrame)
      (significant : list SignificantError) :
  baseScore frames significant
  = match frames with
    | [] => 0%Z
    | _ => Spec.clamp (100 - 15 * Z.of_nat (List.length significant)) 0 100
    end.
Proof.
  unfold baseScore, Spec.clamp. destruct frames as [| f rest]; [reflexivity |].
  destruct (Z.ltb_spec (100 - 15 * Z.of_nat (List.length significant)) 0);
    destruct (Z.ltb_spec 100 (100 - 15 * Z.of_nat (List.length significant)));
    lia.
Qed.

(** C4.  The base score is 0 when no frame was analysed and otherwise
    100 minus 15 per significant error, clamped to [0, 100]; the final
    score is the base score times the completeness confidence, rounded
    to the nearest integer. *)
Theorem score_formula (frames : list AnalyzedFrame) (confidence : Q)
        (significant : list SignificantError) :
  significantErrors frames = Ok significant ->
  exists base final,
    scoreVideo frames confidence = Ok (significant, base, final)
    /\ base = match frames with
              | [] => 0%Z
              | _ => Spec.clamp
                       (100 - 15 * Z.of_nat (List.length significant)) 0 100
              end
    /\ inject_Z base * confidence - (1 # 2) < inject_Z final
    /\ inject_Z final <= inject_Z base * confidence + (1 # 2).
Proof.
  intros Hsig.
  exists (baseScore frames significant),
         (score (baseScore frames significant) confidence).
  split; [| split].
  - unfold scoreVideo. rewrite Hsig. reflexivity.
  - apply baseScore_clamp.
  - apply round_nearest.
Qed.

End ScoringFacts.

Lemma score_formula_witness :
  exists base final,
    Aggregation.scoreVideo Synthetic.threeSquats 0.5 = Js.Ok ([], base, final)
    /\ base = Spec.clamp (100 - 15 * Z.of_nat 0) 0 100
    /\ (inject_Z base * 0.5 - (1 # 2) < inject_Z final)%Q
    /\ (inject_Z final <= inject_Z base * 0.5 + (1 # 2))%Q.
Proof.
  apply (score_formula Synthetic.threeSquats 0.5%Q []).
  reflexivity.
Defined.

(** ** Smoothness *)

Section SmoothnessFacts.

Import Js Data RepProgression.
Local Open Scope Q_scope.

Lemma differences_length (l : list Q) :
  List.length (differences l) = (List.length l - 1)%nat.
Proof.
  induction l as [| a [| b rest] IH]; try reflexivity.
  change (differences (a :: b :: rest)) with ((b - a) :: differences (b :: rest)).
  cbn [List.length] in *. rewrite IH. lia.
Qed.

Lemma fold_plus_nonneg (l : list Q) (acc : Q) :
  0 <= acc -> Forall (fun v => 0 <= v) l -> 0 <= fold_left Qplus l acc.
Proof.
  revert acc. induction l as [| a rest IH]; intros acc Hacc Hall; cbn.
  - exact Hacc.
  - inversion Hall as [| ? ? Ha Hrest]; subst.
    apply IH; [Lqa.lra | exact Hrest].
Qed.

Lemma fold_plus_nonpos (l : list Q) (acc : Q) :
  acc <= 0 -> Forall (fun v => v <= 0) l -> fold_left Qplus l acc <= 0.
Proof.
  revert acc. induction l as [| a rest IH]; intros acc Hacc Hall; cbn.
  - exact Hacc.
  - inversion Hall as [| ? ? Ha Hrest]; subst.
    apply IH; [Lqa.lra | exact Hrest].
Qed.

Lemma sumQ_abs_nonneg (l : list Q) : 0 <= sumQ (map Qabs l).
Proof.
  apply fold_plus_nonneg; [Lqa.lra |].
  apply Forall_forall. intros v Hv. apply in_map_iff in Hv.
  destruct Hv as (u & <- & _). apply Qabs_nonneg.
Qed.

Lemma nat_Q_pos (n : nat) : (0 < n)%nat -> 0 < inject_Z (Z.of_nat n).
Proof. intros H. rewrite <- (Zlt_Qlt 0). lia. Qed.

Lemma div_nonneg (a b : Q) : 0 <= a -> 0 < b -> 0 <= a / b.
Proof.
  intros Ha Hb. apply Qle_shift_div_l; [exact Hb | Lqa.lra].
Qed.

(** The value computed by calculateSmoothness on at least three valid
    points: the sum of the absolute second differences is divided by the
    number of first differences. *)
Lemma calculateSmoothness_value (progression : list ProgressionPoint) :
  (3 <= List.length (validValues progression))%nat ->
  calculateSmoothness progression
  = round (Qmax 0 (100 - RepProgression.sumQ (map Qabs (Spec.jerk (validValues progression)))
                         / inject_Z (Z.of_nat (List.length (validValues progression) - 1))
                         * 5)).
Proof.
  intros Hlen. unfold calculateSmoothness.
  destruct (Nat.ltb_spec (List.length (validValues progression)) 3) as [H | H];
    [lia |].
  unfold penalised, Spec.jerk. now rewrite differences_length.
Qed.

End SmoothnessFacts.

(** C9 (the code departs from the claim).  On the values 0, 0, 2 the
    single absolute second difference is 2, so 100 minus 5 times the
    mean absolute jerk is 90; calculateSmoothness divides the sum of the
    absolute second differences by the number of first differences, 2,
    and returns 95. *)
Theorem smoothness_not_mean_jerk :
  let progression :=
    [ RepProgression.mkProgressionPoint 0 0 (Some 0%Q);
      RepProgression.mkProgressionPoint 1 (1 # 12) (Some 0%Q);
      RepProgression.mkProgressionPoint 2 (2 # 12) (Some 2%Q) ] in
  let values := RepProgression.validValues progression in
  (3 <= List.length values)%nat
  /\ (Spec.smoothness values == 90)%Q
  /\ RepProgression.calculateSmoothness progression = 95%Z
  /\ ~ (inject_Z (RepProgression.calculateSmoothness progression)
        == Spec.smoothness values)%Q.
Proof.
  cbv zeta. split; [cbn; lia |]. split; [reflexivity |].
  split; [reflexivity |]. intros H. vm_compute in H. discriminate H.
Qed.

(** ** Parallel frame orchestrator *)

Section OrchestratorFacts.

Import Js Orchestrator.

Variables ExtractedFrame Analysis : Type.
Variables workerAnalyze fallbackAnalyze : ExtractedFrame -> Analysis.
Variable workerSucceeds : nat -> bool.


Lemma ceilDiv_bounds (a b : nat) :
  (0 < b)%nat ->
  let c := Qceiling (inject_Z (Z.of_nat a) / inject_Z (Z.of_nat b)) in
  (0 <= c)%Z /\ (Z.of_nat a <= c * Z.of_nat b)%Z
  /\ ((c - 1) * Z.of_nat b < Z.of_nat a)%Z.
Proof.
  intros Hb c.
  assert (HbQ : (0 < inject_Z (Z.of_nat b))%Q).
  { rewrite <- (Zlt_Qlt 0). lia. }
  assert (HaQ : (0 <= inject_Z (Z.of_nat a))%Q).
  { rewrite <- (Zle_Qle 0). lia. }
  pose proof (Qle_ceiling (inject_Z (Z.of_nat a) / inject_Z (Z.of_nat b))) as Hup.
  pose proof (Qceiling_lt (inject_Z (Z.of_nat a) / inject_Z (Z.of_nat b))) as Hlow.
  fold c in Hup, Hlow.
  assert (Heq : (inject_Z (Z.of_nat a) / inject_Z (Z.of_nat b)
                 * inject_Z (Z.of_nat b) == inject_Z (Z.of_nat a))%Q).
  { field. intros H. rewrite H in HbQ. discriminate HbQ. }
  assert (Hup' : (inject_Z (Z.of_nat a) <= inject_Z (c * Z.of_nat b))%Q).
  { rewrite inject_Z_mult.
    generalize dependent (inject_Z (Z.of_nat a) / inject_Z (Z.of_nat b))%Q.
    intros q Hup Hlow Heq. Lqa.nra. }
  assert (Hlow' : (inject_Z ((c - 1) * Z.of_nat b) < inject_Z (Z.of_nat a))%Q).
  { rewrite inject_Z_mult.
    generalize dependent (inject_Z (Z.of_nat a) / inject_Z (Z.of_nat b))%Q.
    intros q Hup Hlow Heq. Lqa.nra. }
  rewrite <- Zle_Qle in Hup'. rewrite <- Zlt_Qlt in Hlow'.
  repeat split; try assumption. nia.
Qed.

Lemma ceilDiv_upper (a b : nat) : (0 < b)%nat -> (a <= ceilDiv a b * b)%nat.
Proof.
  intros Hb. unfold ceilDiv.
  destruct (ceilDiv_bounds a b Hb) as (H0 & Hup & _).
  apply Nat2Z.inj_le. rewrite Nat2Z.inj_mul, Z2Nat.id by exact H0. exact Hup.
Qed.

Lemma ceilDiv_least (a b q : nat) :
  (0 < b)%nat -> (a <= q * b)%nat -> (ceilDiv a b <= q)%nat.
Proof.
  intros Hb Hq. unfold ceilDiv.
  destruct (ceilDiv_bounds a b Hb) as (H0 & _ & Hlow).
  apply Nat2Z.inj_le. rewrite Z2Nat.id by exact H0.
  apply Nat2Z.inj_le in Hq. rewrite Nat2Z.inj_mul in Hq. nia.
Qed.

Lemma ceilDiv_pos (a b : nat) : (0 < b)%nat -> (0 < a)%nat -> (0 < ceilDiv a b)%nat.
Proof.
  intros Hb Ha. pose proof (ceilDiv_upper a b Hb). nia.
Qed.

Lemma workerCount_bounds (n : nat) :
  (workerCount n <= 4)%nat /\ ((0 < n)%nat -> (0 < workerCount n)%nat).
Proof.
  unfold workerCount. split; [lia |].
  intros Hn. pose proof (ceilDiv_pos n 50 ltac:(lia) Hn). lia.
Qed.

Lemma frameBatchSize_spec (n : nat) :
  (0 < n)%nat ->
  exists size, frameBatchSize n = Some size
               /\ size = ceilDiv n (workerCount n)
               /\ (0 < size)%nat /\ (n <= workerCount n * size)%nat.
Proof.
  intros Hn. unfold frameBatchSize.
  destruct (workerCount_bounds n) as [_ Hpos]. specialize (Hpos Hn).
  destruct (workerCount n) as [| w] eqn:Hw; [lia |].
  exists (ceilDiv n (S w)). repeat split.
  - apply ceilDiv_pos; lia.
  - pose proof (ceilDiv_upper n (S w) ltac:(lia)). lia.
Qed.

Lemma mapiFrom_map {A B C : Type} (g : B -> C) (f : nat -> A -> B) (i : nat)
      (l : list A) :
  map g (mapiFrom f i l) = mapiFrom (fun k a => g (f k a)) i l.
Proof.
  revert i. induction l as [| a rest IH]; intros i; cbn; [reflexivity |].
  now rewrite IH.
Qed.

Lemma mapiFrom_length {A B : Type} (f : nat -> A -> B) (i : nat) (l : list A) :
  List.length (mapiFrom f i l) = List.length l.
Proof.
  revert i. induction l as [| a rest IH]; intros i; cbn; [reflexivity |].
  now rewrite IH.
Qed.

Lemma mapiFrom_index {A : Type} (base i : nat) (l : list A) :
  mapiFrom (fun k (_ : A) => (base + k)%nat) i l
  = seq (base + i) (List.length l).
Proof.
  revert i. induction l as [| a rest IH]; intros i; cbn; [reflexivity |].
  rewrite IH. now rewrite Nat.add_succ_r.
Qed.

Lemma framesWithLandmarks_index (frames : list ExtractedFrame) :
  map (@index ExtractedFrame) (framesWithLandmarks frames)
  = seq 0 (List.length frames).
Proof.
  unfold framesWithLandmarks, mapi. rewrite mapiFrom_map. cbn [index].
  exact (mapiFrom_index 0 0 frames).
Qed.

Lemma framesWithLandmarks_length (frames : list ExtractedFrame) :
  List.length (framesWithLandmarks frames) = List.length frames.
Proof. apply mapiFrom_length. Qed.

Lemma firstn_seq (k start len : nat) :
  firstn k (seq start len) = seq start (Nat.min k len).
Proof.
  revert start len. induction k as [| k IH]; intros start [| len]; cbn;
    try reflexivity.
  now rewrite IH.
Qed.

Lemma batchResults_index (size idx : nat)
      (frames : list (Indexed ExtractedFrame)) :
  map (@index ExtractedFrame) frames = seq 0 (List.length frames) ->
  map (@originalIndex Analysis)
      (batchResults workerAnalyze fallbackAnalyze workerSucceeds size idx
                    (firstn size (skipn (idx * size) frames)))
  = seq (idx * size) (Nat.min size (List.length frames - idx * size)).
Proof.
  intros Hindex. unfold batchResults.
  destruct (workerSucceeds idx).
  - unfold workerResults, mapi. rewrite mapiFrom_map. cbn [originalIndex].
    rewrite (mapiFrom_index (idx * size) 0).
    rewrite length_firstn, length_skipn. now rewrite Nat.add_0_r.
  - unfold analyzeFramesFallback. rewrite map_map. cbn [originalIndex].
    rewrite (map_ext _ (@index ExtractedFrame)) by reflexivity.
    rewrite <- firstn_map, <- skipn_map, Hindex.
    rewrite skipn_seq, firstn_seq. reflexivity.
Qed.

Lemma batchLoop_results (size : nat) (frames : list (Indexed ExtractedFrame)) :
  (0 < size)%nat ->
  map (@index ExtractedFrame) frames = seq 0 (List.length frames) ->
  forall fuel idx,
    (List.length frames - idx * size <= fuel)%nat ->
    exists batches,
      batchLoop fuel (idx * size) size frames = Some batches
      /\ List.concat batches = skipn (idx * size) frames
      /\ Forall (fun b => (List.length b <= size)%nat) batches
      /\ (List.length batches * size < List.length frames - idx * size + size)%nat
      /\ map (@originalIndex Analysis)
             (List.concat
                (mapiFrom (batchResults workerAnalyze fallbackAnalyze
                                        workerSucceeds size) idx batches))
         = seq (idx * size) (List.length frames - idx * size).
Proof.
  intros Hsize Hindex. induction fuel as [| fuel IH]; intros idx Hfuel.
  - exists []. cbn [batchLoop].
    destruct (Nat.leb_spec (List.length frames) (idx * size)) as [Hle | Hgt];
      [| lia].
    repeat split.
    + cbn. symmetry. apply skipn_all2. exact Hle.
    + constructor.
    + cbn. lia.
    + replace (List.length frames - idx * size)%nat with 0%nat by lia.
      reflexivity.
  - cbn [batchLoop].
    destruct (Nat.leb_spec (List.length frames) (idx * size)) as [Hle | Hgt].
    + exists []. repeat split.
      * cbn. symmetry. apply skipn_all2. exact Hle.
      * constructor.
      * cbn. lia.
      * replace (List.length frames - idx * size)%nat with 0%nat by lia.
        reflexivity.
    + pose proof (Nat.mul_succ_l idx size) as HS.
      replace (idx * size + size)%nat with (S idx * size)%nat by lia.
      destruct (IH (S idx)) as (rest & Hrest & Hconcat & Hall & Hcount & Hres).
      { lia. }
      exists (firstn size (skipn (idx * size) frames) :: rest).
      rewrite Hrest. repeat split.
      * cbn [List.concat]. rewrite Hconcat.
        replace (S idx * size)%nat with (size + idx * size)%nat by lia.
        rewrite <- skipn_skipn. apply firstn_skipn.
      * constructor; [| exact Hall]. rewrite length_firstn. lia.
      * cbn [List.length].
        destruct (Nat.le_gt_cases (S idx * size) (List.length frames))
          as [Hfull | Hlast]; [lia |].
        assert (Hnone : List.length rest = 0%nat).
        { destruct (List.length rest) as [| k]; [reflexivity |].
          exfalso. cbn [Nat.mul] in Hcount. lia. }
        rewrite Hnone. lia.
      * cbn [mapiFrom List.concat]. rewrite map_app, Hres.
        rewrite (batchResults_index size idx frames Hindex).
        destruct (Nat.le_ge_cases size (List.length frames - idx * size))
          as [Hfull | Hlast].
        -- rewrite Nat.min_l by exact Hfull.
           replace (List.length frames - idx * size)%nat
             with (size + (List.length frames - S idx * size))%nat by lia.
           rewrite seq_app.
           replace (idx * size + size)%nat with (S idx * size)%nat by lia.
           replace (size + (List.length frames - S idx * size) - size)%nat
             with (List.length frames - S idx * size)%nat by lia.
           reflexivity.
        -- rewrite Nat.min_r by exact Hlast.
           replace (List.length frames - S idx * size)%nat with 0%nat by lia.
           cbn [seq]. now rewrite app_nil_r.
Qed.

(** C6.  The frames are cut into at most workerCount = min(4, ceil(N/50))
    batches of at most ceil(N/workerCount) frames each, which together
    are the frame list; and whichever batches fall back to sequential
    analysis, the flattened results are in frame order: result k
    carries originalIndex k for every k below N. *)
Theorem results_in_frame_order (extractedFrames : list ExtractedFrame) :
  let n := List.length extractedFrames in
  exists batches results,
    makeBatches (framesWithLandmarks extractedFrames) = Some batches
    /\ List.concat batches = framesWithLandmarks extractedFrames
    /\ (List.length batches <= workerCount n <= 4)%nat
    /\ match frameBatchSize n with
       | Some size =>
           size = ceilDiv n (Nat.min 4 (ceilDiv n 50))
           /\ Forall (fun b => (List.length b <= size)%nat) batches
       | None => n = 0%nat
       end
    /\ allResults workerAnalyze fallbackAnalyze workerSucceeds extractedFrames
       = Some results
    /\ map (@originalIndex Analysis) results = seq 0 n.
Proof.
  cbv zeta.
  set (frames := framesWithLandmarks extractedFrames).
  set (n := List.length extractedFrames).
  assert (Hlen : List.length frames = n) by apply framesWithLandmarks_length.
  assert (Hindex : map (@index ExtractedFrame) frames
                   = seq 0 (List.length frames)).
  { rewrite Hlen. apply framesWithLandmarks_index. }
  destruct (Nat.eq_0_gt_0_cases n) as [Hzero | Hpos].
  - assert (Hnil : extractedFrames = []) by (now apply length_zero_iff_nil).
    subst frames n. rewrite Hnil. exists [], []. cbn. repeat split; lia.
  - destruct (frameBatchSize_spec n Hpos) as (size & Hsize & Hdef & Hspos & Hcover).
    destruct (batchLoop_results size frames Hspos Hindex (List.length frames) 0)
      as (batches & Hloop & Hconcat & Hall & Hcount & Hres); [lia |].
    cbn [Nat.mul skipn] in Hloop, Hconcat, Hcount, Hres.
    rewrite Nat.sub_0_r in Hcount, Hres.
    exists batches,
      (List.concat (mapi (Orchestrator.batchResults workerAnalyze fallbackAnalyze
                            workerSucceeds size) batches)).
    assert (Hmake : makeBatches frames = Some batches).
    { unfold makeBatches. rewrite Hlen, Hsize, <- Hlen. exact Hloop. }
    split; [exact Hmake |]. split; [exact Hconcat |].
    split; [| split; [| split]].
    + split; [| apply workerCount_bounds].
      rewrite Hlen in Hcount.
      assert (Hb : (List.length batches * size < (workerCount n + 1) * size)%nat)
        by lia.
      nia.
    + rewrite Hsize. split; [exact Hdef | exact Hall].
    + unfold allResults. fold frames. rewrite Hmake, Hlen, Hsize. reflexivity.
    + unfold mapi. rewrite Hres, Hlen. reflexivity.
Qed.

End OrchestratorFacts.

(** ** Aggregation *)

Section AggregationFacts.

Import Js Data Aggregation.
Local Open Scope Q_scope.

Lemma mergedRules_snoc (l : list (Q * Issue)) (p : Q * Issue) :
  Spec.mergedRules (l ++ [p])
  = if existsb (Spec.ofRule (id (snd p))) l
    then Spec.mergedRules l
    else Spec.mergedRules l ++ [snd p].
Proof.
  induction l as [| q rest IH]; [reflexivity |].
  cbn [app Spec.mergedRules existsb]. rewrite IH.
  destruct (existsb (Spec.ofRule (id (snd p))) rest).
  - now rewrite orb_true_r.
  - rewrite orb_false_r, filter_app. cbn [filter]. unfold Spec.ofRule.
    rewrite (String.eqb_sym (id (snd p))).
    destruct (String.eqb (id (snd q)) (id (snd p))); cbn [negb].
    + now rewrite app_nil_r.
    + reflexivity.
Qed.

Lemma mergedRules_ids (l : list (Q * Issue)) (ruleId : string) :
  In ruleId (map id (Spec.mergedRules l))
  <-> existsb (Spec.ofRule ruleId) l = true.
Proof.
  induction l as [| q rest IH] using rev_ind; [cbn; split; [tauto | discriminate] |].
  rewrite mergedRules_snoc, existsb_app. cbn [existsb]. rewrite orb_false_r.
  destruct (existsb (Spec.ofRule (id (snd q))) rest) eqn:Hq.
  - rewrite IH. split; [intros ->; reflexivity |].
    intros H. apply orb_true_iff in H as [H | H]; [exact H |].
    unfold Spec.ofRule in H. apply String.eqb_eq in H. now rewrite <- H.
  - rewrite map_app, in_app_iff, IH. cbn [map In]. unfold Spec.ofRule at 3.
    rewrite orb_true_iff, String.eqb_eq. tauto.
Qed.

Lemma mergedRules_NoDup (l : list (Q * Issue)) :
  NoDup (map id (Spec.mergedRules l)).
Proof.
  induction l as [| q rest IH] using rev_ind; [constructor |].
  rewrite mergedRules_snoc.
  destruct (existsb (Spec.ofRule (id (snd q))) rest) eqn:Hq; [exact IH |].
  rewrite map_app. cbn [map].
  apply NoDup_app; [exact IH | repeat constructor; intros [] |].
  intros ruleId Hin [<- | []].
  apply mergedRules_ids in Hin. congruence.
Qed.

Lemma mergedRules_incl (l : list (Q * Issue)) (e : Issue) :
  In e (Spec.mergedRules l) -> In e (map snd l).
Proof.
  induction l as [| q rest IH]; [tauto |].
  cbn [Spec.mergedRules map In]. intros [H | H]; [now left |].
  right. apply IH. apply filter_In in H. tauto.
Qed.

Lemma ownProp_entries (l : list (Q * Issue)) (rules : list Issue)
      (ruleId : string) :
  ownProp (map (Spec.entryOf l) rules) ruleId = None
  <-> ~ In ruleId (map id rules).
Proof.
  induction rules as [| e rest IH]; cbn [map ownProp Spec.entryOf In]; [tauto |].
  destruct (String.eqb_spec (id e) ruleId) as [Heq | Hne].
  - split; [discriminate | tauto].
  - rewrite IH. tauto.
Qed.

Lemma filter_ofRule_snoc (l : list (Q * Issue)) (p : Q * Issue)
      (ruleId : string) :
  filter (Spec.ofRule ruleId) (l ++ [p])
  = if String.eqb (id (snd p)) ruleId
    then filter (Spec.ofRule ruleId) l ++ [p]
    else filter (Spec.ofRule ruleId) l.
Proof.
  rewrite filter_app. cbn [filter]. unfold Spec.ofRule at 2.
  destruct (String.eqb (id (snd p)) ruleId); [reflexivity | apply app_nil_r].
Qed.

Lemma entryOf_other (l : list (Q * Issue)) (p : Q * Issue) (e : Issue) :
  id e <> id (snd p) -> Spec.entryOf (l ++ [p]) e = Spec.entryOf l e.
Proof.
  intros Hne. unfold Spec.entryOf. rewrite filter_ofRule_snoc.
  destruct (String.eqb_spec (id (snd p)) (id e)) as [Heq | _];
    [congruence | reflexivity].
Qed.

Lemma entries_other (l : list (Q * Issue)) (p : Q * Issue)
      (rules : list Issue) :
  ~ In (id (snd p)) (map id rules) ->
  map (Spec.entryOf (l ++ [p])) rules = map (Spec.entryOf l) rules.
Proof.
  intros Hnot. apply map_ext_in. intros e He.
  apply entryOf_other. intros Heq. apply Hnot. rewrite <- Heq.
  now apply in_map.
Qed.

Lemma increment_entries (l : list (Q * Issue)) (t : Q) (e : Issue)
      (rules : list Issue) :
  NoDup (map id rules) ->
  increment (map (Spec.entryOf l) rules) (id e) t
  = map (Spec.entryOf (l ++ [(t, e)])) rules.
Proof.
  induction rules as [| r rest IH]; intros Hnodup; [reflexivity |].
  inversion Hnodup as [| ? ? Hnotin Hrest]; subst.
  cbn [map increment]. unfold Spec.entryOf at 1. cbn [fst snd].
  destruct (String.eqb_spec (id r) (id e)) as [Heq | Hne].
  - rewrite (entries_other l (t, e) rest) by (cbn [snd]; now rewrite <- Heq).
    f_equal. unfold Spec.entryOf. cbn [issue count frames].
    rewrite filter_ofRule_snoc. cbn [snd].
    rewrite <- Heq, String.eqb_refl.
    rewrite length_app, map_app. cbn [List.length map fst].
    now rewrite Nat.add_1_r.
  - rewrite IH by exact Hrest. f_equal.
    symmetry. apply entryOf_other. exact Hne.
Qed.

Lemma recordError_step (l : list (Q * Issue)) (t : Q) (e : Issue) :
  isInheritedKey (id e) = false ->
  recordError t (Ok (Spec.countsOf l)) e = Ok (Spec.countsOf (l ++ [(t, e)])).
Proof.
  intros Hown. unfold recordError, bind, getProp.
  unfold Spec.countsOf.
  rewrite mergedRules_snoc. cbn [snd].
  destruct (existsb (Spec.ofRule (id e)) l) eqn:Hseen.
  - destruct (ownProp (map (Spec.entryOf l) (Spec.mergedRules l)) (id e)) eqn:Hfind.
    + now rewrite increment_entries by apply mergedRules_NoDup.
    + apply ownProp_entries in Hfind. exfalso. apply Hfind.
      now apply mergedRules_ids.
  - assert (Hnot : ~ In (id e) (map id (Spec.mergedRules l))).
    { rewrite mergedRules_ids. congruence. }
    destruct (ownProp (map (Spec.entryOf l) (Spec.mergedRules l)) (id e)) eqn:Hfind.
    + exfalso. apply (ownProp_entries l) in Hnot. congruence.
    + rewrite Hown, map_app.
      rewrite (entries_other l (t, e)) by exact Hnot.
      cbn [map]. do 2 f_equal. unfold Spec.entryOf. f_equal.
      rewrite filter_ofRule_snoc. cbn [snd].
      rewrite String.eqb_refl.
      assert (Hnone : filter (Spec.ofRule (id e)) l = []).
      { destruct (filter (Spec.ofRule (id e)) l) as [| q rest] eqn:Hf;
          [reflexivity |].
        assert (Hq : In q (filter (Spec.ofRule (id e)) l))
          by (rewrite Hf; now left).
        apply filter_In in Hq. destruct Hq as [Hq1 Hq2].
        assert (existsb (Spec.ofRule (id e)) l = true)
          by (apply existsb_exists; eauto).
        congruence. }
      rewrite Hnone. reflexivity.
Qed.

Lemma countErrors_fold (frames : list AnalyzedFrame) (acc : result ErrorCounts) :
  fold_left (fun acc frame =>
               fold_left (recordError (time frame)) (errors frame) acc)
            frames acc
  = fold_left (fun acc p => recordError (fst p) acc (snd p))
              (Spec.issueList frames) acc.
Proof.
  revert acc. induction frames as [| f rest IH]; intros acc; [reflexivity |].
  cbn [fold_left Spec.issueList flat_map]. rewrite fold_left_app, IH.
  f_equal. generalize (errors f) acc. clear.
  intros errs. induction errs as [| e errs IH]; intros acc; [reflexivity |].
  cbn [map fold_left fst snd]. apply IH.
Qed.

Lemma countErrors_spec (frames : list AnalyzedFrame) :
  Forall (fun p => isInheritedKey (id (snd p)) = false) (Spec.issueList frames) ->
  countErrors frames = Ok (Spec.countsOf (Spec.issueList frames)).
Proof.
  unfold countErrors. rewrite countErrors_fold.
  generalize (Spec.issueList frames). intros l.
  induction l as [| p rest IH] using rev_ind; intros Hall; [reflexivity |].
  apply Forall_app in Hall. destruct Hall as [Hrest Hp].
  rewrite fold_left_app. cbn [fold_left]. rewrite IH by exact Hrest.
  inversion Hp; subst. destruct p as [t e]. now apply recordError_step.
Qed.

Lemma objectValues_ordinary {A : Type} (own : list (string * A)) :
  Forall (fun entry => isArrayIndex (fst entry) = false) own ->
  objectValues own = map snd own.
Proof.
  intros Hall. unfold objectValues.
  assert (Hnone : filter (fun entry => isArrayIndex (fst entry)) own = []).
  { induction Hall as [| entry rest Hentry _ IH]; [reflexivity |].
    cbn [filter]. rewrite Hentry. exact IH. }
  assert (Hsame : filter (fun entry => negb (isArrayIndex (fst entry))) own = own).
  { clear Hnone. induction Hall as [| entry rest Hentry _ IH]; [reflexivity |].
    cbn [filter]. rewrite Hentry. cbn [negb]. f_equal. exact IH. }
  now rewrite Hnone, Hsame.
Qed.

(** Insertion into a list whose front outranks the new element. *)
Lemma insertSorted_skip {A : Type} (le : A -> A -> bool) (a : A)
      (front back : list A) :
  Forall (fun b => le a b = false) front ->
  insertSorted le a (front ++ back) = front ++ insertSorted le a back.
Proof.
  induction 1 as [| b front Hb _ IH]; [reflexivity |].
  cbn [app insertSorted]. rewrite Hb. now f_equal.
Qed.

Lemma insertSorted_head {A : Type} (le : A -> A -> bool) (a : A)
      (back : list A) :
  Forall (fun b => le a b = true) back ->
  insertSorted le a back = a :: back.
Proof.
  intros Hall. destruct Hall as [| b back Hb _]; [reflexivity |].
  cbn [insertSorted]. now rewrite Hb.
Qed.

Lemma filter_Forall {A : Type} (p : A -> bool) (P : A -> Prop) (l : list A) :
  (forall a, p a = true -> P a) -> Forall P (filter p l).
Proof.
  intros H. apply Forall_forall. intros a Ha.
  apply filter_In in Ha. now apply H.
Qed.

Lemma stableSort_bySeverity (l : list Issue) (f : Issue -> SignificantError) :
  (forall e, severityOf (f e) = severity e) ->
  stableSort bySeverity (map f l) = map f (Spec.bySeverityDescending l).
Proof.
  intros Hsev. induction l as [| a rest IH]; [reflexivity |].
  cbn [map stableSort fold_right].
  change (fold_right (insertSorted bySeverity) [] (map f rest))
    with (stableSort bySeverity (map f rest)).
  rewrite IH. unfold Spec.bySeverityDescending.
  cbn [flat_map filter]. rewrite !app_nil_r, !map_app.
  assert (Hle : forall s e, Spec.hasSeverity s e = true ->
                            bySeverity (f a) (f e)
                            = (severityOrder s <=? severityOrder (severity a))%nat).
  { intros s e He. unfold bySeverity. rewrite !Hsev.
    unfold Spec.hasSeverity in He.
    destruct s, (severity e); try discriminate He; reflexivity. }
  assert (Hbucket : forall s (v : bool),
             (severityOrder s <=? severityOrder (severity a))%nat = v ->
             Forall (fun b => bySeverity (f a) b = v)
                    (map f (filter (Spec.hasSeverity s) rest))).
  { intros s v Hv. apply Forall_forall. intros b Hb.
    apply in_map_iff in Hb. destruct Hb as (e & <- & He).
    apply filter_In in He. rewrite (Hle s e) by tauto. exact Hv. }
  assert (Hmine : forall s, Spec.hasSeverity s a
                            = match s, severity a with
                              | critical, critical | high, high
                              | medium, medium | low, low => true
                              | _, _ => false
                              end) by reflexivity.
  rewrite !Hmine.
  destruct (severity a) eqn:Ha; cbn [map app].
  - apply insertSorted_head. repeat (apply Forall_app; split);
      apply Hbucket; reflexivity.
  - rewrite insertSorted_skip by (apply Hbucket; reflexivity).
    f_equal. apply insertSorted_head. repeat (apply Forall_app; split);
      apply Hbucket; reflexivity.
  - rewrite insertSorted_skip by (apply Hbucket; reflexivity).
    f_equal.
    rewrite insertSorted_skip by (apply Hbucket; reflexivity).
    f_equal. apply insertSorted_head. repeat (apply Forall_app; split);
      apply Hbucket; reflexivity.
  - rewrite insertSorted_skip by (apply Hbucket; reflexivity).
    f_equal.
    rewrite insertSorted_skip by (apply Hbucket; reflexivity).
    f_equal.
    rewrite insertSorted_skip by (apply Hbucket; reflexivity).
    f_equal. apply insertSorted_head. apply Hbucket; reflexivity.
Qed.

Lemma ordinaryKey_split (key : string) :
  ordinaryKey key = true ->
  isInheritedKey key = false /\ isArrayIndex key = false.
Proof.
  unfold ordinaryKey. intros H. apply andb_true_iff in H.
  destruct H as [H1 H2]. apply negb_true_iff in H1, H2. tauto.
Qed.

Lemma thresholdFor_spec (s : Severity) : thresholdFor s = Spec.threshold s.
Proof. destruct s; reflexivity. Qed.

(** The aggregation computes the specification's list: the merged
    rules, those retained, most severe first. *)
Lemma significantErrors_spec (frames : list AnalyzedFrame) :
  Forall (fun p => ordinaryKey (id (snd p)) = true) (Spec.issueList frames) ->
  significantErrors frames
  = Ok (map (Spec.report frames)
            (Spec.bySeverityDescending
               (filter (Spec.retained frames)
                       (Spec.mergedRules (Spec.issueList frames))))).
Proof.
  intros Hall. unfold significantErrors.
  destruct frames as [| f rest] eqn:Hframes; [reflexivity |].
  rewrite <- Hframes in *. clear Hframes f rest.
  rewrite countErrors_spec.
  2:{ eapply Forall_impl; [| exact Hall].
      intros p Hp. now apply ordinaryKey_split in Hp. }
  cbn [bind]. f_equal.
  rewrite objectValues_ordinary.
  2:{ unfold Spec.countsOf. apply Forall_forall. intros entry Hentry.
      apply in_map_iff in Hentry. destruct Hentry as (e & <- & He).
      apply mergedRules_incl, in_map_iff in He.
      destruct He as (p & <- & Hp).
      rewrite Forall_forall in Hall. specialize (Hall p Hp).
      now apply ordinaryKey_split in Hall. }
  unfold Spec.countsOf. rewrite !map_map.
  rewrite (map_ext _ (Spec.report frames)).
  2:{ intros e. unfold withFrequency, Spec.report, Spec.entryOf,
        Spec.frequencyOf. cbn [snd count issue].
      now rewrite thresholdFor_spec. }
  assert (Hfilter : forall l,
             filter isSignificant (map (Spec.report frames) l)
             = map (Spec.report frames) (filter (Spec.retained frames) l)).
  { induction l as [| e l IH]; [reflexivity |].
    cbn [map filter]. rewrite IH.
    change (isSignificant (Spec.report frames e)) with (Spec.retained frames e).
    now destruct (Spec.retained frames e). }
  rewrite Hfilter. apply stableSort_bySeverity. reflexivity.
Qed.

Lemma hasSeverity_iff (s : Severity) (e : Issue) :
  Spec.hasSeverity s e = true <-> severity e = s.
Proof.
  unfold Spec.hasSeverity.
  destruct s, (severity e); split; intros H;
    try reflexivity; try discriminate H.
Qed.

Lemma bySeverityDescending_In (l : list Issue) (e : Issue) :
  In e (Spec.bySeverityDescending l) <-> In e l.
Proof.
  unfold Spec.bySeverityDescending. cbn [flat_map].
  rewrite app_nil_r, !in_app_iff, !filter_In, !hasSeverity_iff.
  destruct (severity e); intuition congruence.
Qed.

Lemma filter_filter_severity (s s' : Severity) (l : list Issue) :
  filter (Spec.hasSeverity s) (filter (Spec.hasSeverity s') l)
  = if Nat.eqb (Spec.rank s) (Spec.rank s')
    then filter (Spec.hasSeverity s) l else [].
Proof.
  induction l as [| e l IH]; [now destruct (Nat.eqb _ _) |].
  cbn [filter].
  destruct (Spec.hasSeverity s' e) eqn:H'; cbn [filter]; rewrite IH.
  - apply hasSeverity_iff in H'.
    unfold Spec.hasSeverity. rewrite H'.
    destruct s, s'; reflexivity.
  - destruct (Nat.eqb (Spec.rank s) (Spec.rank s')) eqn:Hrank; [| reflexivity].
    assert (s = s') by (destruct s, s'; try reflexivity; discriminate Hrank).
    subst s'. now rewrite H'.
Qed.

Lemma bySeverityDescending_stable (s : Severity) (l : list Issue) :
  filter (Spec.hasSeverity s) (Spec.bySeverityDescending l)
  = filter (Spec.hasSeverity s) l.
Proof.
  unfold Spec.bySeverityDescending. cbn [flat_map].
  rewrite app_nil_r, !filter_app, !filter_filter_severity.
  destruct s; cbn [Spec.rank Nat.eqb app]; now rewrite ?app_nil_r.
Qed.

Lemma bySeverityDescending_sorted (l : list Issue) :
  StronglySorted (fun a b => (Spec.rank (severity b) <= Spec.rank (severity a))%nat)
                 (Spec.bySeverityDescending l).
Proof.
  unfold Spec.bySeverityDescending. cbn [flat_map]. rewrite app_nil_r.
  assert (Hbucket : forall s, Forall (fun e => severity e = s)
                                     (filter (Spec.hasSeverity s) l)).
  { intros s. apply filter_Forall. intros e. apply hasSeverity_iff. }
  assert (Happ : forall (front back : list Issue) (lo : nat),
             StronglySorted
               (fun a b => (Spec.rank (severity b) <= Spec.rank (severity a))%nat)
               back ->
             Forall (fun e => (Spec.rank (severity e) <= lo)%nat) back ->
             Forall (fun e => Spec.rank (severity e) = lo) front ->
             StronglySorted
               (fun a b => (Spec.rank (severity b) <= Spec.rank (severity a))%nat)
               (front ++ back)
             /\ Forall (fun e => (Spec.rank (severity e) <= lo)%nat)
                       (front ++ back)).
  { intros front back lo Hback Hlow Hfront.
    induction Hfront as [| e front He _ IH]; [split; assumption |].
    destruct IH as [IHs IHf]. cbn [app]. split.
    - constructor; [exact IHs |].
      eapply Forall_impl; [| exact IHf]. intros b Hb. cbn beta in *. lia.
    - constructor; [lia | exact IHf]. }
  assert (Hrank : forall s, Forall (fun e => Spec.rank (severity e) = Spec.rank s)
                                   (filter (Spec.hasSeverity s) l)).
  { intros s. eapply Forall_impl; [| apply Hbucket].
    intros e He. cbn beta in He. now rewrite He. }
  assert (H0 : StronglySorted
                 (fun a b => (Spec.rank (severity b) <= Spec.rank (severity a))%nat)
                 (filter (Spec.hasSeverity low) l)
               /\ Forall (fun e => (Spec.rank (severity e) <= 0)%nat)
                         (filter (Spec.hasSeverity low) l)).
  { rewrite <- (app_nil_r (filter (Spec.hasSeverity low) l)).
    apply Happ; [constructor | constructor | apply (Hrank low)]. }
  destruct H0 as [S0 F0].
  destruct (Happ (filter (Spec.hasSeverity medium) l) _ 1%nat S0) as [S1 F1];
    [eapply Forall_impl; [| exact F0]; cbn beta; intros; lia
    | apply (Hrank medium) |].
  destruct (Happ (filter (Spec.hasSeverity high) l) _ 2%nat S1) as [S2 F2];
    [eapply Forall_impl; [| exact F1]; cbn beta; intros; lia
    | apply (Hrank high) |].
  destruct (Happ (filter (Spec.hasSeverity critical) l) _ 3%nat S2) as [S3 F3];
    [eapply Forall_impl; [| exact F2]; cbn beta; intros; lia
    | apply (Hrank critical) |].
  exact S3.
Qed.

(** C3.  A merged issue is among the significant errors exactly when
    its frequency (occurrences over the number of analysed frames)
    reaches the threshold of its severity (0.15, 0.20, 0.25, 0.30 for
    critical, high, medium, low), the threshold included; the
    significant errors are ordered by descending severity, and those of
    one severity keep the order in which their rules first occurred.
    Rule ids are ordinary property keys, as all ids of the catalog are. *)
Theorem significant_errors_by_frequency_and_severity
        (frames : list AnalyzedFrame) :
  Forall (fun p => ordinaryKey (id (snd p)) = true) (Spec.issueList frames) ->
  let merged := Spec.mergedRules (Spec.issueList frames) in
  exists kept : list Issue,
    significantErrors frames = Ok (map (Spec.report frames) kept)
    /\ (forall e, In e kept <->
                  In e merged
                  /\ Spec.threshold (severity e) <= Spec.frequencyOf (id e) frames)
    /\ StronglySorted
         (fun a b => (Spec.rank (severity b) <= Spec.rank (severity a))%nat) kept
    /\ (forall s, filter (Spec.hasSeverity s) kept
                  = filter (Spec.hasSeverity s)
                           (filter (Spec.retained frames) merged)).
Proof.
  intros Hall merged.
  exists (Spec.bySeverityDescending (filter (Spec.retained frames) merged)).
  split; [now apply significantErrors_spec |].
  split; [| split].
  - intros e. rewrite bySeverityDescending_In, filter_In.
    unfold Spec.retained. now rewrite Qle_bool_iff.
  - apply bySeverityDescending_sorted.
  - intros s. apply bySeverityDescending_stable.
Qed.

End AggregationFacts.

Lemma catalog_rule_ids_ordinary :
  forallb Aggregation.ordinaryKey Validation.catalogRuleIds = true.
Proof. reflexivity. Qed.

Lemma significant_errors_by_frequency_and_severity_witness :
  let frames := Synthetic.flaggedRecording in
  let merged := Spec.mergedRules (Spec.issueList frames) in
  exists kept : list Data.Issue,
    Aggregation.significantErrors frames = Js.Ok (map (Spec.report frames) kept)
    /\ (forall e, In e kept <->
                  In e merged
                  /\ (Spec.threshold (Data.severity e)
                      <= Spec.frequencyOf (Data.id e) frames)%Q)
    /\ StronglySorted
         (fun a b => (Spec.rank (Data.severity b)
                      <= Spec.rank (Data.severity a))%nat) kept
    /\ (forall s, filter (Spec.hasSeverity s) kept
                  = filter (Spec.hasSeverity s)
                           (filter (Spec.retained frames) merged)).
Proof.
  apply (significant_errors_by_frequency_and_severity Synthetic.flaggedRecording).
  apply Forall_forall. apply (proj1 (forallb_forall _ _)).
  vm_compute. reflexivity.
Defined.

(** On the flagged recording: a critical rule seen on 3 of 20 frames
    (frequency 0.15) is kept and a high rule seen on 3 frames is
    dropped; the two medium rules kept stay in their order of first
    occurrence. *)
Example significant_errors_flagged :
  exists significant,
    Aggregation.significantErrors Synthetic.flaggedRecording = Js.Ok significant
    /\ map (fun e => Data.id (Aggregation.issue (Aggregation.error e))) significant
       = [ "back_rounding_squat"; "heel_lift"; "shallow_depth";
           "asymmetric_descent"; "knee_forward_travel" ]%string
    /\ map (fun e => Qred (Aggregation.frequency e)) significant
       = [ 3 # 20; 1 # 5; 1 # 4; 1 # 2; 3 # 10 ]%Q.
Proof.
  eexists. split; [vm_compute; reflexivity |]. split; vm_compute; reflexivity.
Qed.

(** ** Repetition counter on three cycles *)

Lemma filter_all {A : Type} (p : A -> bool) (l : list A) :
  Forall (fun a => p a = true) l -> filter p l = l.
Proof.
  induction 1 as [| a l Ha _ IH]; [reflexivity |].
  cbn [filter]. now rewrite Ha, IH.
Qed.

(** C5 (the code departs from the claim).  Three squats from standing
    (hips 0.40) to the bottom (0.65) and back, sampled over frames 0 to
    36, have an amplitude of 0.125 above the adaptive threshold 0.08;
    countReps reports one repetition, from frame 12 over frame 18 to
    frame 24, instead of three: extrema are sought strictly inside the
    series, so the standing positions at frames 0 and 36 are not found
    and the first and the third squat lack a valley. *)
Theorem three_cycles_one_repetition :
  let r := RepCounting.countReps Synthetic.flatAngle Synthetic.threeSquats
                                 "squat" in
  RepCounting.adaptiveThreshold (Some 0.08%Q)
    (map RepCounting.valueOrZero
         (filter RepCounting.nonZeroValue (RepCounting.metricData r)))
  = Some 0.08%Q
  /\ RepCounting.count r = 1%nat
  /\ RepCounting.count r <> 3%nat
  /\ map (fun range => (RepCounting.startIndex range,
                        RepCounting.turnIndex range,
                        RepCounting.endIndex range))
         (RepCounting.repRanges r)
     = [(12, 18, 24)]%nat.
Proof.
  cbv zeta. split; [vm_compute; reflexivity |].
  split; [vm_compute; reflexivity |].
  split; [vm_compute; discriminate |].
  vm_compute. reflexivity.
Qed.

(** * Further properties of the code *)

(** ** Repetition counter: invariants of every count *)

Section SortFacts.

Variable A : Type.
Variable key : A -> nat.

Lemma insertSorted_perm (a : A) (l : list A) :
  Permutation (Js.insertSorted (fun x y => (key x <=? key y)%nat) a l) (a :: l).
Proof.
  induction l as [| b rest IH]; [reflexivity |].
  cbn [Js.insertSorted]. destruct (key a <=? key b)%nat; [reflexivity |].
  rewrite IH. apply perm_swap.
Qed.

Lemma stableSort_perm (l : list A) :
  Permutation (Js.stableSort (fun x y => (key x <=? key y)%nat) l) l.
Proof.
  induction l as [| a rest IH]; [reflexivity |].
  unfold Js.stableSort in *. cbn [fold_right].
  rewrite insertSorted_perm. now apply perm_skip.
Qed.

Lemma insertSorted_sorted (a : A) (l : list A) :
  StronglySorted (fun x y => (key x <= key y)%nat) l ->
  StronglySorted (fun x y => (key x <= key y)%nat) (Js.insertSorted (fun x y => (key x <=? key y)%nat) a l).
Proof.
  induction 1 as [| b rest Hrest IH Hb]; cbn [Js.insertSorted].
  - constructor; constructor.
  - destruct (Nat.leb_spec (key a) (key b)) as [Hab | Hab].
    + constructor; [now constructor |].
      constructor; [exact Hab |].
      eapply Forall_impl; [| exact Hb]. cbn beta. intros c Hc. lia.
    + constructor; [exact IH |].
      eapply Permutation_Forall; [symmetry; apply insertSorted_perm |].
      constructor; [lia | exact Hb].
Qed.

Lemma stableSort_sorted (l : list A) :
  StronglySorted (fun x y => (key x <= key y)%nat) (Js.stableSort (fun x y => (key x <=? key y)%nat) l).
Proof.
  induction l as [| a rest IH]; [constructor |].
  cbn [Js.stableSort fold_right]. now apply insertSorted_sorted.
Qed.

Lemma sorted_strict (l : list A) :
  StronglySorted (fun x y => (key x <= key y)%nat) l ->
  NoDup (map key l) ->
  StronglySorted (fun x y => (key x < key y)%nat) l.
Proof.
  induction 1 as [| a rest Hrest IH Ha]; intros Hnodup; [constructor |].
  cbn [map] in Hnodup. inversion Hnodup as [| ? ? Hnotin Hnodup']; subst.
  constructor; [now apply IH |].
  apply Forall_forall. intros b Hb.
  pose proof (proj1 (Forall_forall _ _) Ha b Hb) as Hle. cbn beta in Hle.
  destruct (Nat.eq_dec (key a) (key b)) as [Heq | Hne]; [| lia].
  exfalso. apply Hnotin. rewrite Heq. now apply in_map.
Qed.

Lemma strict_NoDup (l : list A) :
  StronglySorted (fun x y => (key x < key y)%nat) l -> NoDup (map key l).
Proof.
  induction 1 as [| a rest Hrest IH Ha]; [constructor |].
  cbn [map]. constructor; [| exact IH].
  intros Hin. apply in_map_iff in Hin. destruct Hin as [b [Hkey Hb]].
  pose proof (proj1 (Forall_forall _ _) Ha b Hb) as Hlt. cbn beta in Hlt. lia.
Qed.

(** A list in strictly increasing key order is determined by its elements. *)
Lemma strict_unique (l1 l2 : list A) :
  StronglySorted (fun x y => (key x < key y)%nat) l1 ->
  StronglySorted (fun x y => (key x < key y)%nat) l2 ->
  Permutation l1 l2 -> l1 = l2.
Proof.
  intros H1. revert l2. induction H1 as [| a rest Hrest IH Ha]; intros l2 H2 Hperm.
  - apply Permutation_nil in Hperm. now subst.
  - destruct H2 as [| b rest2 Hrest2 Hb].
    + symmetry in Hperm. apply Permutation_nil in Hperm. discriminate.
    + assert (Hab : a = b).
      { assert (Hina : In a (b :: rest2))
          by (eapply Permutation_in; [exact Hperm | now left]).
        assert (Hinb : In b (a :: rest))
          by (eapply Permutation_in; [symmetry; exact Hperm | now left]).
        destruct Hina as [Heq | Hina]; [now symmetry |].
        destruct Hinb as [Heq | Hinb]; [exact Heq |].
        pose proof (proj1 (Forall_forall _ _) Ha b Hinb) as Hlt1.
        pose proof (proj1 (Forall_forall _ _) Hb a Hina) as Hlt2.
        cbn beta in Hlt1, Hlt2. lia. }
      subst b. f_equal. apply IH; [exact Hrest2 |].
      now apply Permutation_cons_inv in Hperm.
Qed.

Lemma stableSort_strict (l sorted : list A) :
  StronglySorted (fun x y => (key x < key y)%nat) sorted ->
  Permutation l sorted ->
  Js.stableSort (fun x y => (key x <=? key y)%nat) l = sorted.
Proof.
  intros Hsorted Hperm. apply strict_unique; [| exact Hsorted |].
  - apply sorted_strict; [apply stableSort_sorted |].
    eapply Permutation_NoDup;
      [apply Permutation_map; symmetry; etransitivity;
       [apply stableSort_perm | exact Hperm] |].
    now apply strict_NoDup.
  - etransitivity; [apply stableSort_perm | exact Hperm].
Qed.

Lemma filter_sorted (R : A -> A -> Prop) (p : A -> bool) (l : list A) :
  StronglySorted R l -> StronglySorted R (filter p l).
Proof.
  induction 1 as [| a rest Hrest IH Ha]; [constructor |].
  cbn [filter]. destruct (p a); [| exact IH].
  constructor; [exact IH |].
  apply Forall_forall. intros b Hb. apply filter_In in Hb.
  exact (proj1 (Forall_forall _ _) Ha b (proj1 Hb)).
Qed.

Lemma filter_partition (p q : A -> bool) (l : list A) :
  (forall a, In a l -> q a = negb (p a)) ->
  Permutation (filter p l ++ filter q l) l.
Proof.
  induction l as [| a rest IH]; intros Hq; [reflexivity |].
  cbn [filter]. rewrite (Hq a (or_introl eq_refl)).
  assert (IH' := IH (fun b Hb => Hq b (or_intror Hb))).
  destruct (p a); cbn [negb app].
  - now apply perm_skip.
  - etransitivity; [symmetry; apply Permutation_middle |]. now apply perm_skip.
Qed.

End SortFacts.

Section CounterFacts.

Import Js Data RepCounting Invariant.
Local Open Scope Q_scope.

Variable calculateAngle : Landmark -> Landmark -> Landmark -> Q.

Lemma extractMetric_index (frames : list Frame) (metricType : option string) :
  map index (extractMetric calculateAngle frames metricType)
  = seq 0 (List.length frames).
Proof.
  unfold extractMetric, mapi. rewrite mapiFrom_map.
  assert (H : forall k, mapiFrom
            (fun (i : nat) (frame : Frame) =>
               index match landmarks frame with
                     | Some ls =>
                         if (List.length ls <? 33)%nat
                         then mkMetricPoint i (time frame) None
                         else mkMetricPoint i (time frame)
                                (metricValue calculateAngle metricType ls)
                     | None => mkMetricPoint i (time frame) None
                     end) k frames
          = seq k (List.length frames)).
  { induction frames as [| f rest IH]; intros k; [reflexivity |].
    cbn [mapiFrom List.length seq]. rewrite IH. f_equal.
    destruct (landmarks f) as [ls |]; [| reflexivity].
    now destruct (List.length ls <? 33)%nat. }
  apply H.
Qed.

Lemma seq_sorted (start len : nat) : StronglySorted lt (seq start len).
Proof.
  revert start. induction len as [| len IH]; intros start; [constructor |].
  cbn [seq]. constructor; [apply IH |].
  apply Forall_forall. intros k Hk. apply in_seq in Hk. lia.
Qed.

Lemma sorted_map {A B : Type} (R : B -> B -> Prop) (f : A -> B) (l : list A) :
  StronglySorted R (map f l) -> StronglySorted (fun a b => R (f a) (f b)) l.
Proof.
  induction l as [| a rest IH]; intros H; [constructor |].
  cbn [map] in H. inversion H as [| ? ? Hrest Ha]; subst.
  constructor; [now apply IH |].
  apply Forall_forall. intros b Hb.
  exact (proj1 (Forall_forall _ _) Ha (f b) (in_map f _ _ Hb)).
Qed.

(** The points with a value are in frame order and lie inside the
    recording. *)
Lemma validData_sorted (frames : list Frame) (metricType : option string) :
  let validData :=
    filter hasValue (extractMetric calculateAngle frames metricType) in
  StronglySorted (fun a b => (index a < index b)%nat) validData
  /\ Forall (fun d => (index d < List.length frames)%nat) validData.
Proof.
  cbn zeta.
  pose proof (extractMetric_index frames metricType) as Hindex.
  split.
  - apply filter_sorted. apply (sorted_map lt index).
    rewrite Hindex. apply seq_sorted.
  - apply Forall_forall. intros d Hd. apply filter_In in Hd.
    destruct Hd as [Hd _].
    apply (in_map index) in Hd. rewrite Hindex in Hd. apply in_seq in Hd. lia.
Qed.


Lemma sorted_nth_error {A : Type} (R : A -> A -> Prop) (l : list A)
      (i j : nat) (a b : A) :
  StronglySorted R l -> (i < j)%nat ->
  nth_error l i = Some a -> nth_error l j = Some b -> R a b.
Proof.
  intros Hsorted. revert i j.
  induction Hsorted as [| c rest Hrest IH Hc]; intros i j Hlt Hi Hj.
  - destruct i; discriminate.
  - destruct j as [| j]; [lia |]. cbn [nth_error] in Hj.
    destruct i as [| i].
    + cbn [nth_error] in Hi. injection Hi as <-.
      apply nth_error_In in Hj.
      exact (proj1 (Forall_forall _ _) Hc b Hj).
    + cbn [nth_error] in Hi. apply (IH i j); [lia | assumption | assumption].
Qed.

(** What the extrema loop records: the point at a position strictly
    inside the smoothed series that passes the test. *)
Lemma rawExtrema_in (test : Q -> Q -> Q -> Q -> Q -> bool)
      (validData : list MetricPoint) (smoothed : list Q) (e : Extremum) :
  In e (rawExtrema test validData smoothed) ->
  exists i d,
    (2 <= i)%nat /\ (i + 2 < List.length smoothed)%nat
    /\ test (nth (i - 2) smoothed 0) (nth (i - 1) smoothed 0) (nth i smoothed 0)
            (nth (i + 1) smoothed 0) (nth (i + 2) smoothed 0) = true
    /\ nth_error validData i = Some d
    /\ e = mkExtremum (index d) (mtime d) (nth i smoothed 0).
Proof.
  unfold rawExtrema. intros Hin. apply in_flat_map in Hin.
  destruct Hin as [i [Hi He]]. apply in_seq in Hi.
  destruct (test _ _ _ _ _) eqn:Htest; [| contradiction].
  destruct (nth_error validData i) as [d |] eqn:Hd; [| contradiction].
  destruct He as [He | []].
  exists i, d. repeat split; try assumption; try lia. now symmetry.
Qed.

Lemma flat_map_ascending (validData : list MetricPoint)
      (f : nat -> list Extremum) (start len : nat) :
  StronglySorted (fun a b => (index a < index b)%nat) validData ->
  (forall i e, In e (f i) ->
               exists d, nth_error validData i = Some d /\ eindex e = index d) ->
  (forall i, (List.length (f i) <= 1)%nat) ->
  ascending (flat_map f (seq start len)).
Proof.
  intros Hsorted Hf Hone. revert start.
  induction len as [| len IH]; intros start; [constructor |].
  cbn [seq flat_map].
  pose proof (Hone start) as Hlen. pose proof (Hf start) as Hstart.
  destruct (f start) as [| e [| e' more]]; cbn [List.length] in Hlen; [| | lia].
  - apply IH.
  - cbn [app]. constructor; [apply IH |].
    apply Forall_forall. intros e2 He2. apply in_flat_map in He2.
    destruct He2 as [j [Hj He2]]. apply in_seq in Hj.
    destruct (Hstart e (or_introl eq_refl)) as [d [Hd Hed]].
    destruct (Hf j e2 He2) as [d2 [Hd2 Hed2]].
    rewrite Hed, Hed2.
    apply (sorted_nth_error (fun a b => (index a < index b)%nat)
                            validData start j); try assumption. lia.
Qed.

Lemma rawExtrema_ascending (test : Q -> Q -> Q -> Q -> Q -> bool)
      (validData : list MetricPoint) (smoothed : list Q) :
  StronglySorted (fun a b => (index a < index b)%nat) validData ->
  ascending (rawExtrema test validData smoothed).
Proof.
  intros Hsorted. unfold rawExtrema.
  apply (flat_map_ascending validData); [exact Hsorted | |].
  - intros i e He.
    destruct (test _ _ _ _ _); [| contradiction].
    destruct (nth_error validData i) as [d |]; [| contradiction].
    destruct He as [<- | []]. now exists d.
  - intros i. destruct (test _ _ _ _ _); [| cbn; lia].
    destruct (nth_error validData i); cbn; lia.
Qed.

Lemma extremum_exclusive (prev2 prev curr next next2 : Q) :
  isLocalMax prev2 prev curr next next2
  && isLocalMin prev2 prev curr next next2 = false.
Proof.
  unfold isLocalMax, isLocalMin, Qlt_bool.
  destruct (Qle_bool curr prev) eqn:H1; [reflexivity |].
  destruct (Qle_bool prev curr) eqn:H2; cbn [negb andb];
    [apply andb_false_r |].
  exfalso.
  destruct (Qlt_le_dec prev curr) as [Hlt | Hle].
  - apply Qlt_le_weak in Hlt. apply Qle_bool_iff in Hlt. congruence.
  - apply Qle_bool_iff in Hle. congruence.
Qed.

(** No frame is both a peak and a valley. *)
Lemma rawExtrema_disjoint (validData : list MetricPoint) (smoothed : list Q)
      (e e' : Extremum) :
  StronglySorted (fun a b => (index a < index b)%nat) validData ->
  In e (rawExtrema isLocalMax validData smoothed) ->
  In e' (rawExtrema isLocalMin validData smoothed) ->
  eindex e <> eindex e'.
Proof.
  intros Hsorted He He'.
  apply rawExtrema_in in He. destruct He as [i [d [_ [_ [Hmax [Hd ->]]]]]].
  apply rawExtrema_in in He'. destruct He' as [j [d' [_ [_ [Hmin [Hd' ->]]]]]].
  cbn [eindex]. intros Heq.
  destruct (Nat.lt_trichotomy i j) as [Hlt | [Hij | Hlt]].
  - pose proof (sorted_nth_error _ validData i j d d' Hsorted Hlt Hd Hd') as H.
    cbn beta in H. lia.
  - subst j. pose proof (extremum_exclusive
                          (nth (i - 2) smoothed 0) (nth (i - 1) smoothed 0)
                          (nth i smoothed 0) (nth (i + 1) smoothed 0)
                          (nth (i + 2) smoothed 0)) as Hex.
    rewrite Hmax, Hmin in Hex. discriminate.
  - pose proof (sorted_nth_error _ validData j i d' d Hsorted Hlt Hd' Hd) as H.
    cbn beta in H. lia.
Qed.

Lemma rawExtrema_count (validData : list MetricPoint) (smoothed : list Q) :
  (List.length (rawExtrema isLocalMax validData smoothed)
   + List.length (rawExtrema isLocalMin validData smoothed)
   <= List.length smoothed - 4)%nat.
Proof.
  unfold rawExtrema.
  assert (H : forall l : list nat,
             (List.length
                (flat_map (fun i =>
                   if isLocalMax (nth (i - 2) smoothed 0%Q) (nth (i - 1) smoothed 0%Q)
                                 (nth i smoothed 0%Q) (nth (i + 1) smoothed 0%Q)
                                 (nth (i + 2) smoothed 0%Q)
                   then match nth_error validData i with
                        | Some d => [mkExtremum (index d) (mtime d) (nth i smoothed 0%Q)]
                        | None => []
                        end
                   else []) l)
              + List.length
                  (flat_map (fun i =>
                     if isLocalMin (nth (i - 2) smoothed 0%Q) (nth (i - 1) smoothed 0%Q)
                                   (nth i smoothed 0%Q) (nth (i + 1) smoothed 0%Q)
                                   (nth (i + 2) smoothed 0%Q)
                     then match nth_error validData i with
                          | Some d => [mkExtremum (index d) (mtime d) (nth i smoothed 0%Q)]
                          | None => []
                          end
                     else []) l)
              <= List.length l)%nat).
  { induction l as [| i rest IH]; [cbn; lia |].
    cbn [flat_map]. rewrite !length_app. cbn [List.length].
    pose proof (extremum_exclusive
                  (nth (i - 2) smoothed 0) (nth (i - 1) smoothed 0)
                  (nth i smoothed 0) (nth (i + 1) smoothed 0)
                  (nth (i + 2) smoothed 0)) as Hex.
    destruct (isLocalMax _ _ _ _ _); destruct (isLocalMin _ _ _ _ _);
      try discriminate;
      destruct (nth_error validData i); cbn [List.length]; lia. }
  etransitivity; [apply H |]. now rewrite length_seq.
Qed.


(** The significance filter keeps a sub-sequence of the points. *)
Lemma keepSignificant_incl (minAmplitude : option Q) (lastPoint : option Extremum)
      (points : list Extremum) (e : Extremum) :
  In e (keepSignificant minAmplitude lastPoint points) -> In e points.
Proof.
  revert lastPoint. induction points as [| p rest IH]; intros lastPoint Hin;
    [contradiction |].
  cbn [keepSignificant] in Hin. destruct lastPoint as [lp |].
  - destruct (geThreshold _ _).
    + destruct Hin as [-> | Hin]; [now left | right; eauto].
    + right. eauto.
  - destruct Hin as [-> | Hin]; [now left | right; eauto].
Qed.

Lemma keepSignificant_sorted (R : Extremum -> Extremum -> Prop)
      (minAmplitude : option Q) (lastPoint : option Extremum)
      (points : list Extremum) :
  StronglySorted R points ->
  StronglySorted R (keepSignificant minAmplitude lastPoint points).
Proof.
  intros Hsorted. revert lastPoint.
  induction Hsorted as [| p rest Hrest IH Hp]; intros lastPoint; [constructor |].
  assert (Hkeep : forall lp,
             StronglySorted R (p :: keepSignificant minAmplitude lp rest)).
  { intros lp. constructor; [apply IH |].
    apply Forall_forall. intros e He. apply keepSignificant_incl in He.
    exact (proj1 (Forall_forall _ _) Hp e He). }
  cbn [keepSignificant]. destruct lastPoint as [lp |]; [| apply Hkeep].
  destruct (geThreshold _ _); [apply Hkeep | apply IH].
Qed.

Lemma keepSignificant_length (minAmplitude : option Q)
      (lastPoint : option Extremum) (points : list Extremum) :
  (List.length (keepSignificant minAmplitude lastPoint points)
   <= List.length points)%nat.
Proof.
  revert lastPoint. induction points as [| p rest IH]; intros lastPoint;
    [cbn; lia |].
  cbn [keepSignificant]. destruct lastPoint as [lp |].
  - destruct (geThreshold _ _); cbn [List.length].
    + specialize (IH (Some p)). lia.
    + specialize (IH (Some lp)). lia.
  - cbn [List.length]. specialize (IH (Some p)). lia.
Qed.

(** Two successive points that are kept differ by the minimum amplitude. *)
Lemma keepSignificant_gaps_from (t : Q) (lastPoint : Extremum)
      (points : list Extremum) :
  Shape.gapsAtLeast t
    (lastPoint :: keepSignificant (Some t) (Some lastPoint) points) = true.
Proof.
  revert lastPoint. induction points as [| p rest IH]; intros lastPoint;
    [reflexivity |].
  cbn [keepSignificant geThreshold].
  destruct (Qle_bool t (Qabs (evalue p - evalue lastPoint))) eqn:Hgap.
  - cbn [Shape.gapsAtLeast]. rewrite Hgap. cbn [andb]. apply IH.
  - apply IH.
Qed.

Lemma keepSignificant_gaps (t : Q) (points : list Extremum) :
  Shape.gapsAtLeast t (keepSignificant (Some t) None points) = true.
Proof.
  destruct points as [| p rest]; [reflexivity |].
  cbn [keepSignificant]. apply keepSignificant_gaps_from.
Qed.

(** With a NaN amplitude only the first point is kept. *)
Lemma keepSignificant_nan (points : list Extremum) :
  (List.length (keepSignificant None None points) <= 1)%nat.
Proof.
  destruct points as [| p rest]; [cbn; lia |].
  cbn [keepSignificant List.length].
  assert (H : keepSignificant None (Some p) rest = []).
  { generalize p. induction rest as [| q rest IH]; intros lp; [reflexivity |].
    cbn [keepSignificant geThreshold]. apply IH. }
  rewrite H. cbn. lia.
Qed.

Lemma hasIndex_true (l : list Extremum) (e : Extremum) :
  hasIndex l e = true <-> exists q, In q l /\ eindex q = eindex e.
Proof.
  unfold hasIndex. rewrite existsb_exists.
  split; intros [q [Hq Heq]]; exists q; split; try assumption.
  - now apply Nat.eqb_eq.
  - now apply Nat.eqb_eq.
Qed.


Section Scan.

Variable down : bool.
Variables isStart isTurn : Extremum -> bool.
Variable frames : list Frame.

Lemma scanTriplets_skip (p : Extremum) (points : list Extremum) :
  isStart p = false ->
  scanTriplets down isStart isTurn frames (p :: points)
  = scanTriplets down isStart isTurn frames points.
Proof.
  intros Hp. destruct points as [| q [| q' rest]]; try reflexivity.
  cbn [scanTriplets]. now rewrite Hp.
Qed.

Lemma scanTriplets_cons (p1 p2 p3 : Extremum) (rest : list Extremum) :
  scanTriplets down isStart isTurn frames (p1 :: p2 :: p3 :: rest)
  = (if isStart p1 && isTurn p2 && isStart p3 then
       [ mkRepRange down (eindex p1) (eindex p2) (eindex p3)
           (frameTime frames (eindex p1)) (frameTime frames (eindex p2))
           (frameTime frames (eindex p3))
           (frameTime frames (eindex p3) - frameTime frames (eindex p1))
           (if down then Qabs (evalue p1 - evalue p2)
            else Qabs (evalue p2 - evalue p1)) ]
     else [])
    ++ scanTriplets down isStart isTurn frames (p2 :: p3 :: rest).
Proof. reflexivity. Qed.

(** Every range is made of three points of the series, the first of
    which is a start point and the second a turning point. *)
Lemma scanTriplets_in (points : list Extremum) (r : RepRange) :
  ascending points ->
  In r (scanTriplets down isStart isTurn frames points) ->
  exists p1 p2 p3,
    In p1 points /\ In p3 points
    /\ isStart p1 = true /\ isTurn p2 = true
    /\ startIndex r = eindex p1 /\ turnIndex r = eindex p2
    /\ endIndex r = eindex p3
    /\ (eindex p1 < eindex p2 < eindex p3)%nat.
Proof.
  intros Hsorted. induction Hsorted as [| p1 rest Hrest IH Hp1]; intros Hin;
    [contradiction |].
  destruct rest as [| p2 [| p3 rest']]; try contradiction.
  cbn [scanTriplets] in Hin. apply in_app_or in Hin.
  destruct Hin as [Hin | Hin].
  - destruct (isStart p1) eqn:H1; [| contradiction].
    destruct (isTurn p2) eqn:H2; [| contradiction].
    destruct (isStart p3) eqn:H3; [| contradiction].
    destruct Hin as [<- | []].
    exists p1, p2, p3. cbn [startIndex turnIndex endIndex].
    inversion Hrest as [| ? ? _ Hp2]; subst.
    pose proof (proj1 (Forall_forall _ _) Hp1 p2 (or_introl eq_refl)) as H12.
    pose proof (proj1 (Forall_forall _ _) Hp2 p3 (or_introl eq_refl)) as H23.
    cbn beta in H12, H23.
    repeat split; try assumption; try reflexivity; try lia.
    + now left.
    + right. right. now left.
  - destruct (IH Hin) as [q1 [q2 [q3 [Hq1 [Hq3 H]]]]].
    exists q1, q2, q3. repeat split; try apply H; now right.
Qed.

(** A range starts no earlier than the one before it ends. *)
Lemma scanTriplets_apart (points : list Extremum) :
  ascending points ->
  (forall e, In e points -> isStart e && isTurn e = false) ->
  StronglySorted (fun a b => (endIndex a <= startIndex b)%nat)
                 (scanTriplets down isStart isTurn frames points).
Proof.
  intros Hsorted. induction Hsorted as [| p1 rest Hrest IH Hp1]; intros Hex;
    [constructor |].
  assert (IH' := IH (fun e He => Hex e (or_intror He))).
  destruct rest as [| p2 [| p3 rest']]; try constructor.
  cbn [scanTriplets].
  destruct (isStart p1 && isTurn p2 && isStart p3) eqn:Hfire; [| exact IH'].
  cbn [app]. constructor; [exact IH' |].
  apply andb_true_iff in Hfire. destruct Hfire as [Hfire _].
  apply andb_true_iff in Hfire. destruct Hfire as [_ Hturn].
  apply Forall_forall. intros r Hr. cbn [endIndex].
  destruct (scanTriplets_in (p2 :: p3 :: rest') r Hrest Hr)
    as [q1 [q2 [q3 [Hq1 [_ [Hstart [_ [-> _]]]]]]]].
  destruct Hq1 as [<- | Hq1].
  - pose proof (Hex p2 (or_intror (or_introl eq_refl))) as Hboth.
    rewrite Hstart, Hturn in Hboth. discriminate.
  - destruct Hq1 as [<- | Hq1]; [lia |].
    inversion Hrest as [| ? ? Hrest' _]; subst.
    inversion Hrest' as [| ? ? _ Hp3]; subst.
    pose proof (proj1 (Forall_forall _ _) Hp3 q1 Hq1) as Hlt.
    cbn beta in Hlt. lia.
Qed.

(** Two ranges need at least five points, three ranges seven, ... *)
Lemma scanTriplets_count (points : list Extremum) :
  (forall e, In e points -> isStart e && isTurn e = false) ->
  (2 * List.length (scanTriplets down isStart isTurn frames points)
   <= List.length points - 1)%nat.
Proof.
  assert (Hle : (List.length points <= List.length points)%nat) by lia.
  revert Hle. generalize (List.length points) at 2. intros n.
  revert points. induction n as [| n IH]; intros points Hle Hex.
  - destruct points; [cbn; lia | cbn in Hle; lia].
  - destruct points as [| p1 [| p2 [| p3 rest]]]; try (cbn; lia).
    rewrite scanTriplets_cons, length_app.
    destruct (isStart p1 && isTurn p2 && isStart p3) eqn:Hfire.
    + apply andb_true_iff in Hfire. destruct Hfire as [Hfire _].
      apply andb_true_iff in Hfire. destruct Hfire as [_ Hturn].
      assert (Hp2 : isStart p2 = false).
      { pose proof (Hex p2 (or_intror (or_introl eq_refl))) as Hboth.
        rewrite Hturn in Hboth. now rewrite andb_true_r in Hboth. }
      rewrite (scanTriplets_skip p2 (p3 :: rest) Hp2).
      assert (IH' := IH (p3 :: rest)).
      cbn [List.length] in *.
      assert (Hle' : (S (List.length rest) <= n)%nat) by lia.
      specialize (IH' Hle' (fun e He => Hex e (or_intror (or_intror He)))).
      lia.
    + assert (IH' := IH (p2 :: p3 :: rest)).
      cbn [List.length] in *.
      assert (Hle' : (S (S (List.length rest)) <= n)%nat) by lia.
      specialize (IH' Hle' (fun e He => Hex e (or_intror He))).
      lia.
Qed.

(** The range of motion of a range is the gap between two successive
    points. *)
Lemma scanTriplets_motion (t : Q) (points : list Extremum) :
  Shape.gapsAtLeast t points = true ->
  Forall (fun r => t <= rangeOfMotion r)
         (scanTriplets down isStart isTurn frames points).
Proof.
  induction points as [| p1 rest IH]; intros Hgaps; [constructor |].
  destruct rest as [| p2 [| p3 rest']]; try constructor.
  cbn [Shape.gapsAtLeast] in Hgaps. apply andb_true_iff in Hgaps.
  destruct Hgaps as [Hgap Hgaps].
  cbn [scanTriplets]. apply Forall_app. split; [| now apply IH].
  destruct (isStart p1 && isTurn p2 && isStart p3); [| constructor].
  constructor; [| constructor]. cbn [rangeOfMotion].
  apply Qle_bool_iff in Hgap.
  destruct down; [| exact Hgap].
  now rewrite Qabs_Qminus.
Qed.

End Scan.


Lemma gapsAtLeast_weaken (t t' : Q) (points : list Extremum) :
  t <= t' -> Shape.gapsAtLeast t' points = true ->
  Shape.gapsAtLeast t points = true.
Proof.
  intros Hle. induction points as [| p rest IH]; [reflexivity |].
  destruct rest as [| q rest']; [reflexivity |].
  cbn [Shape.gapsAtLeast]. rewrite !andb_true_iff. intros [Hgap Hgaps].
  split; [| now apply IH].
  apply Qle_bool_iff. apply Qle_bool_iff in Hgap. Lqa.lra.
Qed.

(** identifyReps scans the merged points; the guard on fewer than
    three points changes nothing. *)
Lemma identifyReps_scan (peaks valleys : list Extremum)
      (direction : option string) (frames : list Frame) :
  identifyReps peaks valleys direction frames
  = if isDownDirection direction
    then scanTriplets true (hasIndex valleys) (hasIndex peaks) frames
                      (stableSort byIndex (peaks ++ valleys))
    else scanTriplets false (hasIndex peaks) (hasIndex valleys) frames
                      (stableSort byIndex (peaks ++ valleys)).
Proof.
  unfold identifyReps.
  destruct (stableSort byIndex (peaks ++ valleys)) as [| a [| b [| c rest]]];
    cbn; now destruct (isDownDirection direction).
Qed.

Lemma keptPoints_facts (peaks valleys : list Extremum) (minAmplitude : option Q) :
  ascending peaks -> ascending valleys ->
  (forall e e', In e peaks -> In e' valleys -> eindex e <> eindex e') ->
  let kept := keptPoints peaks valleys minAmplitude in
  let separated := filterSignificantPoints peaks valleys minAmplitude in
  ascending kept
  /\ (forall e, In e kept -> In e (peaks ++ valleys))
  /\ stableSort byIndex (fst separated ++ snd separated) = kept
  /\ (forall e, In e kept ->
                hasIndex (fst separated) e && hasIndex (snd separated) e = false).
Proof.
  intros Hpeaks Hvalleys Hdisjoint. cbn zeta.
  unfold keptPoints, filterSignificantPoints. cbn [fst snd].
  set (merged := stableSort byIndex (peaks ++ valleys)).
  set (kept := keepSignificant minAmplitude None merged).
  assert (Hperm : Permutation merged (peaks ++ valleys))
    by apply (stableSort_perm Extremum eindex).
  assert (Hmerged : ascending merged).
  { apply (sorted_strict Extremum eindex);
      [apply (stableSort_sorted Extremum eindex) |].
    eapply Permutation_NoDup;
      [apply Permutation_map; symmetry; exact Hperm |].
    rewrite map_app. apply NoDup_app.
    - now apply (strict_NoDup Extremum eindex).
    - now apply (strict_NoDup Extremum eindex).
    - intros k Hk Hk'. apply in_map_iff in Hk. destruct Hk as [e [<- He]].
      apply in_map_iff in Hk'. destruct Hk' as [e' [Heq He']].
      now apply (Hdisjoint e e' He He'). }
  assert (Hkept : ascending kept) by now apply keepSignificant_sorted.
  assert (Hin : forall e, In e kept -> In e (peaks ++ valleys)).
  { intros e He. apply keepSignificant_incl in He.
    eapply Permutation_in; [exact Hperm | exact He]. }
  assert (Hkind : forall e, In e kept ->
                            hasIndex valleys e = negb (hasIndex peaks e)).
  { intros e He. apply Hin in He. apply in_app_or in He.
    destruct He as [He | He].
    - assert (H1 : hasIndex peaks e = true)
        by (apply hasIndex_true; now exists e).
      rewrite H1. cbn [negb].
      destruct (hasIndex valleys e) eqn:H2; [| reflexivity].
      apply hasIndex_true in H2. destruct H2 as [q [Hq Heq]].
      exfalso. apply (Hdisjoint e q He Hq). now symmetry.
    - assert (H2 : hasIndex valleys e = true)
        by (apply hasIndex_true; now exists e).
      rewrite H2.
      destruct (hasIndex peaks e) eqn:H1; [| reflexivity].
      apply hasIndex_true in H1. destruct H1 as [q [Hq Heq]].
      exfalso. now apply (Hdisjoint q e Hq He). }
  repeat split; try assumption.
  - apply (stableSort_strict Extremum eindex); [exact Hkept |].
    now apply filter_partition.
  - intros e He.
    destruct (hasIndex (filter (hasIndex peaks) kept) e) eqn:H1;
      [| reflexivity].
    destruct (hasIndex (filter (hasIndex valleys) kept) e) eqn:H2;
      [| reflexivity].
    exfalso.
    apply hasIndex_true in H1. destruct H1 as [q [Hq Heq]].
    apply hasIndex_true in H2. destruct H2 as [q' [Hq' Heq']].
    apply filter_In in Hq. destruct Hq as [Hq Hpeak].
    apply filter_In in Hq'. destruct Hq' as [Hq' Hvalley].
    apply hasIndex_true in Hpeak. destruct Hpeak as [pk [Hpk Hpkeq]].
    apply hasIndex_true in Hvalley. destruct Hvalley as [vl [Hvl Hvleq]].
    apply (Hdisjoint pk vl Hpk Hvl). congruence.
Qed.


Lemma smoothData_length (data : list Q) (windowSize : nat) :
  List.length (smoothData data windowSize) = List.length data.
Proof. unfold smoothData. now rewrite length_map, length_seq. Qed.

(** The merged extrema that countReps scans for repetitions. *)
Lemma findPeaksAndValleys_kept (frames : list Frame) (metricType : option string)
      (minAmplitude : option Q) :
  let found :=
    findPeaksAndValleys (extractMetric calculateAngle frames metricType)
                        minAmplitude in
  exists kept,
    stableSort byIndex (fst found ++ snd found) = kept
    /\ ascending kept
    /\ Forall (fun e => (eindex e < List.length frames)%nat) kept
    /\ (List.length kept <= List.length frames - 4)%nat
    /\ (forall t, minAmplitude = Some t -> Shape.gapsAtLeast t kept = true)
    /\ (forall e, In e kept ->
                  hasIndex (fst found) e && hasIndex (snd found) e = false).
Proof.
  cbn zeta. unfold findPeaksAndValleys.
  set (data := extractMetric calculateAngle frames metricType).
  set (validData := filter hasValue data).
  destruct (validData_sorted frames metricType) as [Hsorted Hinside].
  fold data in Hsorted, Hinside. fold validData in Hsorted, Hinside.
  destruct (List.length validData <? 5)%nat.
  { exists []. cbn. repeat split; try constructor; try lia;
      try contradiction. }
  set (smoothed := smoothData (map valueOrZero validData) 5).
  set (peaks := rawExtrema isLocalMax validData smoothed).
  set (valleys := rawExtrema isLocalMin validData smoothed).
  destruct (keptPoints_facts peaks valleys minAmplitude)
    as [Hkept [Hin [Hmerge Hkind]]].
  { now apply rawExtrema_ascending. }
  { now apply rawExtrema_ascending. }
  { intros e e'. now apply rawExtrema_disjoint. }
  exists (keptPoints peaks valleys minAmplitude).
  repeat split; try assumption.
  - apply Forall_forall. intros e He. apply Hin in He.
    assert (Hraw : exists test, In e (rawExtrema test validData smoothed)).
    { apply in_app_or in He. destruct He as [He | He]; eauto. }
    destruct Hraw as [test Hraw]. apply rawExtrema_in in Hraw.
    destruct Hraw as [i [d [_ [_ [_ [Hd ->]]]]]]. cbn [eindex].
    apply nth_error_In in Hd.
    exact (proj1 (Forall_forall _ _) Hinside d Hd).
  - unfold keptPoints.
    etransitivity; [apply keepSignificant_length |].
    rewrite (Permutation_length (stableSort_perm Extremum eindex _)).
    rewrite length_app.
    etransitivity; [apply rawExtrema_count |].
    unfold smoothed. rewrite smoothData_length, length_map.
    assert (Hlen : (List.length validData <= List.length frames)%nat).
    { unfold validData. etransitivity; [apply filter_length_le |].
      unfold data. rewrite <- (length_map index), extractMetric_index.
      now rewrite length_seq. }
    lia.
  - intros t ->. apply keepSignificant_gaps.
Qed.

(** The ranges identified on a metric series: those scanned from a
    series of extrema that lie in frame order inside the recording. *)
Lemma identifyReps_found (frames : list Frame) (metricType : option string)
      (configThreshold : option Q) (direction : option string) :
  let data := extractMetric calculateAngle frames metricType in
  let found :=
    findPeaksAndValleys data
      (adaptiveThreshold configThreshold
                         (map valueOrZero (filter nonZeroValue data))) in
  exists kept down isStart isTurn,
    identifyReps (fst found) (snd found) direction frames
    = scanTriplets down isStart isTurn frames kept
    /\ ascending kept
    /\ Forall (fun e => (eindex e < List.length frames)%nat) kept
    /\ (List.length kept <= List.length frames - 4)%nat
    /\ (forall t, configThreshold = Some t ->
                  Shape.gapsAtLeast t kept = true)
    /\ (forall e, In e kept -> isStart e && isTurn e = false).
Proof.
  cbn zeta.
  set (data := extractMetric calculateAngle frames metricType).
  set (thr := adaptiveThreshold configThreshold
                (map valueOrZero (filter nonZeroValue data))).
  destruct (findPeaksAndValleys_kept frames metricType thr)
    as [kept [Hmerge [Hkept [Hinside [Hlen [Hgaps Hkind]]]]]].
  fold data in Hmerge, Hkind.
  destruct (findPeaksAndValleys data thr) as [peaks valleys].
  cbn [fst snd] in *.
  rewrite identifyReps_scan, Hmerge.
  assert (Hthr : forall t, configThreshold = Some t ->
                           Shape.gapsAtLeast t kept = true).
  { intros t Ht. unfold thr, adaptiveThreshold in Hgaps. rewrite Ht in Hgaps.
    destruct (maxQ _) as [hi |]; [destruct (minQ _) as [lo |] |].
    - apply (gapsAtLeast_weaken t (Qmax t ((hi - lo) * 0.15)));
        [apply Q.le_max_l | now apply Hgaps].
    - now apply Hgaps.
    - now apply Hgaps. }
  destruct (isDownDirection direction).
  - exists kept, true, (hasIndex valleys), (hasIndex peaks).
    repeat split; try assumption.
    intros e He. rewrite andb_comm. now apply Hkind.
  - exists kept, false, (hasIndex peaks), (hasIndex valleys).
    repeat split; assumption.
Qed.

Lemma countWith_ranges (config : RepConfig) (frames : list Frame) :
  exists kept down isStart isTurn,
    repRanges (countWith calculateAngle config frames)
    = scanTriplets down isStart isTurn frames kept
    /\ count (countWith calculateAngle config frames)
       = List.length (repRanges (countWith calculateAngle config frames))
    /\ ascending kept
    /\ Forall (fun e => (eindex e < List.length frames)%nat) kept
    /\ (List.length kept <= List.length frames - 4)%nat
    /\ (forall t, threshold config = Some t ->
                  Shape.gapsAtLeast t kept = true)
    /\ (forall e, In e kept -> isStart e && isTurn e = false).
Proof.
  unfold countWith.
  destruct (Qlt_bool _ _ && hasFallback config).
  - destruct (identifyReps_found frames (fallbackMetric config)
                                 (threshold config) (direction config))
      as [kept [down [isStart [isTurn [Hranges H]]]]].
    destruct (findPeaksAndValleys _ _) as [peaks valleys].
    cbn [fst snd repRanges count] in *.
    exists kept, down, isStart, isTurn. now split.
  - destruct (identifyReps_found frames (metric config)
                                 (threshold config) (direction config))
      as [kept [down [isStart [isTurn [Hranges H]]]]].
    destruct (findPeaksAndValleys _ _) as [peaks valleys].
    cbn [fst snd repRanges count] in *.
    exists kept, down, isStart, isTurn. now split.
Qed.

Lemma countReps_cases (frames : list Frame) (exerciseId : string) :
  countReps calculateAngle frames exerciseId = zeroResult
  \/ exists config,
       countReps calculateAngle frames exerciseId
       = countWith calculateAngle config frames
       /\ (forall own, getProp repThresholds exerciseId = Own own ->
                       config = own).
Proof.
  unfold countReps. destruct (List.length frames <? 5)%nat; [now left |].
  destruct (getProp repThresholds exerciseId) as [config | |].
  - right. exists config. split; [reflexivity |]. now intros own [= ->].
  - right. exists inheritedConfig. split; [reflexivity | discriminate].
  - now left.
Qed.

(** X1.  The repetition ranges of every count are in frame order: each
    range starts before its turning point and ends after it, inside the
    recording, and a range starts no earlier than the range before it
    ends. *)
Theorem countReps_ranges_in_order (frames : list Frame) (exerciseId : string) :
  let r := countReps calculateAngle frames exerciseId in
  Forall (fun g => (startIndex g < turnIndex g < endIndex g)%nat
                   /\ (endIndex g < List.length frames)%nat)
         (repRanges r)
  /\ StronglySorted (fun a b => (endIndex a <= startIndex b)%nat) (repRanges r).
Proof.
  cbn zeta.
  destruct (countReps_cases frames exerciseId) as [-> | [config [-> _]]].
  { split; constructor. }
  destruct (countWith_ranges config frames)
    as [kept [down [isStart [isTurn
          [-> [_ [Hkept [Hinside [_ [_ Hkind]]]]]]]]]].
  split; [| now apply scanTriplets_apart].
  apply Forall_forall. intros g Hg.
  destruct (scanTriplets_in down isStart isTurn frames kept g Hkept Hg)
    as [p1 [p2 [p3 [_ [Hp3 [_ [_ [-> [-> [-> Horder]]]]]]]]]].
  split; [exact Horder |].
  exact (proj1 (Forall_forall _ _) Hinside p3 Hp3).
Qed.

(** X2.  A recording of n frames holds at most (n - 5) / 2 repetitions:
    the extrema are sought strictly inside the series, and two
    successive repetitions share at most one extremum. *)
Theorem countReps_count_bound (frames : list Frame) (exerciseId : string) :
  let r := countReps calculateAngle frames exerciseId in
  count r = List.length (repRanges r)
  /\ (2 * count r <= List.length frames - 5)%nat.
Proof.
  cbn zeta.
  destruct (countReps_cases frames exerciseId) as [-> | [config [-> _]]].
  { cbn. split; [reflexivity | lia]. }
  destruct (countWith_ranges config frames)
    as [kept [down [isStart [isTurn
          [Hranges [Hcount [_ [_ [Hlen [_ Hkind]]]]]]]]]].
  split; [exact Hcount |]. rewrite Hcount, Hranges.
  pose proof (scanTriplets_count down isStart isTurn frames kept Hkind). lia.
Qed.

(** X3.  Every repetition that is counted moves the metric by at least
    the threshold configured for the exercise. *)
Theorem countReps_range_of_motion (frames : list Frame) (exerciseId : string)
        (config : RepConfig) (t : Q) :
  getProp repThresholds exerciseId = Own config ->
  threshold config = Some t ->
  Forall (fun g => t <= rangeOfMotion g)
         (repRanges (countReps calculateAngle frames exerciseId)).
Proof.
  intros Hconfig Ht.
  destruct (countReps_cases frames exerciseId) as [-> | [config' [-> Hown]]].
  { constructor. }
  rewrite (Hown config Hconfig).
  destruct (countWith_ranges config frames)
    as [kept [down [isStart [isTurn [-> [_ [_ [_ [_ [Hgaps _]]]]]]]]]].
  apply scanTriplets_motion. now apply Hgaps.
Qed.

End CounterFacts.

(** ** Phases of a repetition *)

Section PhaseFacts.

Import Js Data RepProgression Invariant.
Local Open Scope Q_scope.
Local Arguments String.eqb : simpl never.

Lemma pushIndex_keys (table : PhaseTable) (phase : string) (i : nat) :
  map fst (pushIndex table phase i) = map fst table.
Proof.
  induction table as [| [name indices] rest IH]; [reflexivity |].
  cbn [pushIndex]. destruct (String.eqb name phase); cbn [map fst];
    [reflexivity | now rewrite IH].
Qed.

Lemma pushIndex_indices (table : PhaseTable) (phase : string) (i : nat) :
  In phase (map fst table) ->
  Permutation (List.concat (map snd (pushIndex table phase i)))
              (List.concat (map snd table) ++ [i]).
Proof.
  induction table as [| [name indices] rest IH]; intros Hin; [contradiction |].
  cbn [pushIndex]. destruct (String.eqb name phase) eqn:Hname.
  - cbn [map snd List.concat]. rewrite <- !app_assoc.
    apply Permutation_app_head. apply Permutation_app_comm.
  - cbn [map snd List.concat]. rewrite <- app_assoc.
    apply Permutation_app_head. apply IH.
    destruct Hin as [Heq | Hin]; [| exact Hin].
    cbn [fst] in Heq. subst name. now rewrite String.eqb_refl in Hname.
Qed.

Lemma pushIndex_sorted (table : PhaseTable) (phase : string) (i : nat) :
  Forall (fun entry => StronglySorted lt (snd entry)
                       /\ Forall (fun k => (k < i)%nat) (snd entry)) table ->
  Forall (fun entry => StronglySorted lt (snd entry)
                       /\ Forall (fun k => (k < S i)%nat) (snd entry))
         (pushIndex table phase i).
Proof.
  assert (Hweak : forall l, Forall (fun k => (k < i)%nat) l ->
                            Forall (fun k => (k < S i)%nat) l).
  { intros l Hl. eapply Forall_impl; [| exact Hl]. cbn beta. intros k Hk. lia. }
  induction 1 as [| [name indices] rest [Hsorted Hbelow] Hrest IH];
    [constructor |].
  cbn [pushIndex]. cbn [snd] in Hsorted, Hbelow.
  destruct (String.eqb name phase).
  - constructor.
    + cbn [snd]. split.
      * clear Hweak IH Hrest. induction Hsorted as [| a l Hl IHl Ha];
          [repeat constructor |].
        inversion Hbelow as [| ? ? Hai Hbelow']; subst.
        cbn [app]. constructor; [now apply IHl |].
        apply Forall_app. split; [exact Ha |]. now constructor.
      * apply Forall_app. split; [now apply Hweak |].
        constructor; [lia | constructor].
    + eapply Forall_impl; [| exact Hrest]. cbn beta.
      intros entry [H1 H2]. split; [exact H1 | now apply Hweak].
  - constructor; [| exact IH]. cbn [snd]. split; [exact Hsorted |].
    now apply Hweak.
Qed.

(** The loop of identifyPhases keeps the phase names, stays on a phase
    of the pattern, and appends the index of every point that carries a
    value to one phase. *)
Lemma phaseLoop_invariant (pattern : Pattern) (points : list ProgressionPoint)
      (st : PhaseState) :
  (currentPhaseIndex st < List.length (phases pattern))%nat ->
  map fst (table st) = phases pattern ->
  let st' := fold_left (phaseStep pattern) points st in
  map fst (table st') = phases pattern
  /\ Permutation (List.concat (map snd (table st')))
                 (List.concat (map snd (table st))
                  ++ map pindex (filter carriesValue points)).
Proof.
  cbn zeta. revert st.
  induction points as [| p rest IH]; intros st Hidx Hkeys.
  - cbn. rewrite app_nil_r. now split.
  - cbn [fold_left filter].
    assert (Hmod : forall k, (k mod List.length (phases pattern)
                              < List.length (phases pattern))%nat)
      by (intros k; apply Nat.mod_upper_bound; lia).
    unfold phaseStep at 2 4, carriesValue at 1.
    destruct (pvalue p) as [current |]; [| now apply IH].
    set (idx := if negb (Bool.eqb (Qlt_bool current (previousValue st))
                                  (isDecreasing st))
                then ((currentPhaseIndex st + 1) mod List.length (phases pattern))%nat
                else currentPhaseIndex st).
    assert (Hidx' : (idx < List.length (phases pattern))%nat)
      by (unfold idx; destruct (negb _); [apply Hmod | exact Hidx]).
    set (st1 := mkPhaseState idx current _ _).
    destruct (IH st1) as [Hkeys' Hperm].
    + exact Hidx'.
    + unfold st1. cbn [table]. now rewrite pushIndex_keys.
    + split; [exact Hkeys' |].
      etransitivity; [exact Hperm |].
      unfold st1. cbn [table map].
      rewrite pushIndex_indices.
      * rewrite <- app_assoc. reflexivity.
      * rewrite Hkeys. now apply nth_In.
Qed.

Lemma phaseLoop_sorted (pattern : Pattern) (points : list ProgressionPoint)
      (st : PhaseState) (bound : nat) :
  StronglySorted lt (map pindex points) ->
  Forall (fun i => (bound <= i)%nat) (map pindex points) ->
  Forall (fun entry => StronglySorted lt (snd entry)
                       /\ Forall (fun k => (k < bound)%nat) (snd entry))
         (table st) ->
  Forall (fun entry => StronglySorted lt (snd entry))
         (table (fold_left (phaseStep pattern) points st)).
Proof.
  revert st bound.
  induction points as [| p rest IH]; intros st bound Hsorted Hbound Htable.
  - cbn. eapply Forall_impl; [| exact Htable]. cbn beta. tauto.
  - cbn [map] in Hsorted, Hbound.
    inversion Hsorted as [| ? ? Hrest Hp]; subst.
    inversion Hbound as [| ? ? Hpb Hbound']; subst.
    cbn [fold_left]. unfold phaseStep at 2.
    destruct (pvalue p) as [current |].
    + apply (IH _ (S (pindex p))); [exact Hrest | |].
      * eapply Forall_impl; [| exact Hp]. cbn beta. intros k Hk. lia.
      * cbn [table]. apply pushIndex_sorted.
        eapply Forall_impl; [| exact Htable]. cbn beta.
        intros entry [H1 H2]. split; [exact H1 |].
        eapply Forall_impl; [| exact H2]. cbn beta. intros k Hk. lia.
    + apply (IH _ bound); [exact Hrest | exact Hbound' | exact Htable].
Qed.

Lemma extractMetricProgression_index (frames : list AnalyzedFrame)
      (metric : string) :
  map pindex (extractMetricProgression frames metric)
  = seq 0 (List.length frames).
Proof.
  unfold extractMetricProgression, mapi. rewrite mapiFrom_map. cbn [pindex].
  exact (mapiFrom_index 0 0 frames).
Qed.

Lemma catalog_phases (exerciseId : string) (pattern : Pattern) :
  getProp exercisePatterns exerciseId = Own pattern ->
  (0 < List.length (phases pattern))%nat.
Proof.
  unfold getProp, exercisePatterns. cbn [ownProp].
  repeat (destruct (String.eqb _ exerciseId);
          [intros [= <-]; cbn; lia |]).
  destruct (isInheritedKey exerciseId); discriminate.
Qed.


Lemma emptyTable_keys (names : list string) :
  map fst (map (fun name : string => (name, @nil nat)) names) = names.
Proof. rewrite map_map. cbn [fst]. apply map_id. Qed.

Lemma emptyTable_indices (names : list string) :
  List.concat (map snd (map (fun name : string => (name, @nil nat)) names)) = [].
Proof. induction names as [| name rest IH]; [reflexivity | exact IH]. Qed.

(** X4.  identifyPhases assigns every frame after the first that
    carries a value of the metric to exactly one phase of the pattern,
    and no other frame to any; the frames of a phase are in increasing
    order. *)
Theorem identifyPhases_partition (frames : list AnalyzedFrame)
        (exerciseId : string) (pattern : Pattern) :
  getProp exercisePatterns exerciseId = Own pattern ->
  let progression :=
    extractMetricProgression frames (primaryMetric pattern) in
  let table := identifyPhases progression pattern in
  map fst table = phases pattern
  /\ Forall (fun entry => StronglySorted lt (snd entry)) table
  /\ Permutation (List.concat (map snd table))
                 (map pindex (filter carriesValue (tl progression))).
Proof.
  intros Hpattern. cbn zeta. unfold identifyPhases.
  set (progression := extractMetricProgression frames (primaryMetric pattern)).
  set (init := mkPhaseState 0 _ true _).
  pose proof (catalog_phases exerciseId pattern Hpattern) as Hlen.
  destruct (phaseLoop_invariant pattern (tl progression) init)
    as [Hkeys Hperm].
  { exact Hlen. }
  { apply emptyTable_keys. }
  split; [exact Hkeys |]. split.
  - apply (phaseLoop_sorted pattern (tl progression) init 0).
    + assert (Htl : map pindex (tl progression) = tl (map pindex progression))
        by now destruct progression.
      rewrite Htl. unfold progression.
      rewrite extractMetricProgression_index.
      destruct (List.length frames) as [| n]; [constructor |].
      cbn [seq tl]. apply seq_sorted.
    + apply Forall_forall. intros k _. lia.
    + unfold init. cbn [table]. apply Forall_forall.
      intros entry Hentry. apply in_map_iff in Hentry.
      destruct Hentry as [name [<- _]]. cbn [snd]. split; constructor.
  - etransitivity; [exact Hperm |].
    unfold init. cbn [table]. now rewrite emptyTable_indices.
Qed.

End PhaseFacts.

Lemma identifyPhases_partition_witness :
  let pattern :=
    RepProgression.mkPattern ["bottom"; "ascent"; "top"; "descent"]%string
                             "kneeAngle" in
  let progression :=
    RepProgression.extractMetricProgression
      Synthetic.threeSquats (RepProgression.primaryMetric pattern) in
  let table := RepProgression.identifyPhases progression pattern in
  map fst table = RepProgression.phases pattern
  /\ Forall (fun entry => StronglySorted lt (snd entry)) table
  /\ Permutation (List.concat (map snd table))
                 (map RepProgression.pindex
                      (filter Invariant.carriesValue (tl progression))).
Proof.
  intros pattern.
  exact (identifyPhases_partition Synthetic.threeSquats "squat" pattern
                                  eq_refl).
Defined.

(** ** Quality scores of a repetition *)

Section QualityFacts.

Import Js Data RepProgression Invariant.
Local Open Scope Q_scope.

Lemma penalised_range (average factor : Q) :
  0 <= average * factor -> (0 <= penalised average factor <= 100)%Z.
Proof.
  intros H. unfold penalised. apply round_bounds.
  - apply Q.le_max_l.
  - apply Q.max_lub; [discriminate |].
    change (inject_Z 100) with 100. Lqa.lra.
Qed.

Lemma calculateSmoothness_range (progression : list ProgressionPoint) :
  (0 <= calculateSmoothness progression <= 100)%Z.
Proof.
  destruct (Nat.ltb_spec (List.length (validValues progression)) 3) as [Hn | Hn].
  - unfold calculateSmoothness.
    destruct (Nat.ltb_spec (List.length (validValues progression)) 3); lia.
  - rewrite (calculateSmoothness_value progression Hn).
    set (total := RepProgression.sumQ _).
    assert (Htotal : 0 <= total) by apply sumQ_abs_nonneg.
    set (m := inject_Z _).
    assert (Hm : 0 < m) by (apply nat_Q_pos; lia).
    pose proof (div_nonneg total m Htotal Hm) as Havg.
    apply round_bounds.
    + apply Q.le_max_l.
    + apply Q.max_lub; [discriminate |].
      change (inject_Z 100) with 100. Lqa.lra.
Qed.

Lemma calculateSymmetry_range (frames : list AnalyzedFrame) :
  Forall (fun f => nonNegative (asymmetry f)) frames ->
  (0 <= calculateSymmetry frames <= 100)%Z.
Proof.
  intros Hall. unfold calculateSymmetry.
  set (present := filter (fun f => negb (isMissing (asymmetry f))) frames).
  assert (Hpresent : Forall (fun f => nonNegative (asymmetry f)) present).
  { apply Forall_forall. intros f Hf. apply filter_In in Hf.
    exact (proj1 (Forall_forall _ _) Hall f (proj1 Hf)). }
  destruct present as [| f rest] eqn:Hp; [lia |].
  rewrite <- Hp in *. apply penalised_range.
  assert (Htotal : 0 <= RepProgression.sumQ
                          (map (fun f => featureNumber (asymmetry f)) present)).
  { apply fold_plus_nonneg; [Lqa.lra |].
    apply Forall_forall. intros v Hv. apply in_map_iff in Hv.
    destruct Hv as [g [<- Hg]].
    pose proof (proj1 (Forall_forall _ _) Hpresent g Hg) as Hnn.
    unfold nonNegative in Hnn. unfold featureNumber.
    destruct (asymmetry g); Lqa.lra. }
  assert (Hlen : 0 < inject_Z (Z.of_nat (List.length present)))
    by (apply nat_Q_pos; rewrite Hp; cbn; lia).
  pose proof (div_nonneg _ _ Htotal Hlen) as Havg.
  generalize dependent (RepProgression.sumQ
                          (map (fun f => featureNumber (asymmetry f)) present)
                        / inject_Z (Z.of_nat (List.length present))).
  intros avg Havg. Lqa.lra.
Qed.

Lemma analyzeTempoControl_range (phases : PhaseTable) :
  (0 <= analyzeTempoControl phases <= 100)%Z.
Proof.
  unfold analyzeTempoControl.
  destruct (_ || _); [lia |].
  set (ratio := inject_Z _ / inject_Z _).
  assert (Hdev : 0 <= Qabs (ratio - 1.75) / 1.75).
  { apply div_nonneg; [apply Qabs_nonneg | reflexivity]. }
  generalize dependent (Qabs (ratio - 1.75) / 1.75). intros dev Hdev.
  apply round_bounds.
  - apply Q.le_max_l.
  - apply Q.max_lub; [discriminate |].
    change (inject_Z 100) with 100. Lqa.lra.
Qed.

(** X5.  For an exercise of the catalog analyzeRepProgression returns an
    analysis of all the frames it was given, and each of its three
    quality scores (smoothness, symmetry, tempo) is an integer between 0
    and 100, provided no frame carries a negative asymmetry. *)
Theorem analyzeRepProgression_scores (repFrames : list AnalyzedFrame)
        (exerciseId : string) (pattern : Pattern) :
  getProp exercisePatterns exerciseId = Own pattern ->
  Forall (fun f => nonNegative (asymmetry f)) repFrames ->
  exists analysis,
    analyzeRepProgression repFrames exerciseId = Ok (Some analysis)
    /\ frameCount analysis = List.length repFrames
    /\ List.length (metrics analysis) = List.length repFrames
    /\ (0 <= smoothness (quality analysis) <= 100)%Z
    /\ (0 <= symmetry (quality analysis) <= 100)%Z
    /\ (0 <= controlledTempo (quality analysis) <= 100)%Z.
Proof.
  intros Hpattern Hall. unfold analyzeRepProgression. rewrite Hpattern.
  eexists. split; [reflexivity |].
  cbn [frameCount metrics quality smoothness symmetry controlledTempo].
  split; [reflexivity |]. split.
  - unfold extractMetricProgression, mapi. apply mapiFrom_length.
  - split; [apply calculateSmoothness_range |].
    split; [now apply calculateSymmetry_range |].
    apply analyzeTempoControl_range.
Qed.

End QualityFacts.

Lemma analyzeRepProgression_scores_witness :
  exists analysis,
    RepProgression.analyzeRepProgression Synthetic.threeSquats "squat"
    = Js.Ok (Some analysis)
    /\ RepProgression.frameCount analysis = 37%nat
    /\ List.length (RepProgression.metrics analysis) = 37%nat
    /\ (0 <= RepProgression.smoothness (RepProgression.quality analysis) <= 100)%Z
    /\ (0 <= RepProgression.symmetry (RepProgression.quality analysis) <= 100)%Z
    /\ (0 <= RepProgression.controlledTempo (RepProgression.quality analysis)
        <= 100)%Z.
Proof.
  apply (analyzeRepProgression_scores Synthetic.threeSquats "squat"
           (RepProgression.mkPattern
              ["bottom"; "ascent"; "top"; "descent"]%string "kneeAngle")).
  - reflexivity.
  - apply Forall_forall. intros f Hf. apply in_map_iff in Hf.
    destruct Hf as [i [<- _]]. cbn. discriminate.
Defined.

(** ** Repetition statistics *)

Section AverageFacts.

Local Open Scope Q_scope.

Lemma sum_lower (l : list Q) (lo acc : Q) :
  Forall (fun v => lo <= v) l ->
  acc + inject_Z (Z.of_nat (List.length l)) * lo <= fold_left Qplus l acc.
Proof.
  intros Hall. revert acc.
  induction Hall as [| a rest Hlo _ IH]; intros acc.
  - cbn [fold_left List.length Z.of_nat]. change (inject_Z 0) with 0. Lqa.lra.
  - cbn [fold_left List.length]. specialize (IH (acc + a)).
    rewrite Nat2Z.inj_succ, <- Z.add_1_r, inject_Z_plus.
    change (inject_Z 1) with 1.
    generalize dependent (inject_Z (Z.of_nat (List.length rest))).
    intros n IH. Lqa.lra.
Qed.

Lemma sum_upper (l : list Q) (hi acc : Q) :
  Forall (fun v => v <= hi) l ->
  fold_left Qplus l acc <= acc + inject_Z (Z.of_nat (List.length l)) * hi.
Proof.
  intros Hall. revert acc.
  induction Hall as [| a rest Hhi _ IH]; intros acc.
  - cbn [fold_left List.length Z.of_nat]. change (inject_Z 0) with 0. Lqa.lra.
  - cbn [fold_left List.length]. specialize (IH (acc + a)).
    rewrite Nat2Z.inj_succ, <- Z.add_1_r, inject_Z_plus.
    change (inject_Z 1) with 1.
    generalize dependent (inject_Z (Z.of_nat (List.length rest))).
    intros n IH. Lqa.lra.
Qed.

(** The mean of a non-empty list lies between any two bounds of its
    elements. *)
Lemma mean_lower (l : list Q) (lo : Q) :
  l <> [] -> Forall (fun v => lo <= v) l ->
  lo <= fold_left Qplus l 0 / inject_Z (Z.of_nat (List.length l)).
Proof.
  intros Hne Hall.
  assert (Hn : 0 < inject_Z (Z.of_nat (List.length l))).
  { apply nat_Q_pos. destruct l; [contradiction | cbn; lia]. }
  pose proof (sum_lower l lo 0 Hall) as Hlo.
  apply Qle_shift_div_l; [exact Hn | Lqa.lra].
Qed.

Lemma mean_upper (l : list Q) (hi : Q) :
  l <> [] -> Forall (fun v => v <= hi) l ->
  fold_left Qplus l 0 / inject_Z (Z.of_nat (List.length l)) <= hi.
Proof.
  intros Hne Hall.
  assert (Hn : 0 < inject_Z (Z.of_nat (List.length l))).
  { apply nat_Q_pos. destruct l; [contradiction | cbn; lia]. }
  pose proof (sum_upper l hi 0 Hall) as Hhi.
  apply Qle_shift_div_r; [exact Hn | Lqa.lra].
Qed.

Lemma mean_bounds (l : list Q) (lo hi : Q) :
  l <> [] ->
  Forall (fun v => lo <= v /\ v <= hi) l ->
  lo <= fold_left Qplus l 0 / inject_Z (Z.of_nat (List.length l))
  /\ fold_left Qplus l 0 / inject_Z (Z.of_nat (List.length l)) <= hi.
Proof.
  intros Hne Hall. split.
  - apply mean_lower; [exact Hne |].
    eapply Forall_impl; [| exact Hall]. cbn beta. tauto.
  - apply mean_upper; [exact Hne |].
    eapply Forall_impl; [| exact Hall]. cbn beta. tauto.
Qed.

Lemma fold_plus_map {A : Type} (g : A -> Q) (l : list A) (acc : Q) :
  fold_left (fun sum a => sum + g a) l acc = fold_left Qplus (map g l) acc.
Proof.
  revert acc. induction l as [| a rest IH]; intros acc; [reflexivity |].
  cbn [fold_left map]. apply IH.
Qed.

End AverageFacts.

Section RepQualityFacts.

Import Js Data RepCounting RepQuality.
Local Open Scope Q_scope.

Lemma calculateVariance_nonneg (values : list Q) (v : Q) :
  calculateVariance values = Some v -> 0 <= v.
Proof.
  unfold calculateVariance.
  destruct values as [| a rest] eqn:Hv; [discriminate |]. rewrite <- Hv.
  intros [= <-].
  apply div_nonneg; [| apply nat_Q_pos; rewrite Hv; cbn [List.length]; lia].
  apply fold_plus_nonneg; [Lqa.lra |].
  apply Forall_forall. intros s Hs. apply in_map_iff in Hs.
  destruct Hs as [u [<- _]].
  set (d := u - _). change (d ^ 2) with (d * d). Lqa.nra.
Qed.

(** The variance of equal values is zero. *)
Lemma calculateVariance_constant (values : list Q) (c v : Q) :
  Forall (fun u => u == c) values ->
  calculateVariance values = Some v -> v == 0.
Proof.
  intros Hall. unfold calculateVariance.
  destruct values as [| a rest] eqn:Hv; [discriminate |]. rewrite <- Hv in *.
  assert (Hne : values <> []) by (rewrite Hv; discriminate).
  intros [= <-].
  assert (Hmean : fold_left Qplus values 0
                  / inject_Z (Z.of_nat (List.length values)) == c).
  { destruct (mean_bounds values c c Hne) as [H1 H2].
    - eapply Forall_impl; [| exact Hall]. cbn beta.
      intros u Hu. rewrite Hu. split; apply Qle_refl.
    - now apply Qle_antisym. }
  set (mean := fold_left Qplus values 0 / _) in *.
  set (squares := map (fun u => (u - mean) ^ 2) values).
  assert (Hsq : Forall (fun s => 0 <= s /\ s <= 0) squares).
  { apply Forall_forall. intros s Hs. apply in_map_iff in Hs.
    destruct Hs as [u [<- Hu]].
    pose proof (proj1 (Forall_forall _ _) Hall u Hu) as Huc. cbn beta in Huc.
    assert (Hz : (u - mean) ^ 2 == 0).
    { change ((u - mean) ^ 2) with ((u - mean) * (u - mean)).
      rewrite Huc, Hmean. ring. }
    rewrite Hz. split; apply Qle_refl. }
  assert (Hsne : squares <> []).
  { unfold squares. rewrite Hv. discriminate. }
  destruct (mean_bounds squares 0 0 Hsne Hsq) as [H1 H2].
  unfold squares in H1, H2. rewrite length_map in H1, H2.
  now apply Qle_antisym.
Qed.

Lemma tempoOf_range (d : Q) : 40 <= tempoOf d /\ tempoOf d <= 100.
Proof.
  unfold tempoOf.
  destruct (_ && _); [split; discriminate |].
  destruct (_ && _); split; discriminate.
Qed.

(** X6.  On at least one repetition analyzeRepQuality returns a
    consistency between 0 and 100 and a tempo score between 40 and 100,
    and numbers the repetitions from 1; repetitions of equal duration
    and equal range of motion (a single repetition among them) have
    consistency 100. *)
Theorem analyzeRepQuality_ranges (r : RepRange) (rest : list RepRange) :
  let q := analyzeRepQuality (r :: rest) in
  exists c,
    consistency q = Some c /\ 0 <= c /\ c <= 100
    /\ 40 <= tempoScore q /\ tempoScore q <= 100
    /\ option_map (map repNumber) (details q)
       = Some (seq 1 (S (List.length rest)))
    /\ (Forall (fun g => duration g == duration r
                         /\ rangeOfMotion g == rangeOfMotion r) rest ->
        c == 100).
Proof.
  cbn zeta. unfold analyzeRepQuality.
  set (ranges := r :: rest).
  assert (Hne : ranges <> []) by discriminate.
  destruct (calculateVariance (map duration ranges)) as [dv |] eqn:Hdv;
    [| discriminate Hdv].
  destruct (calculateVariance (map rangeOfMotion ranges)) as [rv |] eqn:Hrv;
    [| discriminate Hrv].
  cbn [consistency tempoScore details]. eexists. split; [reflexivity |].
  pose proof (calculateVariance_nonneg _ _ Hdv) as Hdv0.
  pose proof (calculateVariance_nonneg _ _ Hrv) as Hrv0.
  assert (Hmin : 0 <= Qmin 100 ((dv + rv) * 200))
    by (apply Q.min_glb; Lqa.lra).
  pose proof (Q.le_min_l 100 ((dv + rv) * 200)) as Hmin'.
  split; [Lqa.lra |]. split; [Lqa.lra |].
  destruct (mean_bounds (map tempoOf (map duration ranges)) 40 100) as [H1 H2].
  { discriminate. }
  { apply Forall_forall. intros s Hs. apply in_map_iff in Hs.
    destruct Hs as [d [<- _]]. apply tempoOf_range. }
  rewrite length_map in H1, H2.
  split; [exact H1 |]. split; [exact H2 |]. split.
  - cbn [option_map]. f_equal. unfold mapi. rewrite mapiFrom_map.
    cbn [repNumber].
    assert (H : forall (l : list RepRange) k,
               mapiFrom (fun (i : nat) (_ : RepRange) => (i + 1)%nat) k l
               = seq (k + 1) (List.length l)).
    { induction l as [| a l IH]; intros k; [reflexivity |].
      cbn [mapiFrom List.length seq]. rewrite IH. now rewrite Nat.add_succ_l. }
    apply (H ranges 0%nat).
  - intros Hsame.
    assert (Hd : dv == 0).
    { apply (calculateVariance_constant (map duration ranges) (duration r) dv);
        [| exact Hdv].
      unfold ranges. cbn [map]. constructor; [reflexivity |].
      apply Forall_forall. intros u Hu. apply in_map_iff in Hu.
      destruct Hu as [g [<- Hg]].
      exact (proj1 (proj1 (Forall_forall _ _) Hsame g Hg)). }
    assert (Hr : rv == 0).
    { apply (calculateVariance_constant (map rangeOfMotion ranges)
                                         (rangeOfMotion r) rv); [| exact Hrv].
      unfold ranges. cbn [map]. constructor; [reflexivity |].
      apply Forall_forall. intros u Hu. apply in_map_iff in Hu.
      destruct Hu as [g [<- Hg]].
      exact (proj2 (proj1 (Forall_forall _ _) Hsame g Hg)). }
    rewrite Hd, Hr.
    assert (Hz : Qmin 100 ((0 + 0) * 200) == 0)
      by (apply Q.min_r; discriminate).
    rewrite Hz. reflexivity.
Qed.

End RepQualityFacts.

(** ** Consistency across repetitions *)

Section RepComparisonFacts.

Import Js Data RepProgression RepComparison Invariant.
Local Open Scope Q_scope.

Lemma averageOf_bounds (f : Quality -> Z) (l : list RepAnalysis) (lo hi : Z) :
  l <> [] ->
  Forall (fun r => (lo <= f (quality r) <= hi)%Z) l ->
  inject_Z lo <= averageOf f l /\ averageOf f l <= inject_Z hi.
Proof.
  intros Hne Hall. unfold averageOf. rewrite fold_plus_map.
  rewrite <- (length_map (fun r => inject_Z (f (quality r))) l).
  apply mean_bounds.
  - destruct l; [contradiction | discriminate].
  - apply Forall_forall. intros v Hv. apply in_map_iff in Hv.
    destruct Hv as [r [<- Hr]].
    pose proof (proj1 (Forall_forall _ _) Hall r Hr) as [H1 H2].
    split; rewrite <- Zle_Qle; assumption.
Qed.

(** X7.  compareRepProgression returns null for fewer than two
    analyses; for two or more whose scores lie between 0 and 100 it
    reports their number and an average quality between 0 and 100, and
    it reports no fatigue for fewer than three. *)
Theorem compareRepProgression_average (repAnalyses : list RepAnalysis) :
  Forall scoresInRange repAnalyses ->
  match compareRepProgression repAnalyses with
  | None => (List.length repAnalyses < 2)%nat
  | Some c =>
      (2 <= List.length repAnalyses)%nat
      /\ totalReps c = List.length repAnalyses
      /\ (0 <= averageQuality c <= 100)%Z
      /\ ((List.length repAnalyses < 3)%nat -> fatigueDetected c = false)
  end.
Proof.
  intros Hall. unfold compareRepProgression.
  destruct (Nat.ltb_spec (List.length repAnalyses) 2) as [Hlt | Hge];
    [exact Hlt |].
  cbn [totalReps averageQuality fatigueDetected].
  split; [exact Hge |]. split; [reflexivity |].
  assert (Hne : repAnalyses <> [])
    by (destruct repAnalyses; [cbn in Hge; lia | discriminate]).
  split.
  - destruct (averageOf_bounds smoothness repAnalyses 0 100 Hne) as [A1 A2].
    { eapply Forall_impl; [| exact Hall]. unfold scoresInRange. tauto. }
    destruct (averageOf_bounds symmetry repAnalyses 0 100 Hne) as [B1 B2].
    { eapply Forall_impl; [| exact Hall]. unfold scoresInRange. tauto. }
    destruct (averageOf_bounds controlledTempo repAnalyses 0 100 Hne)
      as [C1 C2].
    { eapply Forall_impl; [| exact Hall]. unfold scoresInRange. tauto. }
    change (inject_Z 0) with 0 in *. change (inject_Z 100) with 100 in *.
    generalize dependent (averageOf smoothness repAnalyses).
    generalize dependent (averageOf symmetry repAnalyses).
    generalize dependent (averageOf controlledTempo repAnalyses).
    intros t C1 C2 y B1 B2 s A1 A2.
    apply round_bounds.
    + change (inject_Z 0) with 0.
      apply Qle_shift_div_l; [reflexivity | Lqa.lra].
    + change (inject_Z 100) with 100.
      apply Qle_shift_div_r; [reflexivity | Lqa.lra].
  - intros Hlt. unfold fatigued.
    destruct (Nat.leb_spec 3 (List.length repAnalyses)); [lia | reflexivity].
Qed.


Lemma sorted_cross {A : Type} (R : A -> A -> Prop) (front back : list A)
      (a b : A) :
  StronglySorted R (front ++ back) -> In a front -> In b back -> R a b.
Proof.
  induction front as [| c front IH]; intros Hsorted Ha Hb; [contradiction |].
  cbn [app] in Hsorted. inversion Hsorted as [| ? ? Hrest Hc]; subst.
  destruct Ha as [-> | Ha]; [| now apply IH].
  apply (proj1 (Forall_forall _ _) Hc). apply in_or_app. now right.
Qed.

Lemma sorted_skipn {A : Type} (R : A -> A -> Prop) (k : nat) (l : list A) :
  StronglySorted R l -> StronglySorted R (skipn k l).
Proof.
  revert l. induction k as [| k IH]; intros l Hsorted; [exact Hsorted |].
  destruct l as [| a rest]; [constructor |].
  cbn [skipn]. apply IH. now inversion Hsorted.
Qed.

Lemma skipn_incl {A : Type} (j k : nat) (l : list A) (a : A) :
  (j <= k)%nat -> In a (skipn k l) -> In a (skipn j l).
Proof.
  intros Hle Ha. replace k with ((k - j) + j)%nat in Ha by lia.
  rewrite <- skipn_skipn in Ha.
  clear Hle. revert Ha. generalize (skipn j l) (k - j)%nat. intros m n.
  revert m. induction n as [| n IH]; intros m Ha; [exact Ha |].
  destruct m as [| c m]; [contradiction |]. right. now apply IH.
Qed.

Lemma thirds (n : nat) :
  (3 <= n)%nat -> (1 <= n / 3 <= n * 2 / 3)%nat /\ (n * 2 / 3 < n)%nat.
Proof.
  intros Hn.
  pose proof (Nat.Div0.div_le_mono 3 n 3 Hn) as H1.
  pose proof (Nat.Div0.div_le_mono n (n * 2) 3 ltac:(lia)) as H2.
  assert (H3 : (n * 2 / 3 < n)%nat)
    by (apply Nat.Div0.div_lt_upper_bound; lia).
  change (3 / 3)%nat with 1%nat in H1. lia.
Qed.

(** X8.  compareRepProgression reports no fatigue when the smoothness of
    the repetitions never decreases from one repetition to the next. *)
Theorem steady_repetitions_show_no_fatigue (repAnalyses : list RepAnalysis) :
  StronglySorted (fun a b => (smoothness (quality a)
                              <= smoothness (quality b))%Z) repAnalyses ->
  Forall (fun a => (0 <= smoothness (quality a))%Z) repAnalyses ->
  match compareRepProgression repAnalyses with
  | None => (List.length repAnalyses < 2)%nat
  | Some c => fatigueDetected c = false /\ recommendations c = []
  end.
Proof.
  intros Hsorted Hnonneg. unfold compareRepProgression.
  destruct (Nat.ltb_spec (List.length repAnalyses) 2) as [Hlt | Hge];
    [exact Hlt |].
  cbn [fatigueDetected recommendations].
  assert (Hfatigue : fatigued repAnalyses = false);
    [| now rewrite Hfatigue].
  unfold fatigued.
  destruct (Nat.leb_spec 3 (List.length repAnalyses)) as [Hn | Hn];
    [| reflexivity].
  destruct (thirds _ Hn) as [[Hthird Hthirds] Hbelow].
  generalize dependent (List.length repAnalyses * 2 / 3)%nat. intros k2 Hk2 Hbelow.
  generalize dependent (List.length repAnalyses / 3)%nat. intros k1 Hk1 Hk2.
  set (lastThird := skipn k2 repAnalyses).
  set (firstThird := firstn k1 repAnalyses).
  assert (Hfirst : firstThird <> []).
  { intros H. apply (f_equal (@List.length _)) in H.
    unfold firstThird in H. rewrite length_firstn in H.
    cbn [List.length] in H. lia. }
  destruct lastThird as [| pivot others] eqn:Hlast.
  { apply (f_equal (@List.length _)) in Hlast.
    unfold lastThird in Hlast. rewrite length_skipn in Hlast.
    cbn [List.length] in Hlast. lia. }
  rewrite <- Hlast.
  assert (Hin : In pivot (skipn k2 repAnalyses))
    by (fold lastThird; rewrite Hlast; now left).
  assert (Hlow : Forall (fun r => (smoothness (quality pivot)
                                   <= smoothness (quality r))%Z) lastThird).
  { pose proof (sorted_skipn _ k2 repAnalyses Hsorted) as Hs.
    fold lastThird in Hs. rewrite Hlast in *.
    inversion Hs as [| ? ? _ Hp]; subst.
    constructor; [lia | exact Hp]. }
  assert (Hhigh : Forall (fun r => (smoothness (quality r)
                                    <= smoothness (quality pivot))%Z)
                         firstThird).
  { apply Forall_forall. intros r Hr.
    apply (sorted_cross
             (fun a b => (smoothness (quality a) <= smoothness (quality b))%Z)
             firstThird (skipn k1 repAnalyses) r pivot).
    - unfold firstThird. now rewrite firstn_skipn.
    - exact Hr.
    - now apply (skipn_incl k1 k2). }
  assert (Hpivot : (0 <= smoothness (quality pivot))%Z).
  { apply (proj1 (Forall_forall _ _) Hnonneg).
    now apply (skipn_incl 0 k2); [lia |]. }
  unfold averageOf.
  rewrite (fold_plus_map (fun r => inject_Z (smoothness (quality r)))
                         lastThird),
          (fold_plus_map (fun r => inject_Z (smoothness (quality r)))
                         firstThird).
  rewrite <- (length_map (fun r => inject_Z (smoothness (quality r))) lastThird).
  rewrite <- (length_map (fun r => inject_Z (smoothness (quality r))) firstThird).
  set (p := inject_Z (smoothness (quality pivot))).
  assert (Hp : 0 <= p) by (unfold p; now rewrite <- (Zle_Qle 0)).
  pose proof (mean_lower
                (map (fun r => inject_Z (smoothness (quality r))) lastThird) p)
    as Hl.
  pose proof (mean_upper
                (map (fun r => inject_Z (smoothness (quality r))) firstThird) p)
    as Hh.
  unfold Qlt_bool. apply negb_false_iff. apply Qle_bool_iff.
  assert (Ha : p <= fold_left Qplus
                      (map (fun r => inject_Z (smoothness (quality r))) lastThird) 0
                    / inject_Z (Z.of_nat (List.length
                        (map (fun r => inject_Z (smoothness (quality r)))
                             lastThird)))).
  { apply Hl; [rewrite Hlast; discriminate |].
    apply Forall_forall. intros v Hv. apply in_map_iff in Hv.
    destruct Hv as [r [<- Hr]]. unfold p. rewrite <- Zle_Qle.
    exact (proj1 (Forall_forall _ _) Hlow r Hr). }
  assert (Hb : fold_left Qplus
                 (map (fun r => inject_Z (smoothness (quality r))) firstThird) 0
               / inject_Z (Z.of_nat (List.length
                   (map (fun r => inject_Z (smoothness (quality r)))
                        firstThird))) <= p).
  { apply Hh; [destruct firstThird; [contradiction | discriminate] |].
    apply Forall_forall. intros v Hv. apply in_map_iff in Hv.
    destruct Hv as [r [<- Hr]]. unfold p. rewrite <- Zle_Qle.
    exact (proj1 (Forall_forall _ _) Hhigh r Hr). }
  clear Hl Hh.
  generalize dependent (fold_left Qplus
                          (map (fun r => inject_Z (smoothness (quality r)))
                               lastThird) 0
                        / inject_Z (Z.of_nat (List.length
                            (map (fun r => inject_Z (smoothness (quality r)))
                                 lastThird)))).
  intros a Ha.
  generalize dependent (fold_left Qplus
                          (map (fun r => inject_Z (smoothness (quality r)))
                               firstThird) 0
                        / inject_Z (Z.of_nat (List.length
                            (map (fun r => inject_Z (smoothness (quality r)))
                                 firstThird)))).
  intros b Hb. Lqa.lra.
Qed.


Lemma averageOf_constant (f : Quality -> Z) (l : list RepAnalysis) (c : Z) :
  l <> [] -> Forall (fun r => f (quality r) = c) l ->
  averageOf f l == inject_Z c.
Proof.
  intros Hne Hall.
  destruct (averageOf_bounds f l c c Hne) as [H1 H2].
  - eapply Forall_impl; [| exact Hall]. cbn beta. intros r ->. lia.
  - now apply Qle_antisym.
Qed.

Lemma framesIn_empty (keep : string -> bool) (names : list string) :
  framesIn keep (map (fun name : string => (name, @nil nat)) names) = 0%nat.
Proof.
  unfold framesIn. induction names as [| name rest IH]; [reflexivity |].
  cbn [map filter fst]. destruct (keep name); [| exact IH].
  cbn [fold_left snd List.length]. exact IH.
Qed.

(** The analysis of no frames at all. *)
Lemma analyzeRepProgression_empty (exerciseId : string) (analysis : RepAnalysis) :
  analyzeRepProgression [] exerciseId = Ok (Some analysis) ->
  frameCount analysis = 0%nat /\ quality analysis = mkQuality 100 100 50.
Proof.
  unfold analyzeRepProgression.
  destruct (getProp exercisePatterns exerciseId) as [pattern | |];
    try discriminate.
  intros [= <-]. cbn [frameCount quality]. split; [reflexivity |].
  f_equal. unfold identifyPhases, extractMetricProgression, mapi.
  cbn [mapiFrom tl fold_left table]. unfold analyzeTempoControl.
  now rewrite framesIn_empty.
Qed.

Lemma collect_Forall {A : Type} (P : A -> Prop)
      (l : list (result (option A))) (values : list A) :
  Forall (fun m => forall v, m = Ok (Some v) -> P v) l ->
  Pipeline.collect l = Ok values -> Forall P values.
Proof.
  intros Hall. revert values.
  induction Hall as [| m rest Hm _ IH]; intros values Hcollect.
  - cbn in Hcollect. injection Hcollect as <-. constructor.
  - cbn [Pipeline.collect] in Hcollect.
    destruct m as [[v |] | msg]; cbn [bind] in Hcollect; [| | discriminate].
    + destruct (Pipeline.collect rest) as [tail | msg]; cbn [bind] in Hcollect;
        [| discriminate].
      injection Hcollect as <-. constructor; [now apply Hm | now apply IH].
    + destruct (Pipeline.collect rest) as [tail | msg]; cbn [bind] in Hcollect;
        [| discriminate].
      injection Hcollect as <-. now apply IH.
Qed.

(** X9.  Every per-repetition analysis that analyzeVideo obtains covers
    no frame and carries the scores of an empty repetition (smoothness
    100, symmetry 100, tempo 50); the consistency report of two or more
    repetitions is therefore always an average quality of 83 without
    fatigue. *)
Theorem rep_consistency_is_constant (validFrameResults : list AnalyzedFrame)
        (repRanges : list RepCounting.RepRange) (exerciseId : string)
        (analyses : list RepAnalysis) :
  Pipeline.repProgressionAnalyses validFrameResults repRanges exerciseId
  = Ok analyses ->
  Forall (fun a => frameCount a = 0%nat /\ quality a = mkQuality 100 100 50)
         analyses
  /\ match repConsistency analyses with
     | None => (List.length analyses < 2)%nat
     | Some c => c = mkConsistency (List.length analyses) 83 false [] []
     end.
Proof.
  intros Hrun.
  assert (Hall : Forall (fun a => frameCount a = 0%nat
                                  /\ quality a = mkQuality 100 100 50) analyses).
  { unfold Pipeline.repProgressionAnalyses in Hrun.
    refine (collect_Forall _ _ analyses _ Hrun).
    apply Forall_forall. intros m Hm. apply in_map_iff in Hm.
    destruct Hm as [r [<- _]]. rewrite repFrames_empty.
    intros v. apply analyzeRepProgression_empty. }
  split; [exact Hall |].
  unfold repConsistency, compareRepProgression.
  destruct (Nat.ltb_spec 1 (List.length analyses)) as [Hge | Hlt]; [| lia].
  destruct (Nat.ltb_spec (List.length analyses) 2) as [Hlt | _]; [lia |].
  assert (Hne : analyses <> [])
    by (destruct analyses; [cbn in Hge; lia | discriminate]).
  assert (Hsmooth : forall l, l <> [] -> incl l analyses ->
                              averageOf smoothness l == 100).
  { intros l Hl Hincl. apply (averageOf_constant smoothness l 100 Hl).
    apply Forall_forall. intros r Hr.
    destruct (proj1 (Forall_forall _ _) Hall r (Hincl r Hr)) as [_ ->].
    reflexivity. }
  assert (Hsym : averageOf symmetry analyses == 100).
  { apply (averageOf_constant symmetry analyses 100 Hne).
    eapply Forall_impl; [| exact Hall]. cbn beta. now intros r [_ ->]. }
  assert (Htempo : averageOf controlledTempo analyses == 50).
  { apply (averageOf_constant controlledTempo analyses 50 Hne).
    eapply Forall_impl; [| exact Hall]. cbn beta. now intros r [_ ->]. }
  assert (Hfatigue : fatigued analyses = false).
  { unfold fatigued.
    destruct (Nat.leb_spec 3 (List.length analyses)) as [Hn | Hn];
      [| reflexivity].
    destruct (thirds _ Hn) as [[Hthird Hthirds] Hbelow].
    unfold Qlt_bool. apply negb_false_iff. apply Qle_bool_iff.
    rewrite !Hsmooth; [discriminate | | | |].
    - intros H. apply (f_equal (@List.length _)) in H.
      rewrite length_skipn in H. cbn [List.length] in H. lia.
    - intros r Hr. now apply (skipn_incl 0 (List.length analyses * 2 / 3));
        [lia |].
    - intros H. apply (f_equal (@List.length _)) in H.
      rewrite length_firstn in H. cbn [List.length] in H. lia.
    - intros r Hr. rewrite <- (firstn_skipn (List.length analyses / 3) analyses).
      apply in_or_app. now left. }
  rewrite Hfatigue. f_equal. f_equal. unfold round.
  rewrite (Hsmooth analyses Hne (incl_refl _)), Hsym, Htempo. reflexivity.
Qed.

End RepComparisonFacts.

(** ** Adaptive analysis and the confidence of the score *)

Section AdaptiveFacts.

Import Js Data Adaptive.
Local Open Scope Q_scope.
Local Arguments String.eqb : simpl never.

Lemma modeScore_range (availableLandmarks : list nat) (config : Requirement) :
  0 <= modeScore availableLandmarks config
  /\ modeScore availableLandmarks config <= 1.
Proof.
  unfold modeScore.
  pose proof (filter_length_le (includesIndex availableLandmarks)
                               (required config)) as Hle.
  generalize dependent (List.length (filter (includesIndex availableLandmarks)
                                            (required config))).
  intros found Hle.
  destruct (required config) as [| lm rest].
  - cbn [List.length] in Hle. assert (Hf : found = 0%nat) by lia.
    rewrite Hf. split; discriminate.
  - assert (Hn : 0 < inject_Z (Z.of_nat (List.length (lm :: rest))))
      by (apply nat_Q_pos; cbn [List.length]; lia).
    split.
    + apply div_nonneg; [| exact Hn]. rewrite <- (Zle_Qle 0). lia.
    + apply Qle_shift_div_r; [exact Hn |].
      rewrite Qmult_1_l, <- Zle_Qle. lia.
Qed.

(** The best mode so far and its score, as the loop of
    determineAnalysisMode keeps them. *)
Lemma considerMode_bestSoFar (requirements : list (string * Requirement))
      (availableLandmarks : list nat) (best : option AnalysisMode * Q)
      (entry : string * Requirement) :
  bestSoFar best ->
  bestSoFar (considerMode requirements availableLandmarks best entry).
Proof.
  intros Hbest. unfold considerMode.
  destruct (modeScore_range availableLandmarks (snd entry)) as [_ Hle].
  unfold Qlt_bool.
  destruct (Qle_bool (modeScore availableLandmarks (snd entry)) (snd best))
    eqn:Hcmp; cbn [negb]; [exact Hbest |].
  unfold bestSoFar. cbn [fst snd confidence].
  split; [reflexivity |]. split; [| exact Hle].
  assert (Hnot : ~ modeScore availableLandmarks (snd entry) <= snd best).
  { intros H. apply Qle_bool_iff in H. congruence. }
  apply Qnot_le_lt in Hnot.
  assert (H0 : 0 <= snd best).
  { unfold bestSoFar in Hbest. destruct (fst best).
    - destruct Hbest as [_ [H _]]. now apply Qlt_le_weak.
    - rewrite Hbest. apply Qle_refl. }
  Lqa.lra.
Qed.

Lemma modes_bestSoFar (requirements modes : list (string * Requirement))
      (availableLandmarks : list nat) (best : option AnalysisMode * Q) :
  bestSoFar best ->
  bestSoFar (fold_left (considerMode requirements availableLandmarks)
                       modes best).
Proof.
  revert best. induction modes as [| entry rest IH]; intros best Hbest;
    [exact Hbest |].
  cbn [fold_left]. apply IH. now apply considerMode_bestSoFar.
Qed.

Lemma determineAnalysisMode_range (exerciseId : string)
      (availableLandmarks : list nat) (analysisMode : AnalysisMode) :
  determineAnalysisMode exerciseId availableLandmarks = Ok analysisMode ->
  0 <= confidence analysisMode /\ confidence analysisMode <= 1.
Proof.
  unfold determineAnalysisMode.
  destruct (getProp landmarkRequirements exerciseId) as [requirements | |];
    [| discriminate | intros [= <-]; split; discriminate].
  pose proof (modes_bestSoFar requirements requirements availableLandmarks
                              (None, 0) eq_refl) as Hbest.
  unfold bestSoFar in Hbest.
  destruct (fst (fold_left _ requirements (None, 0))) as [m |].
  - intros [= <-]. destruct Hbest as [-> [H0 H1]].
    split; [now apply Qlt_le_weak | exact H1].
  - destruct (ownProp requirements "full"); [| discriminate].
    intros [= <-]. split; discriminate.
Qed.

Lemma generateAdaptiveReport_range (exerciseId : string)
      (frames : list AnalyzedFrame) (report : AdaptiveReport) :
  generateAdaptiveReport exerciseId frames = Ok report ->
  0 <= reportConfidence report /\ reportConfidence report <= 1.
Proof.
  unfold generateAdaptiveReport. destruct frames as [| f rest].
  - intros [= <-]. split; discriminate.
  - destruct (determineAnalysisMode exerciseId _) as [m | msg] eqn:Hmode;
      [| discriminate].
    cbn [bind]. intros [= <-]. cbn [reportConfidence].
    exact (determineAnalysisMode_range _ _ _ Hmode).
Qed.

Lemma baseScore_range (frames : list AnalyzedFrame)
      (significant : list Aggregation.SignificantError) :
  (0 <= Aggregation.baseScore frames significant <= 100)%Z.
Proof. unfold Aggregation.baseScore. destruct frames; lia. Qed.

(** X10.  The confidence reported by generateAdaptiveReport lies
    between 0 and 1, so the final score of analyzeVideo is an integer
    between 0 and the base score, which is at most 100. *)
Theorem score_within_base (exerciseId : string)
        (validFrameResults : list AnalyzedFrame) (report : AdaptiveReport)
        (significant : list Aggregation.SignificantError) (base final : Z) :
  scoreWithConfidence exerciseId validFrameResults
  = Ok (report, (significant, base, final)) ->
  0 <= reportConfidence report /\ reportConfidence report <= 1
  /\ completenessScore report == reportConfidence report * 100
  /\ (0 <= final <= base)%Z /\ (base <= 100)%Z.
Proof.
  unfold scoreWithConfidence.
  destruct (generateAdaptiveReport exerciseId validFrameResults)
    as [r | msg] eqn:Hreport; [| discriminate].
  cbn [bind]. unfold Aggregation.scoreVideo.
  destruct (Aggregation.significantErrors validFrameResults) as [sig | msg];
    [| discriminate].
  cbn [bind]. intros [= <- <- <- <-].
  destruct (generateAdaptiveReport_range _ _ _ Hreport) as [H0 H1].
  pose proof (baseScore_range validFrameResults sig) as [Hb0 Hb1].
  split; [exact H0 |]. split; [exact H1 |]. split.
  - unfold generateAdaptiveReport in Hreport.
    destruct validFrameResults as [| f rest].
    + injection Hreport as <-. reflexivity.
    + destruct (determineAnalysisMode exerciseId _); [| discriminate].
      cbn [bind] in Hreport. injection Hreport as <-. reflexivity.
  - split; [| exact Hb1]. unfold Aggregation.score. apply round_bounds.
    + change (inject_Z 0) with 0. apply Qmult_le_0_compat; [| exact H0].
      now rewrite <- (Zle_Qle 0).
    + assert (Hb : 0 <= inject_Z (Aggregation.baseScore validFrameResults sig))
        by now rewrite <- (Zle_Qle 0).
      generalize dependent (inject_Z (Aggregation.baseScore validFrameResults sig)).
      intros b Hb. Lqa.nra.
Qed.


Lemma round_integer (z : Z) (x : Q) : x == inject_Z z -> round x = z.
Proof.
  intros Hx.
  assert (H : (z <= round x <= z)%Z)
    by (apply round_bounds; rewrite Hx; apply Qle_refl).
  lia.
Qed.

(** X11.  For an exercise without landmark requirements (bench_press
    and pull_up among the exercises of the catalog) the adaptive report
    has mode 'unknown' and confidence 0, so the final score is 0
    whatever the errors are. *)
Theorem unsupported_exercise_scores_zero (exerciseId : string)
        (validFrameResults : list AnalyzedFrame) (report : AdaptiveReport)
        (significant : list Aggregation.SignificantError) (base final : Z) :
  getProp landmarkRequirements exerciseId = Absent ->
  scoreWithConfidence exerciseId validFrameResults
  = Ok (report, (significant, base, final)) ->
  reportConfidence report = 0 /\ final = 0%Z
  /\ (validFrameResults <> [] -> analysisMode report = "unknown"%string).
Proof.
  intros Habsent. unfold scoreWithConfidence, generateAdaptiveReport.
  assert (Hzero : forall b, Aggregation.score b 0 = 0%Z).
  { intros b. unfold Aggregation.score. apply round_integer. ring. }
  destruct validFrameResults as [| f rest].
  - cbn [bind]. unfold Aggregation.scoreVideo.
    destruct (Aggregation.significantErrors []) as [sig | msg];
      [| discriminate].
    cbn [bind reportConfidence]. intros [= <- <- <- <-].
    split; [reflexivity |]. split; [apply Hzero | now intros []].
  - unfold determineAnalysisMode. rewrite Habsent. cbn [bind confidence mode].
    unfold Aggregation.scoreVideo.
    destruct (Aggregation.significantErrors (f :: rest)) as [sig | msg];
      [| discriminate].
    cbn [bind reportConfidence]. intros [= <- <- <- <-].
    cbn [reportConfidence analysisMode].
    split; [reflexivity |]. split; [apply Hzero | reflexivity].
Qed.

Lemma catalog_full_first (exerciseId : string)
      (requirements : list (string * Requirement)) :
  getProp landmarkRequirements exerciseId = Own requirements ->
  exists full others,
    requirements = ("full"%string, full) :: others
    /\ required full <> [].
Proof.
  unfold getProp, landmarkRequirements. cbn [ownProp].
  repeat (destruct (String.eqb _ exerciseId);
          [intros [= <-]; eexists; eexists; split;
           [reflexivity | discriminate] |]).
  destruct (isInheritedKey exerciseId); discriminate.
Qed.

Lemma fold_keeps_full (requirements modes : list (string * Requirement))
      (availableLandmarks : list nat) (best : option AnalysisMode * Q) :
  snd best == 1 ->
  fold_left (considerMode requirements availableLandmarks) modes best = best.
Proof.
  intros Hone. induction modes as [| entry rest IH]; [reflexivity |].
  cbn [fold_left]. unfold considerMode at 2.
  destruct (modeScore_range availableLandmarks (snd entry)) as [_ Hle].
  assert (Hcmp : Qle_bool (modeScore availableLandmarks (snd entry)) (snd best)
                 = true).
  { apply Qle_bool_iff. now rewrite Hone. }
  unfold Qlt_bool. rewrite Hcmp. cbn [negb]. exact IH.
Qed.

Lemma filter_incl_all (availableLandmarks l : list nat) :
  incl l availableLandmarks ->
  filter (includesIndex availableLandmarks) l = l
  /\ filter (fun lm => negb (includesIndex availableLandmarks lm)) l = [].
Proof.
  intros Hincl.
  assert (Hall : Forall (fun lm => includesIndex availableLandmarks lm = true) l).
  { apply Forall_forall. intros lm Hlm. unfold includesIndex.
    apply existsb_exists. exists lm. split; [now apply Hincl |].
    apply Nat.eqb_refl. }
  split.
  - now apply filter_all.
  - clear Hincl. induction Hall as [| lm rest Hlm _ IH]; [reflexivity |].
    cbn [filter]. rewrite Hlm. cbn [negb]. exact IH.
Qed.

Lemma filter_own_checks (l : list string) :
  filter (fun c => negb (existsb (String.eqb c) l)) l = [].
Proof.
  assert (H : forall l', incl l' l ->
                         filter (fun c => negb (existsb (String.eqb c) l)) l' = []).
  { induction l' as [| c rest IH]; intros Hincl; [reflexivity |].
    cbn [filter].
    assert (Hc : existsb (String.eqb c) l = true).
    { apply existsb_exists. exists c. split; [apply Hincl; now left |].
      apply String.eqb_refl. }
    rewrite Hc. cbn [negb]. apply IH. intros x Hx. apply Hincl. now right. }
  apply H. apply incl_refl.
Qed.

(** X12.  When every landmark that the 'full' mode of the exercise
    requires is consistently visible, the report has mode 'full',
    confidence 1, no missing landmark and no unavailable check, and the
    final score is the base score. *)
Theorem full_view_keeps_base_score (exerciseId : string)
        (validFrameResults : list AnalyzedFrame)
        (requirements : list (string * Requirement)) (full : Requirement)
        (report : AdaptiveReport)
        (significant : list Aggregation.SignificantError) (base final : Z) :
  getProp landmarkRequirements exerciseId = Own requirements ->
  ownProp requirements "full" = Some full ->
  validFrameResults <> [] ->
  incl (required full)
       (available (detectAvailableLandmarks validFrameResults 0.5 0.7)) ->
  scoreWithConfidence exerciseId validFrameResults
  = Ok (report, (significant, base, final)) ->
  analysisMode report = "full"%string
  /\ reportConfidence report == 1
  /\ missing report = []
  /\ unavailableChecks report = []
  /\ final = base.
Proof.
  intros Hreq Hfull Hframes Hincl.
  destruct (catalog_full_first exerciseId requirements Hreq)
    as [full' [others [-> Hne]]].
  cbn [ownProp] in Hfull. rewrite String.eqb_refl in Hfull.
  injection Hfull as ->.
  unfold scoreWithConfidence, generateAdaptiveReport.
  destruct validFrameResults as [| f rest]; [contradiction |].
  set (frames := f :: rest) in *.
  set (visible := available (detectAvailableLandmarks frames 0.5 0.7)) in *.
  unfold determineAnalysisMode. rewrite Hreq.
  destruct (filter_incl_all visible (required full) Hincl) as [Hall Hnone].
  assert (Hscore : modeScore visible full == 1).
  { unfold modeScore. rewrite Hall.
    assert (Hn : 0 < inject_Z (Z.of_nat (List.length (required full)))).
    { apply nat_Q_pos. destruct (required full); [contradiction | cbn; lia]. }
    field. Lqa.lra. }
  cbn [fold_left]. unfold considerMode at 2. cbn [fst snd].
  assert (Hfirst : Qlt_bool 0 (modeScore visible full) = true).
  { unfold Qlt_bool. apply negb_true_iff.
    destruct (Qle_bool (modeScore visible full) 0) eqn:Hcmp; [| reflexivity].
    apply Qle_bool_iff in Hcmp. rewrite Hscore in Hcmp.
    exfalso. now apply (Qlt_not_le 0 1). }
  rewrite Hfirst, fold_keeps_full by exact Hscore.
  cbn [fst bind mode confidence missingLandmarks availableChecks allChecks
       ownProp].
  rewrite String.eqb_refl.
  unfold Aggregation.scoreVideo.
  destruct (Aggregation.significantErrors frames) as [sig | msg];
    [| discriminate].
  cbn [bind reportConfidence]. intros [= <- <- <- <-].
  cbn [analysisMode reportConfidence missing unavailableChecks].
  split; [reflexivity |]. split; [exact Hscore |]. split; [exact Hnone |].
  split; [apply filter_own_checks |].
  unfold Aggregation.score. apply round_integer. rewrite Hscore. ring.
Qed.


(** The largest share of required landmarks that are available, over
    the modes of an exercise. *)
Lemma fold_max_compat (l : list Q) (a b : Q) :
  a == b -> fold_left Qmax l a == fold_left Qmax l b.
Proof.
  revert a b. induction l as [| x rest IH]; intros a b Hab; [exact Hab |].
  cbn [fold_left]. apply IH. now rewrite Hab.
Qed.

Lemma fold_max_monotone (l l' : list Q) (a b : Q) :
  a <= b -> Forall2 Qle l l' -> fold_left Qmax l a <= fold_left Qmax l' b.
Proof.
  intros Hab Hall. revert a b Hab.
  induction Hall as [| x y rest rest' Hxy _ IH]; intros a b Hab; [exact Hab |].
  cbn [fold_left]. apply IH. now apply Q.max_le_compat.
Qed.

Lemma modes_score (requirements modes : list (string * Requirement))
      (availableLandmarks : list nat) (best : option AnalysisMode * Q) :
  snd (fold_left (considerMode requirements availableLandmarks) modes best)
  == fold_left Qmax
               (map (fun entry => modeScore availableLandmarks (snd entry)) modes)
               (snd best).
Proof.
  revert best. induction modes as [| entry rest IH]; intros best;
    [reflexivity |].
  cbn [fold_left map]. rewrite IH. apply fold_max_compat.
  unfold considerMode, Qlt_bool.
  destruct (Qle_bool (modeScore availableLandmarks (snd entry)) (snd best))
    eqn:Hcmp; cbn [negb snd].
  - apply Qle_bool_iff in Hcmp. symmetry. now apply Q.max_l.
  - symmetry. apply Q.max_r.
    destruct (Qlt_le_dec (snd best) (modeScore availableLandmarks (snd entry)))
      as [Hlt | Hle]; [now apply Qlt_le_weak |].
    apply Qle_bool_iff in Hle. congruence.
Qed.

Lemma determineAnalysisMode_share (exerciseId : string)
      (requirements : list (string * Requirement))
      (availableLandmarks : list nat) (analysisMode : AnalysisMode) :
  getProp landmarkRequirements exerciseId = Own requirements ->
  determineAnalysisMode exerciseId availableLandmarks = Ok analysisMode ->
  confidence analysisMode == bestShare requirements availableLandmarks.
Proof.
  intros Hreq. unfold determineAnalysisMode. rewrite Hreq.
  pose proof (modes_bestSoFar requirements requirements availableLandmarks
                              (None, 0) eq_refl) as Hbest.
  pose proof (modes_score requirements requirements availableLandmarks
                          (None, 0)) as Hscore.
  cbn [snd] in Hscore. fold (bestShare requirements availableLandmarks) in Hscore.
  unfold bestSoFar in Hbest.
  destruct (fst (fold_left _ requirements (None, 0))) as [m |].
  - intros [= <-]. destruct Hbest as [-> _]. exact Hscore.
  - destruct (ownProp requirements "full"); [| discriminate].
    intros [= <-]. cbn [confidence]. now rewrite <- Hscore, Hbest.
Qed.

Lemma modeScore_monotone (fewer more : list nat) (config : Requirement) :
  incl fewer more -> modeScore fewer config <= modeScore more config.
Proof.
  intros Hincl. unfold modeScore.
  assert (Hlen : (List.length (filter (includesIndex fewer) (required config))
                  <= List.length (filter (includesIndex more) (required config)))%nat).
  { induction (required config) as [| lm rest IH]; [cbn; lia |].
    cbn [filter].
    destruct (includesIndex fewer lm) eqn:Hf.
    - assert (Hm : includesIndex more lm = true).
      { unfold includesIndex in *. apply existsb_exists in Hf.
        destruct Hf as [k [Hk Heq]]. apply existsb_exists.
        exists k. split; [now apply Hincl | exact Heq]. }
      rewrite Hm. cbn [List.length]. lia.
    - destruct (includesIndex more lm); cbn [List.length]; lia. }
  destruct (required config) as [| lm rest].
  - cbn [filter List.length]. apply Qle_refl.
  - apply Qle_shift_div_l; [apply nat_Q_pos; cbn [List.length]; lia |].
    unfold Qdiv. rewrite <- Qmult_assoc, (Qmult_comm (/ _)), Qmult_inv_r.
    + rewrite Qmult_1_r, <- Zle_Qle. lia.
    + intros H. assert (Hpos : 0 < inject_Z (Z.of_nat (List.length (lm :: rest))))
        by (apply nat_Q_pos; cbn [List.length]; lia).
      rewrite H in Hpos. discriminate Hpos.
Qed.

(** X13.  The confidence of the analysis mode is the largest share of
    required landmarks that are available, taken over the modes of the
    exercise; so a larger set of available landmarks never gives a
    lower confidence. *)
Theorem confidence_is_best_share (exerciseId : string)
        (requirements : list (string * Requirement))
        (fewer more : list nat) (m m' : AnalysisMode) :
  getProp landmarkRequirements exerciseId = Own requirements ->
  determineAnalysisMode exerciseId fewer = Ok m ->
  determineAnalysisMode exerciseId more = Ok m' ->
  incl fewer more ->
  confidence m == bestShare requirements fewer
  /\ confidence m' == bestShare requirements more
  /\ confidence m <= confidence m'.
Proof.
  intros Hreq Hm Hm' Hincl.
  pose proof (determineAnalysisMode_share _ _ _ _ Hreq Hm) as H1.
  pose proof (determineAnalysisMode_share _ _ _ _ Hreq Hm') as H2.
  split; [exact H1 |]. split; [exact H2 |].
  rewrite H1, H2. unfold bestShare.
  apply fold_max_monotone; [apply Qle_refl |].
  clear Hreq H1 H2.
  induction requirements as [| entry rest IH]; [constructor |].
  cbn [map]. constructor; [now apply modeScore_monotone | exact IH].
Qed.


(** The number of frames whose landmark array reaches index [i], and
    the number of those that show the landmark. *)
Lemma recordLandmarks_nth (visibilityThreshold : Q) (stats : list Visibility)
      (landmarkArray : list (option Landmark)) (i : nat) :
  nth i (recordLandmarks visibilityThreshold stats landmarkArray)
      (mkVisibility 0 0)
  = let s := nth i stats (mkVisibility 0 0) in
    if (i <? List.length landmarkArray)%nat
    then mkVisibility
           (visibleCount s
            + if countsVisible visibilityThreshold (nth i landmarkArray None)
              then 1 else 0)
           (totalCount s + 1)
    else s.
Proof.
  cbn zeta. revert stats i.
  induction landmarkArray as [| landmark others IH]; intros stats i.
  - cbn [recordLandmarks List.length]. reflexivity.
  - cbn [recordLandmarks]. destruct stats as [| s rest]; destruct i as [| i];
      cbn [nth List.length visibleCount totalCount].
    + reflexivity.
    + rewrite IH. change (S i <? S (List.length others))%nat
        with (i <? List.length others)%nat.
      now destruct i.
    + reflexivity.
    + rewrite IH. reflexivity.
Qed.

Lemma landmarkVisibility_nth (visibilityThreshold : Q)
      (frames : list AnalyzedFrame) (stats : list Visibility) (i : nat) :
  nth i (fold_left (fun stats frame =>
                      match landmarks frame with
                      | Some landmarkArray =>
                          recordLandmarks visibilityThreshold stats landmarkArray
                      | None => stats
                      end) frames stats)
      (mkVisibility 0 0)
  = mkVisibility
      (visibleCount (nth i stats (mkVisibility 0 0))
       + framesShowing visibilityThreshold i frames)
      (totalCount (nth i stats (mkVisibility 0 0)) + framesWith i frames).
Proof.
  revert stats. induction frames as [| f rest IH]; intros stats.
  - cbn [fold_left]. unfold framesShowing, framesWith. cbn [filter List.length].
    rewrite !Nat.add_0_r. now destruct (nth i stats _).
  - cbn [fold_left]. rewrite IH. unfold framesShowing, framesWith.
    cbn [filter]. destruct (landmarks f) as [landmarkArray |];
      [| reflexivity].
    rewrite recordLandmarks_nth. cbn zeta.
    destruct (Nat.ltb_spec i (List.length landmarkArray)) as [Hlt | Hge].
    + cbn [visibleCount totalCount].
      destruct (countsVisible _ _); cbn [List.length]; f_equal; lia.
    + rewrite (nth_overflow landmarkArray None Hge). cbn [countsVisible].
      reflexivity.
Qed.

Lemma available_in (consistencyThreshold : Q) (stats : list Visibility)
      (start i : nat) :
  In i (flat_map (fun entry : nat * Visibility =>
                    if consistentlyVisible consistencyThreshold (snd entry)
                    then [fst entry] else [])
                 (combine (seq start (List.length stats)) stats))
  <-> (start <= i)%nat
      /\ exists s, nth_error stats (i - start) = Some s
                   /\ consistentlyVisible consistencyThreshold s = true.
Proof.
  revert start. induction stats as [| s rest IH]; intros start.
  - cbn. split; [contradiction |].
    intros [_ [s [Hs _]]]. destruct (i - start)%nat; discriminate.
  - cbn [List.length seq combine flat_map fst snd]. rewrite in_app_iff, IH.
    split.
    + intros [Hhead | [Hle [s' [Hs' Hc]]]].
      * destruct (consistentlyVisible consistencyThreshold s) eqn:Hc;
          [| contradiction].
        destruct Hhead as [<- | []]. split; [lia |].
        exists s. rewrite Nat.sub_diag. now split.
      * split; [lia |]. exists s'. split; [| exact Hc].
        replace (i - start)%nat with (S (i - S start)) by lia. exact Hs'.
    + intros [Hle [s' [Hs' Hc]]].
      destruct (Nat.eq_dec i start) as [-> | Hne].
      * left. rewrite Nat.sub_diag in Hs'. cbn in Hs'. injection Hs' as <-.
        rewrite Hc. now left.
      * right. split; [lia |]. exists s'. split; [| exact Hc].
        replace (i - start)%nat with (S (i - S start)) in Hs' by lia.
        exact Hs'.
Qed.

Lemma available_sorted (consistencyThreshold : Q) (stats : list Visibility)
      (start : nat) :
  StronglySorted lt
    (flat_map (fun entry : nat * Visibility =>
                 if consistentlyVisible consistencyThreshold (snd entry)
                 then [fst entry] else [])
              (combine (seq start (List.length stats)) stats)).
Proof.
  revert start. induction stats as [| s rest IH]; intros start; [constructor |].
  cbn [List.length seq combine flat_map fst snd].
  destruct (consistentlyVisible consistencyThreshold s); [| apply IH].
  cbn [app]. constructor; [apply IH |].
  apply Forall_forall. intros k Hk. apply available_in in Hk. lia.
Qed.

(** X14.  A landmark is available exactly when it is visible in at
    least the consistency share of the frames whose landmark array
    holds it; the available landmarks are listed in increasing order. *)
Theorem available_landmarks (frames : list AnalyzedFrame)
        (visibilityThreshold consistencyThreshold : Q) (i : nat) :
  let analysis :=
    detectAvailableLandmarks frames visibilityThreshold consistencyThreshold in
  (In i (available analysis)
   <-> (0 < framesWith i frames)%nat
       /\ consistencyThreshold
          <= inject_Z (Z.of_nat (framesShowing visibilityThreshold i frames))
             / inject_Z (Z.of_nat (framesWith i frames)))
  /\ StronglySorted lt (available analysis)
  /\ totalFrames analysis = List.length frames.
Proof.
  cbn zeta. unfold detectAvailableLandmarks. cbn [available totalFrames].
  split; [| split; [apply available_sorted | reflexivity]].
  rewrite available_in. rewrite Nat.sub_0_r.
  set (stats := landmarkVisibility frames visibilityThreshold).
  pose proof (landmarkVisibility_nth visibilityThreshold frames [] i) as Hnth.
  fold (landmarkVisibility frames visibilityThreshold) in Hnth. fold stats in Hnth.
  assert (Hzero : nth i (@nil Visibility) (mkVisibility 0 0) = mkVisibility 0 0)
    by now destruct i.
  rewrite Hzero in Hnth. cbn [visibleCount totalCount Nat.add] in Hnth.
  split.
  - intros [_ [s [Hs Hc]]].
    rewrite (nth_error_nth _ _ _ Hs) in Hnth. subst s.
    unfold consistentlyVisible in Hc. cbn [visibleCount totalCount] in Hc.
    apply andb_true_iff in Hc. destruct Hc as [Hpos Hshare].
    apply Nat.ltb_lt in Hpos. apply Qle_bool_iff in Hshare. now split.
  - intros [Hpos Hshare]. split; [lia |].
    destruct (nth_error stats i) as [s |] eqn:Hs.
    + exists s. split; [reflexivity |].
      rewrite (nth_error_nth _ _ _ Hs) in Hnth. subst s.
      unfold consistentlyVisible. cbn [visibleCount totalCount].
      apply andb_true_iff. split; [now apply Nat.ltb_lt |].
      now apply Qle_bool_iff.
    + apply nth_error_None in Hs.
      rewrite (nth_overflow stats _ Hs) in Hnth.
      injection Hnth as _ Htotal. lia.
Qed.

End AdaptiveFacts.

(** ** Validation engine *)

Section ValidationFacts.

Import Js Data Validation.

Variables NamedLandmarks Features : Type.
Variable predicate : string -> NamedLandmarks -> Features -> result bool.

Lemma getExerciseById_catalog (exerciseId : string)
      (rules : list (string * Severity)) :
  In (exerciseId, rules) ruleTable ->
  getExerciseById predicate exerciseId
  = Some (mkExercise exerciseId
            (Some (map (fun rule =>
                          mkValidationCheck (fst rule) (snd rule)
                                            (predicate (fst rule)))
                       rules))).
Proof.
  intros Hin. cbn in Hin.
  repeat (destruct Hin as [[= <- <-] | Hin]; [reflexivity |]).
  contradiction.
Qed.

Lemma getExerciseById_some (exerciseId : string)
      (exercise : Exercise NamedLandmarks Features) :
  getExerciseById predicate exerciseId = Some exercise ->
  exists rules, In (exerciseId, rules) ruleTable.
Proof.
  unfold getExerciseById.
  destruct (String.eqb exerciseId ""); [discriminate |].
  intros Hfind. apply find_some in Hfind. destruct Hfind as [Hin Heq].
  unfold EXERCISES in Hin. apply in_map_iff in Hin.
  destruct Hin as [[name rules] [<- Hentry]].
  cbn [Validation.exerciseId fst] in Heq. apply String.eqb_eq in Heq.
  subst name. now exists rules.
Qed.

(** An issue is reported exactly for the rules of the exercise whose
    predicate returns a true value; a rule whose predicate raises is
    passed over. *)
Lemma validateForm_in (exerciseId : string) (landmarks : NamedLandmarks)
      (angles : Features) (e : Issue) :
  In e (validateForm predicate (ById _ _ exerciseId) landmarks angles)
  <-> exists rules,
        In (exerciseId, rules) ruleTable
        /\ In (id e, severity e) rules
        /\ predicate (id e) landmarks angles = Ok true.
Proof.
  unfold validateForm. split.
  - intros Hin.
    destruct (getExerciseById predicate exerciseId) as [exercise |] eqn:Hget;
      [| contradiction].
    destruct (getExerciseById_some _ _ Hget) as [rules Hrules].
    rewrite (getExerciseById_catalog _ _ Hrules) in Hget.
    injection Hget as <-. cbn [validationChecks] in Hin.
    apply in_flat_map in Hin. destruct Hin as [check [Hcheck Hfires]].
    apply in_map_iff in Hcheck. destruct Hcheck as [[ruleId sev] [<- Hrule]].
    cbn [validate checkId checkSeverity fst snd] in Hfires.
    destruct (predicate ruleId landmarks angles) as [[|] | msg] eqn:Hp;
      try contradiction.
    destruct Hfires as [<- | []]. cbn [id severity].
    exists rules. now repeat split.
  - intros [rules [Hrules [Hrule Hp]]].
    rewrite (getExerciseById_catalog _ _ Hrules). cbn [validationChecks].
    apply in_flat_map.
    exists (mkValidationCheck (id e) (severity e) (predicate (id e))).
    split.
    + apply in_map_iff. exists (id e, severity e). now split.
    + cbn [validate checkId checkSeverity]. rewrite Hp.
      left. now destruct e.
Qed.

(** A rule of the exercise is among the issues of a frame exactly when
    its predicate returns a true value. *)
Lemma validateForm_reports (exerciseId ruleId : string) (sev : Severity)
      (rules : list (string * Severity)) (landmarks : NamedLandmarks)
      (angles : Features) :
  In (exerciseId, rules) ruleTable -> In (ruleId, sev) rules ->
  In ruleId (map id (validateForm predicate (ById _ _ exerciseId)
                                  landmarks angles))
  <-> predicate ruleId landmarks angles = Ok true.
Proof.
  intros Hrules Hrule. split.
  - intros Hin. apply in_map_iff in Hin. destruct Hin as [e [<- He]].
    apply validateForm_in in He. now destruct He as [_ [_ [_ Hp]]].
  - intros Hp. apply in_map_iff. exists (mkIssue ruleId sev).
    split; [reflexivity |]. apply validateForm_in.
    exists rules. now repeat split.
Qed.

Lemma catalog_rule (exerciseId ruleId : string) (sev : Severity)
      (rules : list (string * Severity)) :
  In (exerciseId, rules) ruleTable -> In (ruleId, sev) rules ->
  In ruleId catalogRuleIds.
Proof.
  intros Hrules Hrule. unfold catalogRuleIds. apply in_flat_map.
  exists (exerciseId, rules). split; [exact Hrules |].
  cbn [snd]. apply in_map_iff. now exists (ruleId, sev).
Qed.

Lemma validateForm_ordinary (exerciseId : string) (landmarks : NamedLandmarks)
      (angles : Features) :
  Forall (fun e => Aggregation.ordinaryKey (id e) = true)
         (validateForm predicate (ById _ _ exerciseId) landmarks angles).
Proof.
  apply Forall_forall. intros e He. apply validateForm_in in He.
  destruct He as [rules [Hrules [Hrule _]]].
  pose proof (catalog_rule _ _ _ _ Hrules Hrule) as Hin.
  exact (proj1 (forallb_forall _ _) catalog_rule_ids_ordinary _ Hin).
Qed.

Lemma flat_map_NoDup {A B : Type} (f : A -> list B) (key : A -> B) (l : list A) :
  (forall a b, In b (f a) -> b = key a) ->
  (forall a, (List.length (f a) <= 1)%nat) ->
  NoDup (map key l) -> NoDup (flat_map f l).
Proof.
  intros Hkey Hone. induction l as [| a rest IH]; intros Hnodup;
    [constructor |].
  cbn [map] in Hnodup. inversion Hnodup as [| ? ? Hnotin Hrest]; subst.
  cbn [flat_map]. pose proof (Hone a) as Hlen. pose proof (Hkey a) as Ha.
  destruct (f a) as [| b [| b' more]]; cbn [List.length] in Hlen; [| | lia].
  - now apply IH.
  - cbn [app]. constructor; [| now apply IH].
    intros Hin. apply in_flat_map in Hin. destruct Hin as [a' [Ha' Hb]].
    apply Hnotin. rewrite <- (Ha b (or_introl eq_refl)).
    rewrite (Hkey a' b Hb). now apply in_map.
Qed.

(** X15.  For an exercise id, validateForm reports an issue exactly for
    each rule of that exercise in the catalog whose predicate returns a
    true value, with the severity of the catalog; a predicate that
    raises silences its own rule only.  No rule is reported twice, and
    every id reported is an ordinary property key. *)
Theorem validateForm_reports_fired_rules (exerciseId : string)
        (landmarks : NamedLandmarks) (angles : Features) :
  let errors :=
    validateForm predicate (ById _ _ exerciseId) landmarks angles in
  (forall e,
      In e errors
      <-> exists rules,
            In (exerciseId, rules) ruleTable
            /\ In (id e, severity e) rules
            /\ predicate (id e) landmarks angles = Ok true)
  /\ NoDup (map id errors)
  /\ Forall (fun e => Aggregation.ordinaryKey (id e) = true) errors.
Proof.
  cbn zeta. split; [intros e; apply validateForm_in |].
  split; [| apply validateForm_ordinary].
  unfold validateForm.
  destruct (getExerciseById predicate exerciseId) as [exercise |] eqn:Hget;
    [| constructor].
  destruct (getExerciseById_some _ _ Hget) as [rules Hrules].
  rewrite (getExerciseById_catalog _ _ Hrules) in Hget.
  injection Hget as <-. cbn [validationChecks].
  rewrite flat_map_concat_map, concat_map, map_map, <- flat_map_concat_map.
  rewrite flat_map_concat_map, map_map, <- flat_map_concat_map.
  apply (flat_map_NoDup _ fst).
  - intros [ruleId sev] b. cbn [validate checkId checkSeverity fst snd].
    destruct (predicate ruleId landmarks angles) as [[|] | msg];
      cbn [map]; try contradiction.
    now intros [<- | []].
  - intros [ruleId sev]. cbn [validate checkId checkSeverity fst snd].
    destruct (predicate ruleId landmarks angles) as [[|] | msg];
      cbn [map List.length]; lia.
  - cbn in Hrules.
    repeat (destruct Hrules as [[= <- <-] | Hrules];
            [cbn [map fst];
             repeat constructor; cbn [In]; intuition discriminate |]).
    contradiction.
Qed.

End ValidationFacts.

(** ** Per-frame analysis *)

Section PoseFacts.

Import Js Data Validation Pose Invariant.
Local Open Scope string_scope.
Local Open Scope Q_scope.

Variable angle : Pose.Landmark -> Pose.Landmark -> Pose.Landmark -> Q.

Lemma Qlt_bool_true (a b : Q) : Qlt_bool a b = true <-> a < b.
Proof.
  unfold Qlt_bool. rewrite negb_true_iff.
  split.
  - intros H. apply Qnot_le_lt. intros Hle.
    apply Qle_bool_iff in Hle. congruence.
  - intros H. destruct (Qle_bool b a) eqn:Hle; [| reflexivity].
    apply Qle_bool_iff in Hle. exfalso. now apply (Qlt_not_le a b).
Qed.

Lemma Ok_true (b : bool) : Ok b = Ok true <-> b = true.
Proof. split; [now intros [= ->] | now intros ->]. Qed.

(** An issue of a frame comes from the validation of a detected pose
    whose features could be extracted. *)
Lemma analyzePose_errors (exerciseId : string)
      (detected : option PoseLandmarks) (e : Issue) :
  In e (frameErrors (analyzePose angle exerciseId detected)) ->
  exists landmarks value,
    detected = Some landmarks
    /\ Pose.analyzeExercise angle exerciseId landmarks = Ok value
    /\ In e (validateForm predicate (ById _ _ exerciseId)
                          (landmarksWithNames landmarks) (featuresOf value)).
Proof.
  unfold analyzePose. destruct detected as [landmarks |];
    [| cbn [frameErrors In]; intros []].
  destruct (Pose.analyzeExercise angle exerciseId landmarks) as [value | msg]
    eqn:Hvalue; [| cbn [frameErrors In]; intros []].
  cbn [frameErrors]. intros Hin. now exists landmarks, value.
Qed.

Lemma analyzePose_id (exerciseId : string) (landmarks : PoseLandmarks)
      (f : Features) :
  Pose.analyzeExercise angle exerciseId landmarks = Ok (FeatureSet f) ->
  analyzePose angle exerciseId (Some landmarks)
  = mkFrameAnalysis (Some landmarks)
      (validateForm predicate (ById _ _ exerciseId)
                    (landmarksWithNames landmarks) f)
      f.
Proof. intros H. unfold analyzePose. now rewrite H. Qed.

Lemma rule_owner (exerciseId ruleId : string) (sev : Severity)
      (rules : list (string * Severity)) :
  In (exerciseId, rules) ruleTable -> In (ruleId, sev) rules ->
  ownerOf ruleId = Some exerciseId.
Proof.
  intros Hrules Hrule. cbn in Hrules.
  repeat (destruct Hrules as [[= <- <-] | Hrules];
          [cbn in Hrule;
           repeat (destruct Hrule as [[= <- <-] | Hrule]; [reflexivity |]);
           contradiction |]).
  contradiction.
Qed.

Lemma owner_rule (exerciseId ruleId : string) :
  ownerOf ruleId = Some exerciseId ->
  exists rules sev,
    In (exerciseId, rules) ruleTable /\ In (ruleId, sev) rules.
Proof.
  unfold ownerOf. intros Howner.
  destruct (find _ ruleTable) as [[name rules] |] eqn:Hfind; [| discriminate].
  injection Howner as <-. apply find_some in Hfind.
  destruct Hfind as [Hrules Hrule]. cbn [fst snd] in Hrule.
  apply existsb_exists in Hrule. destruct Hrule as [[rule sev] [Hin Heq]].
  cbn [fst] in Heq. apply String.eqb_eq in Heq. subst rule.
  now exists rules, sev.
Qed.

(** A rule is among the issues of a frame of its exercise exactly when
    its predicate returns a true value. *)
Lemma reported_iff (exerciseId ruleId : string) (landmarks : PoseLandmarks)
      (f : Features) :
  ownerOf ruleId = Some exerciseId ->
  Pose.analyzeExercise angle exerciseId landmarks = Ok (FeatureSet f) ->
  In ruleId (map id (frameErrors (analyzePose angle exerciseId
                                              (Some landmarks))))
  <-> predicate ruleId (landmarksWithNames landmarks) f = Ok true.
Proof.
  intros Howner Hvalue. rewrite (analyzePose_id _ _ _ Hvalue).
  cbn [frameErrors]. apply owner_rule in Howner.
  destruct Howner as [rules [sev [Hrules Hrule]]].
  now apply (validateForm_reports _ _ predicate exerciseId ruleId sev rules).
Qed.

Lemma analyzeExercise_deadlift (landmarks : PoseLandmarks) :
  Pose.analyzeExercise angle "deadlift" landmarks
  = Ok (FeatureSet (analyzeDeadlift angle landmarks)).
Proof. reflexivity. Qed.

Lemma analyzeExercise_squat (landmarks : PoseLandmarks) :
  Pose.analyzeExercise angle "squat" landmarks
  = Ok (FeatureSet (analyzeSquat angle landmarks)).
Proof. reflexivity. Qed.

Lemma analyzeExercise_press (landmarks : PoseLandmarks) :
  Pose.analyzeExercise angle "overhead_press" landmarks
  = Ok (FeatureSet (analyzeOverheadPress angle landmarks)).
Proof. reflexivity. Qed.

Lemma angleWhenUsable_cases (a b c : option Pose.Landmark) :
  angleWhenUsable angle a b c
  = match a, b, c with
    | Some a', Some b', Some c' => Number (angle a' b' c')
    | _, _, _ => Null
    end.
Proof. now destruct a, b, c. Qed.

(** X16.  The deadlift rule hyperextension (back angle above 185
    degrees) is never reported on a frame, whatever the exercise and
    the pose: the back angle is an angle of three landmarks, at most
    180 degrees. *)
Theorem hyperextension_never_reported :
  (forall a b c, angle a b c <= 180) ->
  forall (exerciseId : string) (detected : option PoseLandmarks),
    ~ In "hyperextension"
         (map id (frameErrors (analyzePose angle exerciseId detected))).
Proof.
  intros Hrange exerciseId detected Hin.
  apply in_map_iff in Hin. destruct Hin as [e [Hid He]].
  apply analyzePose_errors in He.
  destruct He as [landmarks [value [-> [Hvalue He]]]].
  apply validateForm_in in He. destruct He as [rules [Hrules [Hrule Hp]]].
  rewrite Hid in Hrule, Hp.
  pose proof (rule_owner _ _ _ _ Hrules Hrule) as Howner.
  change (ownerOf "hyperextension") with (Some "deadlift") in Howner.
  injection Howner as <-.
  rewrite analyzeExercise_deadlift in Hvalue. injection Hvalue as <-.
  change (Ok (above (backAngle (analyzeDeadlift angle landmarks)) 185)
          = Ok true) in Hp.
  injection Hp as Hp. cbn [analyzeDeadlift backAngle] in Hp.
  rewrite angleWhenUsable_cases in Hp.
  destruct (landmarkAt landmarks 11) as [a |],
           (landmarkAt landmarks 23) as [b |],
           (landmarkAt landmarks 25) as [c |];
    cbn [above] in Hp; apply Qlt_bool_true in Hp;
    try (pose proof (Hrange a b c)); Lqa.lra.
Qed.

(** X17.  A rule that tests an angle with [<] is reported when the
    angle could not be computed, since [null < c] holds: the deadlift
    rule rounded_back and the squat rule excessive_lean are reported on
    a frame exactly when the left shoulder, hip or knee is unusable, or
    the angle at the left hip is below 150, respectively 70, degrees. *)
Theorem missing_trunk_landmark_reports_issue (landmarks : PoseLandmarks) :
  let hipAngleBelow (c : Q) :=
    match landmarkAt landmarks 11, landmarkAt landmarks 23,
          landmarkAt landmarks 25 with
    | Some shoulder, Some hip, Some knee => angle shoulder hip knee < c
    | _, _, _ => True
    end in
  (In "rounded_back"
      (map id (frameErrors (analyzePose angle "deadlift" (Some landmarks))))
   <-> hipAngleBelow 150)
  /\ (In "excessive_lean"
         (map id (frameErrors (analyzePose angle "squat" (Some landmarks))))
      <-> hipAngleBelow 70).
Proof.
  cbn zeta. split.
  - rewrite (reported_iff "deadlift" "rounded_back" landmarks _ eq_refl
                          (analyzeExercise_deadlift landmarks)).
    change (predicate "rounded_back" (landmarksWithNames landmarks)
                      (analyzeDeadlift angle landmarks))
      with (Ok (below (Pose.backAngle (analyzeDeadlift angle landmarks)) 150)).
    cbn [analyzeDeadlift Pose.backAngle]. rewrite angleWhenUsable_cases.
    destruct (landmarkAt landmarks 11) as [a |],
             (landmarkAt landmarks 23) as [b |],
             (landmarkAt landmarks 25) as [c |];
      cbn [below]; rewrite Ok_true, Qlt_bool_true;
      (reflexivity || (split; [trivial | intros _; Lqa.lra])).
  - rewrite (reported_iff "squat" "excessive_lean" landmarks _ eq_refl
                          (analyzeExercise_squat landmarks)).
    change (predicate "excessive_lean" (landmarksWithNames landmarks)
                      (analyzeSquat angle landmarks))
      with (Ok (below (Pose.hipAngle (analyzeSquat angle landmarks)) 70)).
    cbn [analyzeSquat Pose.hipAngle]. rewrite angleWhenUsable_cases.
    destruct (landmarkAt landmarks 11) as [a |],
             (landmarkAt landmarks 23) as [b |],
             (landmarkAt landmarks 25) as [c |];
      cbn [below]; rewrite Ok_true, Qlt_bool_true;
      (reflexivity || (split; [trivial | intros _; Lqa.lra])).
Qed.

(** What calculateBackRounding returns on two shoulders and two hips:
    the lateral deviation is the difference of one expression with
    itself, so the result is rounded exactly when its depth deviation
    exceeds 0.14; and the depth deviation is 0 when the four landmarks
    lie at one depth. *)
Lemma calculateBackRounding_depth (landmarks : PoseLandmarks)
      (ls rs lh rh : Pose.Landmark) :
  landmarkAt landmarks 11 = Some ls -> landmarkAt landmarks 12 = Some rs ->
  landmarkAt landmarks 23 = Some lh -> landmarkAt landmarks 24 = Some rh ->
  exists r,
    calculateBackRounding landmarks = Some r
    /\ xDeviation r == 0
    /\ (isRounded r = true <-> 0.14 < zDeviation r)
    /\ (depth rs == depth ls -> depth lh == depth ls ->
        depth rh == depth ls -> zDeviation r == 0).
Proof.
  intros Hls Hrs Hlh Hrh. unfold calculateBackRounding, calculateMidBack.
  rewrite Hls, Hrs, Hlh, Hrh. eexists. split; [reflexivity |].
  cbn [xDeviation zDeviation isRounded midX midZ].
  assert (Hx : (x lh + x rh) / 2
               + ((x ls + x rs) / 2 - (x lh + x rh) / 2) * 0.4
               - ((x lh + x rh) / 2
                  + ((x ls + x rs) / 2 - (x lh + x rh) / 2) * 0.4) == 0)
    by ring.
  split; [exact Hx |]. split.
  - rewrite orb_true_iff, !Qlt_bool_true, Hx.
    change (Qabs 0) with 0. split; [intros [H | H] |]; [exact H | | tauto].
    exfalso. Lqa.lra.
  - intros H1 H2 H3. rewrite H1, H2, H3. field.
Qed.

Lemma calculateBackRounding_missing (landmarks : PoseLandmarks) :
  landmarkAt landmarks 11 = None \/ landmarkAt landmarks 12 = None
  \/ landmarkAt landmarks 23 = None \/ landmarkAt landmarks 24 = None ->
  calculateBackRounding landmarks = None.
Proof.
  unfold calculateBackRounding.
  intros [H | [H | [H | H]]]; rewrite H;
    destruct (landmarkAt landmarks 11), (landmarkAt landmarks 12),
             (landmarkAt landmarks 23), (landmarkAt landmarks 24);
    try reflexivity; discriminate.
Qed.

(** The mid-back rule of an exercise is reported exactly when the
    feature backRounding of the frame is a rounded result. *)
Lemma mid_back_rule_reported (exerciseId ruleId : string)
      (landmarks : PoseLandmarks) :
  In (exerciseId, ruleId)
     [ ("squat", "back_rounding_squat"); ("deadlift", "mid_back_rounding");
       ("overhead_press", "mid_back_rounding_press") ] ->
  In ruleId (map id (frameErrors (analyzePose angle exerciseId
                                              (Some landmarks))))
  <-> match fst (roundingWhenUsable landmarks) with
      | Some r => isRounded r = true
      | None => False
      end.
Proof.
  intros Hrule.
  assert (Hreads :
            exists f,
              Pose.analyzeExercise angle exerciseId landmarks
              = Ok (FeatureSet f)
              /\ ownerOf ruleId = Some exerciseId
              /\ predicate ruleId (landmarksWithNames landmarks) f
                 = Ok (backIsRounded f)
              /\ backRounding f = fst (roundingWhenUsable landmarks)).
  { cbn [In] in Hrule.
    destruct Hrule as [[= <- <-] | [[= <- <-] | [[= <- <-] | []]]];
      eexists; (split; [reflexivity |]); now repeat split. }
  destruct Hreads as [f [Hvalue [Howner [Hp Hf]]]].
  rewrite (reported_iff _ _ _ _ Howner Hvalue), Hp, Ok_true.
  unfold backIsRounded. rewrite Hf.
  destruct (fst (roundingWhenUsable landmarks)) as [r |];
    [reflexivity | split; [discriminate | tauto]].
Qed.

Lemma roundingWhenUsable_result (landmarks : PoseLandmarks) :
  fst (roundingWhenUsable landmarks) = calculateBackRounding landmarks.
Proof.
  unfold roundingWhenUsable.
  destruct (landmarkAt landmarks 11) as [ls |] eqn:Hls;
    [| cbn; symmetry; apply calculateBackRounding_missing; tauto].
  destruct (landmarkAt landmarks 12) as [rs |] eqn:Hrs;
    [| cbn; symmetry; apply calculateBackRounding_missing; tauto].
  destruct (landmarkAt landmarks 23) as [lh |] eqn:Hlh;
    [| cbn; symmetry; apply calculateBackRounding_missing; tauto].
  destruct (landmarkAt landmarks 24) as [rh |] eqn:Hrh;
    [| cbn; symmetry; apply calculateBackRounding_missing; tauto].
  reflexivity.
Qed.


(** X24.  A rule that reads a coordinate of a missing landmark raises
    and is passed over: on a squat frame without a left or a right knee
    none of the rules knee_valgus, heel_lift, knee_forward_travel and
    asymmetric_descent is reported. *)
Theorem missing_knee_silences_rules (landmarks : PoseLandmarks)
        (ruleId : string) :
  landmarkAt landmarks 25 = None \/ landmarkAt landmarks 26 = None ->
  In ruleId [ "knee_valgus"; "heel_lift"; "knee_forward_travel";
              "asymmetric_descent" ] ->
  ~ In ruleId (map id (frameErrors (analyzePose angle "squat"
                                                (Some landmarks)))).
Proof.
  intros Hknee Hrule Hin.
  assert (Hraises :
            ownerOf ruleId = Some "squat"
            /\ exists msg,
                 predicate ruleId (landmarksWithNames landmarks)
                           (analyzeSquat angle landmarks)
                 = Throw msg).
  { cbn [In] in Hrule. unfold landmarksWithNames.
    destruct Hrule as [<- | [<- | [<- | [<- | []]]]];
      (split; [reflexivity |]);
      unfold predicate; cbn [String.eqb Ascii.eqb Bool.eqb];
      cbn [leftKnee rightKnee leftAnkle rightAnkle];
      unfold spread, midpoint, read;
      destruct Hknee as [-> | ->];
      destruct (landmarkAt landmarks 25), (landmarkAt landmarks 26),
               (landmarkAt landmarks 27), (landmarkAt landmarks 28);
      cbn [bind]; eexists; reflexivity. }
  destruct Hraises as [Howner [msg Hthrow]].
  apply (reported_iff _ _ _ _ Howner (analyzeExercise_squat landmarks)) in Hin.
  congruence.
Qed.

Lemma sidesApart_nonNegative (l r : Feature) :
  nonNegative (sidesApart l r).
Proof.
  unfold sidesApart. destruct l as [| | p]; try exact I.
  destruct r as [| | q]; try exact I.
  destruct (truthy (Number p) && truthy (Number q)); [| exact I].
  apply Qabs_nonneg.
Qed.

Lemma analyzePose_asymmetry (exerciseId : string)
      (detected : option PoseLandmarks) :
  nonNegative
    (Pose.asymmetry (analysis (analyzePose angle exerciseId detected))).
Proof.
  unfold analyzePose. destruct detected as [landmarks |]; [| exact I].
  unfold Pose.analyzeExercise, Validation.analyzeExercise.
  destruct (getProp _ exerciseId) as [analyzeFn | |] eqn:Hget.
  - unfold getProp in Hget.
    destruct (ownProp _ exerciseId) as [fn |] eqn:Hown;
      [| destruct (isInheritedKey exerciseId); discriminate].
    injection Hget as ->. cbn [ownProp analysisMap] in Hown.
    repeat (destruct (String.eqb _ exerciseId);
            [injection Hown as <-; cbn; try exact I;
             apply sidesApart_nonNegative |]).
    discriminate.
  - unfold callInherited.
    destruct (_ || _); [exact I |].
    destruct (String.eqb exerciseId "toString"); exact I.
  - exact I.
Qed.

(** X19.  The frames that the frame pipeline produces always aggregate:
    the error aggregation of analyzeVideo does not raise on them, every
    significant error it returns is a rule of the analysed exercise with
    the severity of the catalog, no rule is returned twice, and no frame
    carries a negative asymmetry. *)
Theorem pipeline_frames_aggregate (exerciseId : string)
        (results : list (Q * nat * option PoseLandmarks)) :
  let frames :=
    map (fun r : Q * nat * option PoseLandmarks =>
           frameResult (fst (fst r)) (snd (fst r))
                       (analyzePose angle exerciseId (snd r)))
        results in
  (exists kept : list Issue,
      Aggregation.significantErrors frames
      = Ok (map (Spec.report frames) kept)
      /\ NoDup (map id kept)
      /\ Forall (fun e => exists rules,
                            In (exerciseId, rules) ruleTable
                            /\ In (id e, severity e) rules)
                kept)
  /\ Forall (fun f => nonNegative (Data.asymmetry f)) frames.
Proof.
  cbn zeta.
  set (frames := map _ results).
  assert (Hissues :
            forall p, In p (Spec.issueList frames) ->
                      exists rules,
                        In (exerciseId, rules) ruleTable
                        /\ In (id (snd p), severity (snd p)) rules).
  { intros [t e] Hin. unfold Spec.issueList in Hin.
    apply in_flat_map in Hin. destruct Hin as [f [Hf He]].
    apply in_map_iff in He. destruct He as [e' [[= _ ->] He]].
    unfold frames in Hf. apply in_map_iff in Hf.
    destruct Hf as [[[t' i] d] [<- _]].
    cbn [frameResult errors fst snd] in He.
    apply analyzePose_errors in He.
    destruct He as [landmarks [value [_ [_ He]]]].
    apply validateForm_in in He. destruct He as [rules [Hrules [Hrule _]]].
    now exists rules. }
  split.
  - eexists. split.
    + apply significantErrors_spec. apply Forall_forall. intros p Hp.
      destruct (Hissues p Hp) as [rules [Hrules Hrule]].
      pose proof (catalog_rule _ _ _ _ Hrules Hrule) as Hin.
      exact (proj1 (forallb_forall _ _) catalog_rule_ids_ordinary _ Hin).
    + split.
      * assert (Hsub : forall l : list Issue,
                   NoDup (map id l) ->
                   NoDup (map id (Spec.bySeverityDescending l))).
        { intros l Hl. unfold Spec.bySeverityDescending.
          cbn [flat_map]. rewrite app_nil_r, !map_app.
          assert (Hf : forall s, NoDup (map id (filter (Spec.hasSeverity s) l))).
          { intros s. induction l as [| a rest IH]; [constructor |].
            cbn [map] in Hl. inversion Hl as [| ? ? Hnotin Hrest]; subst.
            cbn [filter]. destruct (Spec.hasSeverity s a); [| now apply IH].
            cbn [map]. constructor; [| now apply IH].
            intros Hin. apply Hnotin. apply in_map_iff in Hin.
            destruct Hin as [b [Hb Hin]]. apply filter_In in Hin.
            apply in_map_iff. exists b. tauto. }
          assert (Hd : forall s s' ruleId,
                     s <> s' ->
                     In ruleId (map id (filter (Spec.hasSeverity s) l)) ->
                     In ruleId (map id (filter (Spec.hasSeverity s') l)) ->
                     False).
          { intros s s' ruleId Hne H1 H2.
            apply in_map_iff in H1. destruct H1 as [a [Ha H1]].
            apply in_map_iff in H2. destruct H2 as [b [Hb H2]].
            apply filter_In in H1. apply filter_In in H2.
            destruct H1 as [Hina Hsa], H2 as [Hinb Hsb].
            assert (a = b).
            { clear Hf. induction l as [| c rest IH]; [contradiction |].
              cbn [map] in Hl. inversion Hl as [| ? ? Hnotin Hrest]; subst.
              destruct Hina as [<- | Hina], Hinb as [<- | Hinb].
              - reflexivity.
              - exfalso. apply Hnotin. apply in_map_iff. exists b.
                split; [congruence | exact Hinb].
              - exfalso. apply Hnotin. apply in_map_iff. exists a.
                split; [congruence | exact Hina].
              - now apply IH. }
            subst b. apply Hne.
            destruct s, s', (severity a) eqn:Hsev;
              unfold Spec.hasSeverity in Hsa, Hsb; rewrite Hsev in Hsa, Hsb;
              congruence. }
          repeat (apply NoDup_app; [apply Hf | |]); try apply Hf;
            intros ruleId H1 H2; rewrite ?in_app_iff in H2;
            repeat (destruct H2 as [H2 | H2]);
            (eapply Hd; [| exact H1 | exact H2]; discriminate). }
        apply Hsub.
        assert (Hfilter : forall (p : Issue -> bool) (l : list Issue),
                   NoDup (map id l) -> NoDup (map id (filter p l))).
        { intros p l. induction l as [| a rest IH]; intros Hl; [constructor |].
          cbn [map] in Hl. inversion Hl as [| ? ? Hnotin Hrest]; subst.
          cbn [filter]. destruct (p a); [| now apply IH].
          cbn [map]. constructor; [| now apply IH].
          intros Hin. apply Hnotin. apply in_map_iff in Hin.
          destruct Hin as [b [Hb Hin]]. apply filter_In in Hin.
          apply in_map_iff. exists b. tauto. }
        apply Hfilter. apply mergedRules_NoDup.
      * apply Forall_forall. intros e He.
        apply (proj1 (bySeverityDescending_In _ _)) in He. apply filter_In in He.
        destruct He as [He _]. apply mergedRules_incl in He.
        apply in_map_iff in He. destruct He as [p [<- Hp]].
        exact (Hissues p Hp).
  - unfold frames. apply Forall_forall. intros f Hf.
    apply in_map_iff in Hf. destruct Hf as [[[t i] d] [<- _]].
    cbn [frameResult Data.asymmetry fst snd].
    apply analyzePose_asymmetry.
Qed.

End PoseFacts.

(** ** Sample frames of an issue *)

Section SampleFacts.

Import Js Samples.
Local Open Scope Q_scope.

Variable IssueFrame : Type.
Variable frameIndex : IssueFrame -> nat.


Lemma runsOf_head (prevFrame : IssueFrame) (rest : list IssueFrame) :
  exists run runs, runsOf frameIndex prevFrame rest = (prevFrame :: run) :: runs.
Proof.
  revert prevFrame. induction rest as [| currFrame rest' IH]; intros prevFrame.
  - now exists [], [].
  - cbn [Samples.runsOf]. destruct (IH currFrame) as [run [runs ->]].
    destruct (continues frameIndex prevFrame currFrame).
    + now exists (currFrame :: run), runs.
    + now exists [], ((currFrame :: run) :: runs).
Qed.

Lemma groupFrames_runs (rest : list IssueFrame) :
  forall (sequences : list (list IssueFrame)) (before : list IssueFrame)
         (prevFrame : IssueFrame),
    groupFrames frameIndex sequences (before ++ [prevFrame]) prevFrame rest
    = sequences ++ match runsOf frameIndex prevFrame rest with
                   | run :: runs => (before ++ run) :: runs
                   | [] => []
                   end.
Proof.
  induction rest as [| currFrame rest' IH]; intros sequences before prevFrame.
  - cbn [Samples.groupFrames Samples.runsOf]. unfold pushSequence.
    now destruct before.
  - cbn [Samples.groupFrames Samples.runsOf].
    destruct (runsOf_head currFrame rest') as [run [runs Hruns]].
    destruct (continues frameIndex prevFrame currFrame).
    + rewrite IH, Hruns. now rewrite <- app_assoc.
    + replace (pushSequence sequences (before ++ [prevFrame]))
        with (sequences ++ [before ++ [prevFrame]])
        by (unfold pushSequence; now destruct before).
      rewrite (IH _ [] currFrame), Hruns, <- app_assoc. reflexivity.
Qed.

Lemma sequencesOf_runs (first : IssueFrame) (rest : list IssueFrame) :
  sequencesOf frameIndex first rest = runsOf frameIndex first rest.
Proof.
  unfold sequencesOf.
  pose proof (groupFrames_runs rest [] [] first) as Hgroup.
  cbn [app] in Hgroup. rewrite Hgroup.
  now destruct (runsOf_head first rest) as [run [runs ->]].
Qed.

Lemma runsOf_concat (prevFrame : IssueFrame) (rest : list IssueFrame) :
  List.concat (runsOf frameIndex prevFrame rest) = prevFrame :: rest.
Proof.
  revert prevFrame. induction rest as [| currFrame rest' IH]; intros prevFrame;
    [reflexivity |].
  cbn [Samples.runsOf]. pose proof (IH currFrame) as Hrest.
  destruct (runsOf frameIndex currFrame rest') as [| run runs]; [discriminate |].
  destruct (continues frameIndex prevFrame currFrame); cbn [List.concat app] in *;
    now rewrite Hrest.
Qed.

Lemma runsOf_chained (prevFrame : IssueFrame) (rest : list IssueFrame) :
  Forall (fun run => chained frameIndex run = true) (runsOf frameIndex prevFrame rest).
Proof.
  revert prevFrame. induction rest as [| currFrame rest' IH]; intros prevFrame.
  - now repeat constructor.
  - cbn [Samples.runsOf]. pose proof (IH currFrame) as Hrest.
    destruct (runsOf_head currFrame rest') as [run [runs Hruns]].
    rewrite Hruns in *. inversion Hrest as [| ? ? Hrun Hothers]; subst.
    destruct (continues frameIndex prevFrame currFrame) eqn:Hc.
    + constructor; [| exact Hothers].
      cbn [Samples.chained]. rewrite Hc. exact Hrun.
    + constructor; [reflexivity | now constructor].
Qed.

Lemma runsOf_separated (prevFrame : IssueFrame) (rest : list IssueFrame) :
  separated frameIndex (runsOf frameIndex prevFrame rest).
Proof.
  revert prevFrame. induction rest as [| currFrame rest' IH]; intros prevFrame.
  - cbn. now repeat split.
  - cbn [Samples.runsOf]. pose proof (IH currFrame) as Hrest.
    destruct (runsOf_head currFrame rest') as [run [runs Hruns]].
    rewrite Hruns in *.
    destruct (continues frameIndex prevFrame currFrame) eqn:Hc.
    + cbn [Samples.separated] in *. destruct Hrest as [_ [Hlast Hothers]].
      split; [discriminate |]. split; [| exact Hothers].
      exact Hlast.
    + cbn [Samples.separated lastOf] in *.
      split; [discriminate |]. split; [exact Hc | exact Hrest].
Qed.

(** X20.  The frames of an issue are cut into runs without losing or
    reordering a frame: the runs concatenate to the frames, no run is
    empty, successive frames of a run are at most two frame indices
    apart, and a run starts more than two frame indices after the run
    before it ends. *)
Theorem frames_grouped_into_runs (first : IssueFrame)
        (rest : list IssueFrame) :
  let runs := sequencesOf frameIndex first rest in
  List.concat runs = first :: rest
  /\ Forall (fun run => chained frameIndex run = true) runs
  /\ separated frameIndex runs.
Proof.
  cbn zeta. rewrite sequencesOf_runs.
  split; [apply runsOf_concat |].
  split; [apply runsOf_chained | apply runsOf_separated].
Qed.

Lemma selectSequence_first_longest (s : list IssueFrame)
      (others : list (list IssueFrame)) :
  exists before after,
    s :: others = before ++ selectSequence (s :: others) [] :: after
    /\ Forall (fun run => (List.length run
                           < List.length (selectSequence (s :: others) []))%nat)
              before
    /\ Forall (fun run => (List.length run
                           <= List.length (selectSequence (s :: others) []))%nat)
              after.
Proof.
  cbn [selectSequence].
  induction others as [| b rest IH] using rev_ind.
  - exists [], []. cbn [fold_left app]. now repeat split.
  - rewrite fold_left_app. cbn [fold_left].
    destruct IH as [before [after [Hsplit [Hbefore Hafter]]]].
    set (best := fold_left _ rest s) in *.
    destruct (Nat.leb_spec (List.length b) (List.length best)) as [Hle | Hlt].
    + exists before, (after ++ [b]). split; [| split].
      * change (s :: rest ++ [b]) with ((s :: rest) ++ [b]).
        rewrite Hsplit, <- app_assoc. reflexivity.
      * exact Hbefore.
      * apply Forall_app. split; [exact Hafter | now repeat constructor].
    + exists (s :: rest), []. split; [| split].
      * reflexivity.
      * rewrite Hsplit. apply Forall_app. split.
        -- eapply Forall_impl; [| exact Hbefore]. cbn beta. intros; lia.
        -- constructor; [exact Hlt |].
           eapply Forall_impl; [| exact Hafter]. cbn beta. intros; lia.
      * constructor.
Qed.

Lemma sampleIndex_value (a d m : Z) :
  (0 < d)%Z ->
  Qfloor (inject_Z a / inject_Z d * inject_Z m) = (a * m / d)%Z.
Proof.
  intros Hd. destruct d as [| p | p]; try lia.
  assert (Heq : inject_Z a / inject_Z (Z.pos p) * inject_Z m
                == (a * m) # p).
  { unfold Qeq, Qdiv, Qmult, Qinv, inject_Z. cbn.
    rewrite Pos.mul_1_r. ring. }
  rewrite Heq. reflexivity.
Qed.

Lemma elementAt_nat (l : list IssueFrame) (i : nat) :
  elementAt l (Z.of_nat i) = nth_error l i.
Proof.
  unfold elementAt. destruct (Z.ltb_spec (Z.of_nat i) 0); [lia |].
  now rewrite Nat2Z.id.
Qed.

Lemma sampledFrames_positions (selected : list IssueFrame) :
  sampledFrames selected
  = map (nth_error selected) (samplePositions (List.length selected)).
Proof.
  unfold sampledFrames.
  destruct selected as [| a [| b [| c rest]]]; try reflexivity.
  set (selected := a :: b :: c :: rest).
  assert (Hn : (3 <= List.length selected)%nat) by (cbn; lia).
  generalize dependent selected. intros selected Hn.
  replace (Nat.min 3 (List.length selected)) with 3%nat by lia.
  assert (Hpos : samplePositions (List.length selected)
                 = [0; (List.length selected - 1) / 2;
                    List.length selected - 1]%nat).
  { destruct (List.length selected) as [| [| [| n]]]; try lia. reflexivity. }
  rewrite Hpos. cbn [seq map]. unfold sampleIndex.
  change (Z.of_nat 3 - 1 =? 0)%Z with false. cbn match.
  change (Z.of_nat 3 - 1)%Z with 2%Z.
  rewrite !sampleIndex_value by lia.
  replace (Z.of_nat 0 * (Z.of_nat (List.length selected) - 1) / 2)%Z
    with (Z.of_nat 0) by reflexivity.
  replace (Z.of_nat 1 * (Z.of_nat (List.length selected) - 1) / 2)%Z
    with (Z.of_nat ((List.length selected - 1) / 2)).
  2:{ rewrite Nat2Z.inj_div, Nat2Z.inj_sub by lia.
      f_equal. change (Z.of_nat 1) with 1%Z. lia. }
  replace (Z.of_nat 2 * (Z.of_nat (List.length selected) - 1) / 2)%Z
    with (Z.of_nat (List.length selected - 1)).
  2:{ rewrite Nat2Z.inj_sub by lia. change (Z.of_nat 2) with 2%Z.
      change (Z.of_nat 1) with 1%Z.
      rewrite Z.mul_comm, Z.div_mul by lia. reflexivity. }
  now rewrite !elementAt_nat.
Qed.

Lemma readSamples_present (l : list IssueFrame) (positions : list nat) :
  Forall (fun i => (i < List.length l)%nat) positions ->
  exists samples,
    readSamples (map (nth_error l) positions) = Ok samples
    /\ map Some samples = map (nth_error l) positions.
Proof.
  induction 1 as [| i rest Hi _ IH].
  - now exists [].
  - destruct IH as [tail [Hread Htail]]. cbn [map readSamples].
    destruct (nth_error l i) as [f |] eqn:Hf.
    + exists (f :: tail). rewrite Hread. cbn [bind map].
      now rewrite Htail.
    + apply nth_error_None in Hf. lia.
Qed.

Lemma samplePositions_range (n : nat) :
  Forall (fun i => (i < n)%nat) (samplePositions n).
Proof.
  destruct n as [| [| [| n]]]; cbn [samplePositions].
  - constructor.
  - constructor; [lia | constructor].
  - constructor; [lia |]. constructor; [lia | constructor].
  - constructor; [lia |]. constructor; [| constructor; [lia | constructor]].
    apply Nat.Div0.div_lt_upper_bound. lia.
Qed.

(** X21.  The sample of an issue is taken from the first longest run of
    its frames: for a run of one or two frames the sample is the run
    itself, for a longer run of n frames it is the frames at positions
    0, floor((n - 1) / 2) and n - 1 of the run, so a sample always starts
    at the first and ends at the last frame of the run.  Building the
    sample never raises. *)
Theorem issue_sample_spans_longest_run (first : IssueFrame)
        (rest : list IssueFrame) :
  exists (before after : list (list IssueFrame))
         (selected samples : list IssueFrame),
    sequencesOf frameIndex first rest = before ++ selected :: after
    /\ Forall (fun run => (List.length run < List.length selected)%nat) before
    /\ Forall (fun run => (List.length run <= List.length selected)%nat) after
    /\ issueSample frameIndex (first :: rest) = Some (Ok samples)
    /\ map Some samples
       = map (nth_error selected) (samplePositions (List.length selected)).
Proof.
  unfold issueSample.
  destruct (sequencesOf frameIndex first rest) as [| s others] eqn:Hruns.
  { rewrite sequencesOf_runs in Hruns.
    destruct (runsOf_head first rest) as [run [runs Hhead]]. congruence. }
  destruct (selectSequence_first_longest s others)
    as [before [after [Hsplit [Hbefore Hafter]]]].
  assert (Hsame : selectSequence (s :: others) (first :: rest)
                  = selectSequence (s :: others) []) by reflexivity.
  rewrite Hsame. set (selected := selectSequence (s :: others) []) in *.
  rewrite sampledFrames_positions.
  destruct (readSamples_present selected _
              (samplePositions_range (List.length selected)))
    as [samples [Hread Hsamples]].
  exists before, after, selected, samples. rewrite Hread.
  now repeat split.
Qed.

End SampleFacts.

(** ** Exercise statistics *)

Section StorageFacts.

Import Js Storage.
Local Open Scope Q_scope.

Lemma ownProp_setProp (allStats : AllStats) (key key' : string)
      (stats : ExerciseStats) :
  ownProp (setProp allStats key stats) key'
  = if String.eqb key key' then Some stats else ownProp allStats key'.
Proof.
  induction allStats as [| [k v] rest IH].
  - cbn [setProp ownProp]. reflexivity.
  - cbn [setProp ownProp].
    destruct (String.eqb k key) eqn:Hk.
    + apply String.eqb_eq in Hk. subst k. cbn [ownProp].
      now destruct (String.eqb key key').
    + cbn [ownProp]. rewrite IH.
      destruct (String.eqb k key') eqn:Hk'; [| reflexivity].
      apply String.eqb_eq in Hk'. subst k.
      rewrite String.eqb_sym in Hk. now rewrite Hk.
Qed.

Lemma workoutsOf_snoc (exerciseId key : string) (workout : Workout)
      (log : list (string * Workout)) :
  workoutsOf exerciseId (log ++ [(key, workout)])
  = workoutsOf exerciseId log
    ++ (if String.eqb key exerciseId then [workout] else []).
Proof.
  unfold workoutsOf. rewrite filter_app, map_app. cbn [filter fst].
  now destruct (String.eqb key exerciseId).
Qed.

Lemma last_filter_snoc {A : Type} (p : A -> bool) (l : list A) (a d : A) :
  last (filter p (l ++ [a])) d = if p a then a else last (filter p l) d.
Proof.
  rewrite filter_app. cbn [filter].
  destruct (p a); [apply last_last | now rewrite app_nil_r].
Qed.

Lemma summarises_snoc (stats : ExerciseStats) (workouts : list Workout)
      (workout : Workout) :
  summarises stats workouts ->
  summarises
    (mkExerciseStats
       (totalSessions stats + 1)
       (fold_left (fun a b => a + inject_Z b)
                  (scoreHistory stats ++ [score workout]) 0
        / inject_Z (Z.of_nat (List.length
                                (scoreHistory stats ++ [score workout]))))
       (Z.max (bestScore stats) (score workout))
       (if Qeq_bool (weight workout) 0 then lastWeight stats
        else weight workout)
       (if (reps workout =? 0)%nat then lastReps stats else reps workout)
       (scoreHistory stats ++ [score workout]))
    (workouts ++ [workout]).
Proof.
  unfold summarises. cbn zeta.
  intros [Hhistory [Htotal [_ [Hbest [Hweight Hreps]]]]].
  cbn [scoreHistory totalSessions averageScore bestScore lastWeight lastReps].
  rewrite !map_app. cbn [map]. rewrite Hhistory.
  split; [reflexivity |].
  split; [rewrite length_app; cbn [List.length]; lia |].
  split.
  { rewrite (fold_plus_map inject_Z), ?map_app, ?length_app, ?length_map.
    cbn [map List.length]. reflexivity. }
  split; [now rewrite fold_left_app, Hbest |].
  rewrite !last_filter_snoc, Hweight, Hreps.
  split.
  - now destruct (Qeq_bool (weight workout) 0).
  - now destruct (reps workout =? 0)%nat.
Qed.

Lemma updateExerciseStats_upToDate (allStats : AllStats)
      (log : list (string * Workout)) (exerciseId : string)
      (workout : Workout) :
  upToDate allStats log -> isInheritedKey exerciseId = false ->
  exists updated stats,
    updateExerciseStats allStats exerciseId workout = Ok (updated, stats)
    /\ upToDate updated (log ++ [(exerciseId, workout)]).
Proof.
  intros Hlog Hkey.
  assert (Hstep :
            updateExerciseStats allStats exerciseId workout
            = let stats := statsOf allStats exerciseId in
              let history := scoreHistory stats ++ [score workout] in
              let updated :=
                mkExerciseStats
                  (totalSessions stats + 1)
                  (fold_left (fun a b => a + inject_Z b) history 0
                   / inject_Z (Z.of_nat (List.length history)))
                  (Z.max (bestScore stats) (score workout))
                  (if Qeq_bool (weight workout) 0 then lastWeight stats
                   else weight workout)
                  (if (reps workout =? 0)%nat then lastReps stats
                   else reps workout)
                  history in
              Ok (setProp allStats exerciseId updated, updated)).
  { unfold updateExerciseStats, getProp, statsOf.
    destruct (ownProp allStats exerciseId); [reflexivity |].
    now rewrite Hkey. }
  rewrite Hstep. cbn zeta. eexists. eexists. split; [reflexivity |].
  intros key. unfold statsOf. rewrite ownProp_setProp, workoutsOf_snoc.
  destruct (String.eqb exerciseId key) eqn:Hsame.
  - apply String.eqb_eq in Hsame. subst key. split.
    + apply summarises_snoc. apply Hlog.
    + split; [discriminate |].
      intros Hnil. now apply app_eq_nil in Hnil as [_ Hnil].
  - rewrite app_nil_r. apply Hlog.
Qed.

Lemma recordWorkouts_upToDate (rest recorded : list (string * Workout)) :
  forall allStats : AllStats,
    upToDate allStats recorded ->
    Forall (fun entry => isInheritedKey (fst entry) = false) rest ->
    exists final,
      recordWorkouts allStats rest = Ok final
      /\ upToDate final (recorded ++ rest).
Proof.
  revert recorded.
  induction rest as [| [exerciseId workout] rest IH];
    intros recorded allStats Hlog Hkeys.
  - exists allStats. now rewrite app_nil_r.
  - inversion Hkeys as [| ? ? Hkey Hrest]; subst. cbn [fst] in Hkey.
    destruct (updateExerciseStats_upToDate allStats recorded exerciseId
                                           workout Hlog Hkey)
      as [updated [stats [Hupdate Hupdated]]].
    cbn [recordWorkouts]. rewrite Hupdate. cbn [bind fst].
    destruct (IH _ updated Hupdated Hrest) as [final [Hfinal Hdone]].
    exists final. split; [exact Hfinal |].
    now rewrite <- app_assoc in Hdone.
Qed.

(** X23.  Starting from an empty store, the statistics stored after a
    log of workouts summarise it exercise by exercise: an exercise has
    an entry exactly when it has a workout in the log, and its entry
    holds the scores of its workouts in order, their number, their mean,
    the best score (at least 0), and the last non-zero weight and number
    of repetitions.  Updates never raise for exercise ids that are not
    names inherited from Object.prototype. *)
Theorem stats_summarise_recorded_workouts (log : list (string * Workout)) :
  Forall (fun entry => isInheritedKey (fst entry) = false) log ->
  exists allStats,
    recordWorkouts [] log = Ok allStats
    /\ forall exerciseId,
         match ownProp allStats exerciseId with
         | Some stats =>
             workoutsOf exerciseId log <> []
             /\ summarises stats (workoutsOf exerciseId log)
         | None => workoutsOf exerciseId log = []
         end.
Proof.
  intros Hkeys.
  destruct (recordWorkouts_upToDate log [] []) as [final [Hfinal Hdone]].
  - intros exerciseId. cbn. repeat split; reflexivity.
  - exact Hkeys.
  - exists final. split; [exact Hfinal |].
    intros exerciseId. destruct (Hdone exerciseId) as [Hsum Hnone].
    cbn [app] in *. unfold statsOf in Hsum.
    destruct (ownProp final exerciseId) as [stats |].
    + split; [| exact Hsum]. intros Hnil. apply Hnone in Hnil. discriminate.
    + now apply Hnone.
Qed.

End StorageFacts.

Lemma stats_summarise_recorded_workouts_witness :
  let log :=
    [ ("squat", Storage.mkWorkout 85 60 5);
      ("deadlift", Storage.mkWorkout 70 100 3);
      ("squat", Storage.mkWorkout 55 0 8) ]%string%Q%Z in
  exists allStats,
    Storage.recordWorkouts [] log = Js.Ok allStats
    /\ forall exerciseId,
         match Js.ownProp allStats exerciseId with
         | Some stats =>
             Storage.workoutsOf exerciseId log <> []
             /\ Storage.summarises stats (Storage.workoutsOf exerciseId log)
         | None => Storage.workoutsOf exerciseId log = []
         end.
Proof.
  intros log. apply (stats_summarise_recorded_workouts log).
  repeat constructor.
Defined.

(** ** Instances on the synthetic recordings *)

Lemma countReps_range_of_motion_witness :
  Forall (fun g => (0.08 <= RepCounting.rangeOfMotion g)%Q)
         (RepCounting.repRanges
            (RepCounting.countReps Synthetic.flatAngle Synthetic.threeSquats
                                   "squat")).
Proof.
  apply (countReps_range_of_motion
           Synthetic.flatAngle Synthetic.threeSquats "squat"
           (RepCounting.mkRepConfig (Some "hipHeight"%string)
                                    (Some "kneeAngle"%string)
                                    (Some 0.08%Q) (Some "down"%string))
           0.08%Q).
  - reflexivity.
  - reflexivity.
Defined.

Lemma compareRepProgression_average_witness :
  let repAnalyses :=
    map (fun s => RepProgression.mkRepAnalysis
                    "squat" 0 0 [] [] (RepProgression.mkQuality s 100 50) [])
        [80; 85; 90]%Z in
  match RepComparison.compareRepProgression repAnalyses with
  | None => (List.length repAnalyses < 2)%nat
  | Some c =>
      (2 <= List.length repAnalyses)%nat
      /\ RepComparison.totalReps c = List.length repAnalyses
      /\ (0 <= RepComparison.averageQuality c <= 100)%Z
      /\ ((List.length repAnalyses < 3)%nat ->
          RepComparison.fatigueDetected c = false)
  end.
Proof.
  intros repAnalyses. apply (compareRepProgression_average repAnalyses).
  unfold repAnalyses. cbn [map].
  repeat (apply Forall_cons;
          [unfold Invariant.scoresInRange; cbn; lia |]).
  apply Forall_nil.
Defined.

Lemma steady_repetitions_show_no_fatigue_witness :
  let repAnalyses :=
    map (fun s => RepProgression.mkRepAnalysis
                    "squat" 0 0 [] [] (RepProgression.mkQuality s 100 50) [])
        [80; 85; 90]%Z in
  match RepComparison.compareRepProgression repAnalyses with
  | None => (List.length repAnalyses < 2)%nat
  | Some c =>
      RepComparison.fatigueDetected c = false
      /\ RepComparison.recommendations c = []
  end.
Proof.
  intros repAnalyses.
  apply (steady_repetitions_show_no_fatigue repAnalyses).
  - unfold repAnalyses. cbn [map].
    repeat (apply SSorted_cons;
            [| repeat (apply Forall_cons; [cbn; lia |]); apply Forall_nil]).
    apply SSorted_nil.
  - unfold repAnalyses. cbn [map].
    repeat (apply Forall_cons; [cbn; lia |]). apply Forall_nil.
Defined.

Lemma rep_consistency_is_constant_witness :
  let repRanges :=
    RepCounting.repRanges
      (RepCounting.countReps Synthetic.flatAngle Synthetic.threeSquats
                             "squat") in
  exists analyses,
    Pipeline.repProgressionAnalyses Synthetic.threeSquats repRanges "squat"
    = Js.Ok analyses
    /\ Forall (fun a => RepProgression.frameCount a = 0%nat
                        /\ RepProgression.quality a
                           = RepProgression.mkQuality 100 100 50)
              analyses
    /\ match RepComparison.repConsistency analyses with
       | None => (List.length analyses < 2)%nat
       | Some c =>
           c = RepComparison.mkConsistency (List.length analyses) 83 false
                                           [] []
       end.
Proof.
  intros repRanges. eexists. split.
  - vm_compute. reflexivity.
  - apply (rep_consistency_is_constant Synthetic.threeSquats repRanges
                                       "squat").
    vm_compute. reflexivity.
Defined.

Lemma score_within_base_witness :
  exists report significant base final,
    Adaptive.scoreWithConfidence "squat" Synthetic.threeSquats
    = Js.Ok (report, (significant, base, final))
    /\ (0 <= Adaptive.reportConfidence report)%Q
    /\ (Adaptive.reportConfidence report <= 1)%Q
    /\ (Adaptive.completenessScore report
        == Adaptive.reportConfidence report * 100)%Q
    /\ (0 <= final <= base)%Z /\ (base <= 100)%Z.
Proof.
  do 4 eexists. split.
  - vm_compute. reflexivity.
  - eapply (score_within_base "squat" Synthetic.threeSquats).
    vm_compute. reflexivity.
Defined.

Lemma unsupported_exercise_scores_zero_witness :
  exists report significant base final,
    Adaptive.scoreWithConfidence "bench_press" Synthetic.flaggedRecording
    = Js.Ok (report, (significant, base, final))
    /\ Adaptive.reportConfidence report = 0%Q /\ final = 0%Z
    /\ (Synthetic.flaggedRecording <> [] ->
        Adaptive.analysisMode report = "unknown"%string).
Proof.
  do 4 eexists. split.
  - vm_compute. reflexivity.
  - eapply (unsupported_exercise_scores_zero
              "bench_press" Synthetic.flaggedRecording).
    + reflexivity.
    + vm_compute. reflexivity.
Defined.

Lemma full_view_keeps_base_score_witness :
  exists report significant base final,
    Adaptive.scoreWithConfidence "squat" Synthetic.threeSquats
    = Js.Ok (report, (significant, base, final))
    /\ Adaptive.analysisMode report = "full"%string
    /\ (Adaptive.reportConfidence report == 1)%Q
    /\ Adaptive.missing report = []
    /\ Adaptive.unavailableChecks report = []
    /\ final = base.
Proof.
  do 4 eexists. split.
  - vm_compute. reflexivity.
  - eapply (full_view_keeps_base_score "squat" Synthetic.threeSquats).
    + reflexivity.
    + reflexivity.
    + discriminate.
    + vm_compute. intros i Hi.
      repeat (destruct Hi as [<- | Hi]; [simpl; tauto |]). contradiction.
    + vm_compute. reflexivity.
Defined.

Lemma confidence_is_best_share_witness :
  let requirements :=
    match Js.getProp Adaptive.landmarkRequirements "squat" with
    | Js.Own r => r
    | _ => []
    end in
  exists m m',
    Adaptive.determineAnalysisMode "squat" [23; 24]%nat = Js.Ok m
    /\ Adaptive.determineAnalysisMode "squat" [23; 24; 25; 26; 27; 28]%nat
       = Js.Ok m'
    /\ (Adaptive.confidence m
        == Adaptive.bestShare requirements [23; 24]%nat)%Q
    /\ (Adaptive.confidence m'
        == Adaptive.bestShare requirements [23; 24; 25; 26; 27; 28]%nat)%Q
    /\ (Adaptive.confidence m <= Adaptive.confidence m')%Q.
Proof.
  intros requirements. do 2 eexists.
  split; [vm_compute; reflexivity |]. split; [vm_compute; reflexivity |].
  apply (confidence_is_best_share "squat" requirements
                                  [23; 24]%nat [23; 24; 25; 26; 27; 28]%nat).
  - reflexivity.
  - vm_compute. reflexivity.
  - vm_compute. reflexivity.
  - intros i Hi. simpl in Hi. simpl. tauto.
Defined.

Lemma hyperextension_never_reported_witness :
  ~ In "hyperextension"%string
       (map Data.id
            (Pose.frameErrors
               (Pose.analyzePose Pose.straight "deadlift"
                                 (Some Pose.leaning)))).
Proof.
  apply (hyperextension_never_reported Pose.straight).
  intros a b c. unfold Pose.straight. discriminate.
Defined.


Lemma missing_knee_silences_rules_witness :
  ~ In "heel_lift"%string
       (map Data.id
            (Pose.frameErrors
               (Pose.analyzePose Pose.straight "squat"
                                 (Some Pose.kneeHidden)))).
Proof.
  apply (missing_knee_silences_rules Pose.straight Pose.kneeHidden
                                     "heel_lift").
  - left. reflexivity.
  - simpl. tauto.
Defined.
